(** * Video task service (app/services/video_task.py)

    A shallow embedding of [VideoTask] and [VideoTaskService]: the job
    record, the registry (a Python [dict], insertion ordered), creation
    with expiry and capacity-triggered cleanup, the background worker,
    listing with cursor pagination, remix, content lookup, and the
    persistence round trip.

    Conventions.
    - Python [int] is [Z]; [str] is [string] (a byte string: every pattern
      the code matches on is ASCII, and an ASCII byte never occurs inside a
      multi-byte UTF-8 sequence, so byte-wise scanning agrees with
      code-point-wise scanning); [Optional[T]] is [option T].
    - [time.time()] and [uuid.uuid4()] are inputs of the operations that
      call them, one input per call site.
    - The registry is an association list without repeated keys, in
      insertion order, with the update discipline of a Python [dict]. *)

From Stdlib Require Import ZArith List String Ascii Bool Lia Arith.
From Stdlib Require Import Permutation Sorted.
Import ListNotations.

Local Open Scope string_scope.
Local Open Scope Z_scope.

(* ================================================================== *)
(** ** Python string primitives used by the service *)

Module Str.

(** [c.lower()] on one character.  Bytes outside [A-Z] are left alone:
    the results of [lower] are only ever compared with, or searched
    for, ASCII literals made of letters that no non-ASCII code point
    lower-cases to. *)
Definition lower_ascii (c : ascii) : ascii :=
  let n := nat_of_ascii c in
  if (65 <=? n)%nat && (n <=? 90)%nat then ascii_of_nat (n + 32) else c.

(** [s.lower()] *)
Fixpoint lower (s : string) : string :=
  match s with
  | EmptyString => EmptyString
  | String c r => String (lower_ascii c) (lower r)
  end.

(** [s.startswith(p)] *)
Fixpoint startswith (p s : string) : bool :=
  match p, s with
  | EmptyString, _ => true
  | String _ _, EmptyString => false
  | String a p', String b s' => Ascii.eqb a b && startswith p' s'
  end.

(** [sub in s] *)
Fixpoint contains (sub s : string) : bool :=
  startswith sub s ||
  match s with
  | EmptyString => false
  | String _ r => contains sub r
  end.

(** [s.replace(a, b)] for one-character [a] and [b] *)
Fixpoint replace_char (a b : ascii) (s : string) : string :=
  match s with
  | EmptyString => EmptyString
  | String c r => String (if Ascii.eqb c a then b else c) (replace_char a b r)
  end.

(** [s.split(sep)[-1]] for a non-empty [sep]: the scan is left to right
    and matches do not overlap; [skip] counts the characters of the
    separator just matched that are still to be passed over, [cur] is
    the piece being collected. *)
Fixpoint split_last_from (sep : string) (skip : nat) (cur s : string) : string :=
  match s with
  | EmptyString => cur
  | String c r =>
      match skip with
      | S k => split_last_from sep k cur r
      | O =>
          if startswith sep s
          then split_last_from sep (String.length sep - 1) EmptyString r
          else split_last_from sep O (cur ++ String c EmptyString) r
      end
  end.

Definition split_last (sep s : string) : string :=
  split_last_from sep O EmptyString s.

(** Truthiness of an [Optional[str]]: neither [None] nor empty *)
Definition truthy (o : option string) : bool :=
  match o with
  | Some s => negb (s =? "")%string
  | None => false
  end.

End Str.

(* ================================================================== *)
(** ** Python [dict] with string keys, in insertion order *)

Module Dict.

Section Ops.
Context {V : Type}.

Definition dict := list (string * V).

(** [d.get(k)] *)
Fixpoint get (k : string) (d : dict) : option V :=
  match d with
  | [] => None
  | (k', v) :: r => if (k' =? k)%string then Some v else get k r
  end.

(** [d[k] = v]: an existing key keeps its position, a new key goes last *)
Fixpoint set (k : string) (v : V) (d : dict) : dict :=
  match d with
  | [] => [(k, v)]
  | (k', v') :: r =>
      if (k' =? k)%string then (k', v) :: r else (k', v') :: set k v r
  end.

(** [del d[k]] / [d.pop(k, None)] (the entry of [k], if any, goes) *)
Fixpoint del (k : string) (d : dict) : dict :=
  match d with
  | [] => []
  | (k', v') :: r => if (k' =? k)%string then r else (k', v') :: del k r
  end.

Definition keys (d : dict) : list string := map fst d.
Definition values (d : dict) : list V := map snd d.

(** The representation invariant of a [dict]: no key twice. *)
Definition wf (d : dict) : Prop := NoDup (keys d).

End Ops.

Arguments dict V : clear implicits.

End Dict.

Abbreviation dict := Dict.dict.

(* ================================================================== *)
(** ** The job record *)

Module Status.
(** [class VideoTaskStatus(str, Enum)]: the four [.value] strings *)
Definition QUEUED := "queued".
Definition IN_PROGRESS := "in_progress".
Definition COMPLETED := "completed".
Definition FAILED := "failed".
End Status.

(** [@dataclass class VideoTask], its fields in declaration order *)
Record VideoTask : Type := mkVideoTask {
  id : string;
  model : string;
  status : string;
  progress : Z;
  created_at : Z;
  completed_at : option Z;
  expires_at : option Z;
  prompt : string;
  size : string;
  seconds : string;
  quality : string;
  error_code : option string;
  error_message : option string;
  remixed_from_video_id : option string;
  video_url : option string;
  video_path : option string;
  thumbnail_url : option string;
  input_reference : option string;
  sso_token : option string;
  user : option string
}.

(** Attribute assignments [task.f = v] performed by the service *)
Definition set_status (v : string) (t : VideoTask) : VideoTask :=
  mkVideoTask (id t) (model t) v (progress t) (created_at t) (completed_at t)
    (expires_at t) (prompt t) (size t) (seconds t) (quality t) (error_code t)
    (error_message t) (remixed_from_video_id t) (video_url t) (video_path t)
    (thumbnail_url t) (input_reference t) (sso_token t) (user t).

Definition set_progress (v : Z) (t : VideoTask) : VideoTask :=
  mkVideoTask (id t) (model t) (status t) v (created_at t) (completed_at t)
    (expires_at t) (prompt t) (size t) (seconds t) (quality t) (error_code t)
    (error_message t) (remixed_from_video_id t) (video_url t) (video_path t)
    (thumbnail_url t) (input_reference t) (sso_token t) (user t).

Definition set_completed_at (v : option Z) (t : VideoTask) : VideoTask :=
  mkVideoTask (id t) (model t) (status t) (progress t) (created_at t) v
    (expires_at t) (prompt t) (size t) (seconds t) (quality t) (error_code t)
    (error_message t) (remixed_from_video_id t) (video_url t) (video_path t)
    (thumbnail_url t) (input_reference t) (sso_token t) (user t).

Definition set_error_code (v : option string) (t : VideoTask) : VideoTask :=
  mkVideoTask (id t) (model t) (status t) (progress t) (created_at t)
    (completed_at t) (expires_at t) (prompt t) (size t) (seconds t) (quality t)
    v (error_message t) (remixed_from_video_id t) (video_url t) (video_path t)
    (thumbnail_url t) (input_reference t) (sso_token t) (user t).

Definition set_error_message (v : option string) (t : VideoTask) : VideoTask :=
  mkVideoTask (id t) (model t) (status t) (progress t) (created_at t)
    (completed_at t) (expires_at t) (prompt t) (size t) (seconds t) (quality t)
    (error_code t) v (remixed_from_video_id t) (video_url t) (video_path t)
    (thumbnail_url t) (input_reference t) (sso_token t) (user t).

Definition set_remixed_from_video_id (v : option string) (t : VideoTask) : VideoTask :=
  mkVideoTask (id t) (model t) (status t) (progress t) (created_at t)
    (completed_at t) (expires_at t) (prompt t) (size t) (seconds t) (quality t)
    (error_code t) (error_message t) v (video_url t) (video_path t)
    (thumbnail_url t) (input_reference t) (sso_token t) (user t).

Definition set_video_url (v : option string) (t : VideoTask) : VideoTask :=
  mkVideoTask (id t) (model t) (status t) (progress t) (created_at t)
    (completed_at t) (expires_at t) (prompt t) (size t) (seconds t) (quality t)
    (error_code t) (error_message t) (remixed_from_video_id t) v (video_path t)
    (thumbnail_url t) (input_reference t) (sso_token t) (user t).

Definition set_video_path (v : option string) (t : VideoTask) : VideoTask :=
  mkVideoTask (id t) (model t) (status t) (progress t) (created_at t)
    (completed_at t) (expires_at t) (prompt t) (size t) (seconds t) (quality t)
    (error_code t) (error_message t) (remixed_from_video_id t) (video_url t) v
    (thumbnail_url t) (input_reference t) (sso_token t) (user t).

(** [VideoTask(model=..., prompt=..., input_reference=..., seconds=...,
    size=..., expires_at=..., user=...)]: the remaining fields take their
    declared defaults; the two [default_factory] fields read the id
    generator ([uuid_hex] stands for [uuid.uuid4().hex[:12]]) and the clock
    ([now] stands for [int(time.time())] at construction). *)
Definition new_VideoTask (uuid_hex : string) (now : Z)
    (model prompt : string) (input_reference : option string)
    (seconds size : string) (expires_at : option Z) (user : option string)
    : VideoTask :=
  {| id := "video_" ++ uuid_hex;
     model := model;
     status := "queued";
     progress := 0;
     created_at := now;
     completed_at := None;
     expires_at := expires_at;
     prompt := prompt;
     size := size;
     seconds := seconds;
     quality := "standard";
     error_code := None;
     error_message := None;
     remixed_from_video_id := None;
     video_url := None;
     video_path := None;
     thumbnail_url := None;
     input_reference := input_reference;
     sso_token := None;
     user := user |}.

(* ================================================================== *)
(** ** The service state *)

(** The attributes of [VideoTaskService] that the operations read or
    write.  [T] is the type of the stored objects. *)
Record Service (T : Type) : Type := mkService {
  _tasks : dict T;
  _loaded : bool;
  _save_pending : bool
}.

Arguments mkService {T} _ _ _.
Arguments _tasks {T} _.
Arguments _loaded {T} _.
Arguments _save_pending {T} _.

Definition _max_tasks : Z := 1000.
Definition _task_expire_hours : Z := 24.

(** [__init__]: nothing loaded, nothing to save *)
Definition init {T : Type} : Service T := mkService [] false false.

(** [_mark_dirty] *)
Definition _mark_dirty {T : Type} (s : Service T) : Service T :=
  mkService (_tasks s) (_loaded s) true.

(** [if not self._loaded: await self._load_tasks()], the first statement
    of every public operation.  [_load_tasks] itself is modelled in
    [Persistence] below on the objects [from_dict] builds; here [disk] is
    the mapping it leaves in [self._tasks] (empty when the file is missing
    or the load fails). *)
Definition ensure_loaded (s : Service VideoTask) (disk : dict VideoTask)
    : Service VideoTask :=
  if _loaded s then s else mkService disk true (_save_pending s).

(** [_map_to_grok_model] *)
Definition _map_to_grok_model (model : string) : string :=
  let model_map :=
    [("sora-2", "grok-imagine-0.9");
     ("sora-2-pro", "grok-imagine-0.9");
     ("sora", "grok-imagine-0.9")] in
  match Dict.get (Str.lower model) model_map with
  | Some m => m
  | None => "grok-imagine-0.9"
  end.

(** The loop condition of [_cleanup_old_tasks]:
    [task.expires_at and task.expires_at < now].  The first conjunct is
    Python truthiness of an [Optional[int]]: false for [None] and for 0. *)
Definition is_expired (now : Z) (t : VideoTask) : bool :=
  match expires_at t with
  | Some e => negb (e =? 0) && (e <? now)
  | None => false
  end.

(** First loop of [_cleanup_old_tasks]: collect the ids *)
Definition expired_ids (now : Z) (d : dict VideoTask) : list string :=
  map fst (filter (fun kv => is_expired now (snd kv)) d).

(** [_cleanup_old_tasks]: second loop, [del self._tasks[task_id]] for each
    collected id ([now] is the clock read at its first line). *)
Definition _cleanup_old_tasks (now : Z) (d : dict VideoTask) : dict VideoTask :=
  fold_left (fun acc k => Dict.del k acc) (expired_ids now d) d.

(** What one call of [create_task] reads from its environment. *)
Record CreateEnv : Type := mkCreateEnv {
  disk : dict VideoTask;   (* the load result, used only if not yet loaded *)
  uuid_hex : string;       (* uuid.uuid4().hex[:12] *)
  time_expiry : Z;         (* int(time.time()) in the expires_at line *)
  time_created : Z;        (* int(time.time()) in the created_at factory *)
  time_cleanup : Z         (* int(time.time()) in _cleanup_old_tasks *)
}.

(** The mapping after [self._tasks[task.id] = task] and the size check *)
Definition insert_and_evict (now : Z) (task : VideoTask) (d : dict VideoTask)
    : dict VideoTask :=
  let d1 := Dict.set (id task) task d in
  if _max_tasks <? Z.of_nat (List.length d1) then _cleanup_old_tasks now d1 else d1.

(** [create_task]; the worker it schedules is [_process_task] below, run
    as a later step. *)
Definition create_task (s : Service VideoTask) (env : CreateEnv)
    (prompt model : string) (input_reference : option string)
    (seconds size : string) (user : option string)
    : Service VideoTask * VideoTask :=
  let s := ensure_loaded s (disk env) in
  let actual_model := _map_to_grok_model model in
  let expires := time_expiry env + _task_expire_hours * 3600 in
  let task :=
    new_VideoTask (uuid_hex env) (time_created env) actual_model prompt
      input_reference seconds size (Some expires) user in
  let d := insert_and_evict (time_cleanup env) task (_tasks s) in
  (_mark_dirty (mkService d (_loaded s) (_save_pending s)), task).

(* ================================================================== *)
(** ** The generation worker *)

(** [re.findall(video_pattern, content)] for the pattern of the source,
    written here with Q for the double quote:
    [<video[^>]+src=Q([^Q]+)Q]. *)
Module VideoPattern.

(** The double quote character *)
Definition dquote : ascii := Eval cbv in ascii_of_nat 34.

(** The literal piece [src=Q] *)
Definition src_eq_quote : string := "src=" ++ String dquote EmptyString.

(** Longest prefix of [s] free of [c], its length, and what follows *)
Fixpoint span_not (c : ascii) (s : string) : string * nat * string :=
  match s with
  | EmptyString => (EmptyString, O, EmptyString)
  | String a r =>
      if Ascii.eqb a c then (EmptyString, O, s)
      else let '(run, n, rest) := span_not c r in (String a run, S n, rest)
  end.

Fixpoint drop (n : nat) (s : string) : string :=
  match n, s with
  | O, _ => s
  | S _, EmptyString => EmptyString
  | S k, String _ r => drop k r
  end.

(** The tail of the pattern, [src=Q([^Q]+)Q], tried at the head of [s]:
    the group and the number of characters matched.  The class [[^Q]+]
    is greedy and cannot give characters back (what it would give back
    is not a quote), so the group is the whole run up to the next
    quote, which has to exist and to be non-empty. *)
Definition match_src (s : string) : option (string * nat) :=
  if Str.startswith src_eq_quote s then
    let '(group, n, rest) := span_not dquote (drop 5 s) in
    match n, rest with
    | S _, String _ _ => Some (group, (5 + n + 1)%nat)
    | _, _ => None
    end
  else None.

(** [[^>]+] followed by the tail.  [s] is what is left after [used]
    characters of the class; the class is greedy, so of all the places
    where the tail matches the last one wins ([best] is the last one
    seen so far). *)
Fixpoint match_class (s : string) (used : nat) (best : option (string * nat))
    : option (string * nat) :=
  let best' :=
    match match_src s with
    | Some (g, n) => Some (g, (used + n)%nat)
    | None => best
    end in
  match s with
  | EmptyString => best'
  | String c r =>
      if Ascii.eqb c ">" then best' else match_class r (S used) best'
  end.

(** The whole pattern tried at the head of [s] *)
Definition match_here (s : string) : option (string * nat) :=
  if Str.startswith "<video" s then
    match drop 6 s with
    | EmptyString => None
    | String c r =>
        if Ascii.eqb c ">" then None else match_class r 7 None
    end
  else None.

(** Leftmost, non-overlapping matches; [skip] counts the characters of
    the last match still to be passed over. *)
Fixpoint findall_from (skip : nat) (s : string) : list string :=
  match s with
  | EmptyString => []
  | String _ r =>
      match skip with
      | S k => findall_from k r
      | O =>
          match match_here s with
          | Some (g, n) => g :: findall_from (n - 1) r
          | None => findall_from O r
          end
      end
  end.

Definition findall (content : string) : list string := findall_from O content.

End VideoPattern.

(** A source attribute with the group [g]: the literal piece, [g], a
    quote; [g] is not empty and holds no quote. *)
Definition src_attribute (g s : string) : Prop :=
  exists post,
    s = VideoPattern.src_eq_quote ++ g ++ String VideoPattern.dquote post /\
    g <> "" /\
    ~ In VideoPattern.dquote (list_ascii_of_string g).

(** A video tag carrying the source [g] at the head of [s]: the literal
    [<video], at least one character, none of them a closing bracket,
    then the source attribute. *)
Definition video_tag (g s : string) : Prop :=
  exists mid rest,
    s = "<video" ++ mid ++ rest /\
    mid <> "" /\
    ~ In ">"%char (list_ascii_of_string mid) /\
    src_attribute g rest.

(** What the [try] block of [_process_task] gets from the provider.  The
    response object belongs to the provider client; the worker reads one
    string from it, [content], next to the media URL list.  An exception
    of the awaited call is [CallRaised]; one raised while the result is
    taken apart (after [progress = 80]) is [ResultRaised]; [str(e)] is the
    carried text. *)
Inductive ProviderOutcome : Type :=
| CallRaised (msg : string)
| ResultRaised (msg : string)
| Returned (content : string) (media_urls : list string).

(** [any(ext in url.lower() for ext in ['.mp4', '.webm', '.mov'])] *)
Definition has_video_ext (url : string) : bool :=
  existsb (fun ext => Str.contains ext (Str.lower url)) [".mp4"; ".webm"; ".mov"].

(** The extraction of [video_url]: pattern first, media list second *)
Definition extract_video_url (content : string) (media_urls : list string)
    : option string :=
  let video_matches := VideoPattern.findall content in
  let video_url :=
    match video_matches with
    | g :: _ => Some g
    | [] => None
    end in
  if negb (Str.truthy video_url) && negb (Nat.eqb (List.length media_urls) 0)
  then
    match find has_video_ext media_urls with
    | Some url => Some url
    | None => video_url
    end
  else video_url.

(** The [except] clause *)
Definition fail_with (code msg : string) (t : VideoTask) : VideoTask :=
  set_error_message (Some msg) (set_error_code (Some code) (set_status Status.FAILED t)).

(** The body of [_process_task] on the task object, up to the awaited
    provider call: [in_progress], progress 10 and then 30. *)
Definition worker_begin (t : VideoTask) : VideoTask :=
  set_progress 30 (set_progress 10 (set_status Status.IN_PROGRESS t)).

(** ... and from the return of the call on; [now] is the clock read for
    [completed_at].  The audit record is handed to the call-log sink
    without being awaited and leaves the task untouched. *)
Definition worker_finish (out : ProviderOutcome) (now : Z) (t : VideoTask)
    : VideoTask :=
  match out with
  | CallRaised msg => fail_with "generation_error" msg t
  | ResultRaised msg => fail_with "generation_error" msg (set_progress 80 t)
  | Returned content media_urls =>
      let t := set_progress 80 t in
      let video_url := extract_video_url content media_urls in
      if Str.truthy video_url then
        let t := set_status Status.COMPLETED t in
        let t := set_progress 100 t in
        let t := set_completed_at (Some now) t in
        let t := set_video_url video_url t in
        match video_url with
        | Some u =>
            if Str.contains "/images/" u
            then set_video_path (Some (Str.split_last "/images/" u)) t
            else t
        | None => t
        end
      else
        fail_with "no_video_generated"
          "视频生成失败，未获取到视频URL" t
  end.

Definition run_worker (out : ProviderOutcome) (now : Z) (t : VideoTask)
    : VideoTask :=
  worker_finish out now (worker_begin t).

(** [_process_task]: the task is looked up once; every assignment goes to
    that object, which is the one the mapping holds under [task_id]. *)
Definition _process_task (s : Service VideoTask) (task_id : string)
    (out : ProviderOutcome) (now : Z) : Service VideoTask :=
  match Dict.get task_id (_tasks s) with
  | None => s
  | Some task =>
      _mark_dirty
        (mkService (Dict.set task_id (run_worker out now task) (_tasks s))
           (_loaded s) (_save_pending s))
  end.

(* ================================================================== *)
(** ** Queries, deletion, remix *)

(** [get_task] *)
Definition get_task (s : Service VideoTask) (disk : dict VideoTask)
    (task_id : string) : Service VideoTask * option VideoTask :=
  let s := ensure_loaded s disk in
  (s, Dict.get task_id (_tasks s)).

(** [list.sort(key=..., reverse=...)]: the sort is stable, and with
    [reverse=True] elements with equal keys still keep their original
    order.  [le_key] is the comparison the flag selects. *)
Section Sort.
Context {A : Type} (key : A -> Z).

Definition le_key (reverse : bool) (a b : A) : bool :=
  if reverse then key b <=? key a else key a <=? key b.

(** The order that comparison decides *)
Definition in_order (reverse : bool) (a b : A) : Prop :=
  if reverse then key b <= key a else key a <= key b.

(** [x] stood before every element of [l] in the input: it goes in
    front of the first element it does not have to follow. *)
Fixpoint insert_sorted (reverse : bool) (x : A) (l : list A) : list A :=
  match l with
  | [] => [x]
  | y :: r =>
      if le_key reverse x y then x :: y :: r
      else y :: insert_sorted reverse x r
  end.

Fixpoint sort_by (reverse : bool) (l : list A) : list A :=
  match l with
  | [] => []
  | x :: r => insert_sorted reverse x (sort_by reverse r)
  end.
End Sort.

(** The cursor loop of [list_tasks]: everything after the first task whose
    id is [after] *)
Fixpoint after_cursor (after : string) (found : bool) (tasks : list VideoTask)
    : list VideoTask :=
  match tasks with
  | [] => []
  | t :: r =>
      if found then t :: after_cursor after true r
      else if (id t =? after)%string then after_cursor after true r
      else after_cursor after false r
  end.

(** [tasks[:limit]]: a negative [limit] counts from the end *)
Definition slice_to {A : Type} (limit : Z) (l : list A) : list A :=
  if limit <? 0
  then firstn (Z.to_nat (Z.of_nat (List.length l) + limit)) l
  else firstn (Z.to_nat limit) l.

(** [if user: tasks = [t for t in tasks if t.user == user]] *)
Definition filter_user (by_user : option string) (tasks : list VideoTask)
    : list VideoTask :=
  if Str.truthy by_user
  then filter (fun t =>
                 match user t, by_user with
                 | Some a, Some b => (a =? b)%string
                 | _, _ => false
                 end) tasks
  else tasks.

(** The working set of [list_tasks]: all values, filtered by user when a
    non-empty user is given, sorted *)
Definition working_set (d : dict VideoTask) (order : string)
    (by_user : option string) : list VideoTask :=
  let tasks := Dict.values d in
  let tasks := filter_user by_user tasks in
  let reverse := (Str.lower order =? "desc")%string in
  sort_by created_at reverse tasks.

(** The page cut out of the sorted working set *)
Definition page_of (limit : Z) (after : option string) (tasks : list VideoTask)
    : list VideoTask * bool * option string * option string :=
  let tasks :=
    match after with
    | Some a => if Str.truthy after then after_cursor a false tasks else tasks
    | None => tasks
    end in
  let has_more := limit <? Z.of_nat (List.length tasks) in
  let tasks := slice_to limit tasks in
  let first_id := option_map id (hd_error tasks) in
  let last_id := option_map id (hd_error (rev tasks)) in
  (tasks, has_more, first_id, last_id).

(** [list_tasks] *)
Definition list_tasks (s : Service VideoTask) (disk : dict VideoTask)
    (limit : Z) (after : option string) (order : string) (user : option string)
    : Service VideoTask
      * (list VideoTask * bool * option string * option string) :=
  let s := ensure_loaded s disk in
  (s, page_of limit after (working_set (_tasks s) order user)).

(** [delete_task] *)
Definition delete_task (s : Service VideoTask) (disk : dict VideoTask)
    (task_id : string) : Service VideoTask * option VideoTask :=
  let s := ensure_loaded s disk in
  match Dict.get task_id (_tasks s) with
  | Some task =>
      (_mark_dirty (mkService (Dict.del task_id (_tasks s)) (_loaded s)
                      (_save_pending s)),
       Some task)
  | None => (s, None)
  end.

(** [new_task.remixed_from_video_id = source_task_id]: the assignment goes
    to the object [create_task] returned, which is the object the mapping
    holds under its id unless the cleanup inside [create_task] took it out. *)
Definition stamp_remix (source_task_id : string) (new_task : VideoTask)
    (d : dict VideoTask) : dict VideoTask :=
  match Dict.get (id new_task) d with
  | Some _ =>
      Dict.set (id new_task)
        (set_remixed_from_video_id (Some source_task_id) new_task) d
  | None => d
  end.

(** [remix_task] *)
Definition remix_task (s : Service VideoTask) (env : CreateEnv)
    (source_task_id prompt : string)
    : Service VideoTask * option VideoTask :=
  let '(s, source) := get_task s (disk env) source_task_id in
  match source with
  | None => (s, None)
  | Some source_task =>
      if negb (status source_task =? Status.COMPLETED)%string then (s, None)
      else
        let '(s, new_task) :=
          create_task s env prompt (model source_task) (video_url source_task)
            (seconds source_task) (size source_task) (user source_task) in
        (_mark_dirty
           (mkService (stamp_remix source_task_id new_task (_tasks s))
              (_loaded s) (_save_pending s)),
         Some (set_remixed_from_video_id (Some source_task_id) new_task))
  end.

(** [get_video_content].  The media cache is an outside collaborator:
    [get_cached] is [video_cache_service.get_cached] and [path_exists] is
    [Path.exists]; a path is the string naming it. *)
Section Content.
Variable get_cached : string -> option string.
Variable path_exists : string -> bool.

Definition get_video_content (s : Service VideoTask) (disk : dict VideoTask)
    (task_id : string) : Service VideoTask * option string :=
  let '(s, task) := get_task s disk task_id in
  (s,
   match task with
   | None => None
   | Some task =>
       if negb (status task =? Status.COMPLETED)%string then None
       else if Str.truthy (video_path task) then
         match video_path task with
         | Some p =>
             let original_path := "/" ++ Str.replace_char "-" "/" p in
             match get_cached original_path with
             | Some cache_path =>
                 if path_exists cache_path then Some cache_path else None
             | None => None
             end
         | None => None
         end
       else None
   end).
End Content.

(* ================================================================== *)
(** ** Persistence: [to_dict], [from_dict], [_load_tasks] *)

Module Persistence.

(** The values [orjson.loads] produces, which are also the values a
    field of a task object can hold after [from_dict] (Python checks no
    annotation).  A float is kept as its literal. *)
#[local] Unset Elimination Schemes.
Inductive pyval : Type :=
| PNone
| PBool (b : bool)
| PInt (n : Z)
| PFloat (literal : string)
| PStr (s : string)
| PList (items : list pyval)
| PDict (entries : list (string * pyval)).
#[local] Set Elimination Schemes.

(** A task object at run time: its attributes, in field order *)
Definition pyobj := dict pyval.

(** [cls.__dataclass_fields__], in declaration order *)
Definition dataclass_fields : list string :=
  ["id"; "model"; "status"; "progress"; "created_at"; "completed_at";
   "expires_at"; "prompt"; "size"; "seconds"; "quality"; "error_code";
   "error_message"; "remixed_from_video_id"; "video_url"; "video_path";
   "thumbnail_url"; "input_reference"; "sso_token"; "user"].

Definition is_field (k : string) : bool :=
  existsb (String.eqb k) dataclass_fields.

(** The default of each field; the two factories read their inputs. *)
Definition field_default (uuid_hex : string) (now : Z) (f : string) : pyval :=
  if (f =? "id")%string then PStr ("video_" ++ uuid_hex)
  else if (f =? "model")%string then PStr "grok-imagine-0.9"
  else if (f =? "status")%string then PStr "queued"
  else if (f =? "progress")%string then PInt 0
  else if (f =? "created_at")%string then PInt now
  else if (f =? "prompt")%string then PStr ""
  else if (f =? "size")%string then PStr "720x1280"
  else if (f =? "seconds")%string then PStr "4"
  else if (f =? "quality")%string then PStr "standard"
  else PNone.

Definition opt_int (o : option Z) : pyval :=
  match o with Some n => PInt n | None => PNone end.

Definition opt_str (o : option string) : pyval :=
  match o with Some s => PStr s | None => PNone end.

(** The run-time object of a well-typed record *)
Definition instance_of (t : VideoTask) : pyobj :=
  [("id", PStr (id t));
   ("model", PStr (model t));
   ("status", PStr (status t));
   ("progress", PInt (progress t));
   ("created_at", PInt (created_at t));
   ("completed_at", opt_int (completed_at t));
   ("expires_at", opt_int (expires_at t));
   ("prompt", PStr (prompt t));
   ("size", PStr (size t));
   ("seconds", PStr (seconds t));
   ("quality", PStr (quality t));
   ("error_code", opt_str (error_code t));
   ("error_message", opt_str (error_message t));
   ("remixed_from_video_id", opt_str (remixed_from_video_id t));
   ("video_url", opt_str (video_url t));
   ("video_path", opt_str (video_path t));
   ("thumbnail_url", opt_str (thumbnail_url t));
   ("input_reference", opt_str (input_reference t));
   ("sso_token", opt_str (sso_token t));
   ("user", opt_str (user t))].

(** [dataclasses.asdict] on a field value: lists and dicts are rebuilt
    element by element, anything else is deep-copied. *)
Fixpoint asdict_inner (v : pyval) : pyval :=
  match v with
  | PList items => PList (map asdict_inner items)
  | PDict entries =>
      PDict (map (fun kv => (fst kv, asdict_inner (snd kv))) entries)
  | _ => v
  end.

(** [asdict(self)]: one entry per field, in field order *)
Definition asdict (o : pyobj) : dict pyval :=
  map (fun kv => (fst kv, asdict_inner (snd kv))) o.

(** [VideoTask.to_dict] *)
Definition to_dict (t : VideoTask) : dict pyval := asdict (instance_of t).

(** Exceptions, as far as the loader tells them apart: not at all. *)
Inductive exn : Type := Exception (msg : string).

Inductive result (A : Type) : Type :=
| Ok (a : A)
| Raise (e : exn).
Arguments Ok {A} _.
Arguments Raise {A} _.

Definition bind {A B : Type} (m : result A) (k : A -> result B) : result B :=
  match m with
  | Ok a => k a
  | Raise e => Raise e
  end.

Notation "x <- m ;; k" := (bind m (fun x => k))
  (at level 61, m at next level, right associativity).

(** [v.items()]: only a dict has the method *)
Definition py_items (v : pyval) : result (list (string * pyval)) :=
  match v with
  | PDict entries => Ok entries
  | _ => Raise (Exception "AttributeError: items")
  end.

(** [data.get(k, default)]: only a dict has the method *)
Definition py_get (v : pyval) (k : string) (default : pyval) : result pyval :=
  match v with
  | PDict entries =>
      Ok match Dict.get k entries with
         | Some x => x
         | None => default
         end
  | _ => Raise (Exception "AttributeError: get")
  end.

(** [{k: v for k, v in data.items() if k in valid_fields}] *)
Definition filter_fields (items : list (string * pyval)) : dict pyval :=
  fold_left
    (fun acc kv => if is_field (fst kv) then Dict.set (fst kv) (snd kv) acc else acc)
    items [].

(** The constructor call on the filtered keywords: each field from its
    keyword, else its default *)
Definition construct (uuid_hex : string) (now : Z) (kwargs : dict pyval)
    : pyobj :=
  map (fun f =>
         (f, match Dict.get f kwargs with
             | Some v => v
             | None => field_default uuid_hex now f
             end))
    dataclass_fields.

(** [VideoTask.from_dict] *)
Definition from_dict (uuid_hex : string) (now : Z) (data : pyval)
    : result pyobj :=
  items <- py_items data ;;
  Ok (construct uuid_hex now (filter_fields items)).

(** The persisted file as [_load_tasks] meets it. *)
Inductive FileState : Type :=
| FileMissing                     (* task_file.exists() is false *)
| FileUnreadable (e : exn)        (* open or read raises *)
| FileUnparseable (e : exn)       (* orjson.loads raises *)
| FileParsed (data : pyval).      (* orjson.loads returns data *)

(** The [for] loop of [_load_tasks]; [factory n] is what the two default
    factories would return in the [n]-th call of [from_dict]. *)
Fixpoint load_items (factory : nat -> string * Z) (n : nat)
    (items : list (string * pyval)) (tasks : dict pyobj)
    : result (dict pyobj) :=
  match items with
  | [] => Ok tasks
  | (task_id, task_data) :: r =>
      o <- from_dict (fst (factory n)) (snd (factory n)) task_data ;;
      load_items factory (S n) r (Dict.set task_id o tasks)
  end.

(** The [try] block of [_load_tasks]: the mapping it leaves, or the
    exception that leaves it *)
Definition load_body (factory : nat -> string * Z) (file : FileState)
    (tasks : dict pyobj) : result (dict pyobj) :=
  match file with
  | FileMissing => Ok []
  | FileUnreadable e => Raise e
  | FileUnparseable e => Raise e
  | FileParsed data =>
      tasks_value <- py_get data "tasks" (PDict []) ;;
      items <- py_items tasks_value ;;
      load_items factory O items tasks
  end.

(** [_load_tasks], with its [except Exception] clause.  The type has no
    place for an exception: whatever the [try] block raises ends in the
    handler. *)
Definition _load_tasks (factory : nat -> string * Z) (file : FileState)
    (s : Service pyobj) : Service pyobj :=
  if _loaded s then s
  else
    match load_body factory file (_tasks s) with
    | Ok tasks => mkService tasks true (_save_pending s)
    | Raise _ => mkService [] true (_save_pending s)
    end.

(** The [data] that [_save_tasks] serialises; [now] is its clock read *)
Definition save_data (tasks : dict VideoTask) (now : Z) : pyval :=
  PDict
    [("tasks", PDict (map (fun kv => (fst kv, PDict (to_dict (snd kv)))) tasks));
     ("meta",
      PDict [("total_count", PInt (Z.of_nat (List.length tasks)));
             ("last_save", PInt now)])].

(** [start], as far as the state goes *)
Definition start (factory : nat -> string * Z) (file : FileState)
    (s : Service pyobj) : Service pyobj :=
  _load_tasks factory file s.

End Persistence.

(* ================================================================== *)
(** ** The registry invariant *)

(** What every registry built by the service satisfies: a key occurs
    once, and a job is stored under its own id. *)
Definition registry_ok (d : dict VideoTask) : Prop :=
  Dict.wf d /\ Forall (fun kv => id (snd kv) = fst kv) d.

(* ================================================================== *)
(** ** The media-list test as the specification words it *)

(** [s.endswith(suffix)] *)
Fixpoint endswith (suffix s : string) : bool :=
  (s =? suffix)%string ||
  match s with
  | EmptyString => false
  | String _ r => endswith suffix r
  end.

(** Following the words of the specification ("one whose extension
    indicates a video container (.mp4/.webm/.mov)"): the URL ends in one
    of the three extensions, in either case.  To be compared with
    [has_video_ext], which is what the worker computes. *)
Definition spec_has_video_extension (url : string) : bool :=
  existsb (fun ext => endswith ext (Str.lower url)) [".mp4"; ".webm"; ".mov"].

(** The extraction with that test in the place of [has_video_ext] *)
Definition spec_extract_video_url (content : string) (media_urls : list string)
    : option string :=
  match VideoPattern.findall content with
  | g :: _ => Some g
  | [] => find spec_has_video_extension media_urls
  end.

(* ================================================================== *)
(** ** Sample data for the examples *)

(** A registry of [n] jobs with distinct ids; the first one carries
    [first_expiry], the others expire at second 1000000. *)
Definition sample_key (i : nat) : string :=
  "video_" ++ string_of_list_ascii (repeat "a"%char i).

Definition sample_task (first_expiry : option Z) (i : nat) : VideoTask :=
  new_VideoTask (string_of_list_ascii (repeat "a"%char i)) 0 "grok-imagine-0.9"
    "p" None "4" "720x1280"
    (match i with O => first_expiry | S _ => Some 1000000 end) None.

Definition sample_registry (first_expiry : option Z) (n : nat)
    : Service VideoTask :=
  mkService (map (fun i => (sample_key i, sample_task first_expiry i)) (seq 0 n))
    true false.

Definition sample_env (hex : string) (now : Z) : CreateEnv :=
  mkCreateEnv [] hex now now now.

(** A queued job with the given id suffix, creation second and user *)
Definition sample_job_at (hex : string) (created : Z) (by_user : option string)
    : VideoTask :=
  new_VideoTask hex created "grok-imagine-0.9" "p" None "4" "720x1280"
    (Some (created + 86400)) by_user.

(** A loaded registry holding the given jobs under their ids, in order *)
Definition registry_of (jobs : list VideoTask) : Service VideoTask :=
  mkService (fold_left (fun d t => Dict.set (id t) t d) jobs []) true false.

(** A response body that embeds a video tag with the given source *)
Definition sample_video_tag (url : string) : string :=
  "Here it is: <video controls src="
  ++ String VideoPattern.dquote url
  ++ String VideoPattern.dquote "></video>".

(** A job as [create_task] returns it on an empty, loaded registry *)
Definition sample_job : VideoTask :=
  snd (create_task (sample_registry None 0) (sample_env "0123456789ab" 1700000000)
         "a dog running" "sora-2" None "4" "720x1280" None).

(** The worker's result for [sample_job] when the provider answers with a
    video tag for [url] at second 1700000100, and the registry holding it *)
Definition sample_completed_job (url : string) : VideoTask :=
  run_worker (Returned (sample_video_tag url) []) 1700000100 sample_job.

Definition sample_completed_registry (url : string) : Service VideoTask :=
  _process_task
    (fst (create_task (sample_registry None 0) (sample_env "0123456789ab" 1700000000)
            "a dog running" "sora-2" None "4" "720x1280" None))
    "video_0123456789ab" (Returned (sample_video_tag url) []) 1700000100.

(* ================================================================== *)
(** ** The public view of a job: [to_openai_response] *)

(** [_map_model_name] *)
Definition _map_model_name (t : VideoTask) : string :=
  let model_map := [("grok-imagine-0.9", "sora-2")] in
  match Dict.get (model t) model_map with
  | Some m => m
  | None => model t
  end.

(** Truthiness of an [Optional[int]]: neither [None] nor 0 *)
Definition truthy_int (o : option Z) : bool :=
  match o with
  | Some n => negb (n =? 0)
  | None => false
  end.

(** [x or default] for an [Optional[str]] *)
Definition str_or (o : option string) (default : string) : string :=
  match o with
  | Some x => if (x =? "")%string then default else x
  | None => default
  end.

(** [to_openai_response]: the dict it builds, key by key *)
Definition to_openai_response (t : VideoTask) : dict Persistence.pyval :=
  let response :=
    [("id", Persistence.PStr (id t));
     ("object", Persistence.PStr "video");
     ("model", Persistence.PStr (_map_model_name t));
     ("status", Persistence.PStr (status t));
     ("progress", Persistence.PInt (progress t));
     ("created_at", Persistence.PInt (created_at t));
     ("size", Persistence.PStr (size t));
     ("seconds", Persistence.PStr (seconds t));
     ("quality", Persistence.PStr (quality t))] in
  let response :=
    if negb (prompt t =? "")%string
    then Dict.set "prompt" (Persistence.PStr (prompt t)) response else response in
  let response :=
    if truthy_int (completed_at t)
    then Dict.set "completed_at" (Persistence.opt_int (completed_at t)) response
    else response in
  let response :=
    if truthy_int (expires_at t)
    then Dict.set "expires_at" (Persistence.opt_int (expires_at t)) response
    else response in
  let response :=
    if Str.truthy (error_code t) || Str.truthy (error_message t)
    then Dict.set "error"
           (Persistence.PDict
              [("code", Persistence.PStr (str_or (error_code t) "unknown_error"));
               ("message",
                Persistence.PStr (str_or (error_message t) "Unknown error occurred"))])
           response
    else response in
  let response :=
    if Str.truthy (remixed_from_video_id t)
    then Dict.set "remixed_from_video_id"
           (Persistence.opt_str (remixed_from_video_id t)) response
    else response in
  let response :=
    if Str.truthy (video_url t)
    then Dict.set "video_url" (Persistence.opt_str (video_url t)) response
    else response in
  let response :=
    if Str.truthy (thumbnail_url t)
    then Dict.set "thumbnail_url" (Persistence.opt_str (thumbnail_url t)) response
    else response in
  response.

(* ================================================================== *)
(** ** Saving: [_save_tasks], the periodic saver, [start], [shutdown] *)

(** How the write of [_save_tasks] ends.  [NotWritten]: serialising or
    opening the file raised, the file is as it was.  [Truncated]: the file
    was opened for writing, which empties it, and the write raised; what
    is left is no complete JSON document. *)
Inductive WriteOutcome : Type :=
| Written
| NotWritten (e : Persistence.exn)
| Truncated (e : Persistence.exn).

(** The service with the rest of its attributes and the file it saves
    to.  [saver_started] stands for [self._save_task is not None]. *)
Record Runtime : Type := mkRuntime {
  service : Service VideoTask;
  _shutdown : bool;
  saver_started : bool;
  task_file : Persistence.FileState
}.

Definition with_service (s : Service VideoTask) (rt : Runtime) : Runtime :=
  mkRuntime s (_shutdown rt) (saver_started rt) (task_file rt).

(** The first half of [_save_tasks]: under the lock, [data] is built from
    the registry as it is at that moment ([now] is the clock read for
    [last_save]).  The file is opened and written only afterwards, in
    awaited calls. *)
Definition save_snapshot (rt : Runtime) (now : Z) : Persistence.pyval :=
  Persistence.save_data (_tasks (service rt)) now.

(** The second half: the write of that data, and the [except] clause
    that keeps every exception in. *)
Definition save_write (data : Persistence.pyval) (w : WriteOutcome) (rt : Runtime)
    : Runtime :=
  match w with
  | Written =>
      mkRuntime (service rt) (_shutdown rt) (saver_started rt)
        (Persistence.FileParsed data)
  | NotWritten _ => rt
  | Truncated e =>
      mkRuntime (service rt) (_shutdown rt) (saver_started rt)
        (Persistence.FileUnparseable e)
  end.

(** [_save_tasks] with nothing else running in between *)
Definition _save_tasks (rt : Runtime) (now : Z) (w : WriteOutcome) : Runtime :=
  save_write (save_snapshot rt now) w rt.

(** [self._save_pending = False] *)
Definition clear_pending (rt : Runtime) : Runtime :=
  with_service (mkService (_tasks (service rt)) (_loaded (service rt)) false) rt.

(** The test one round of [_batch_save_worker] makes after its sleep *)
Definition saver_due (rt : Runtime) : bool :=
  _save_pending (service rt) && negb (_shutdown rt).

(** The rest of that round once the awaited [_save_tasks] has returned *)
Definition saver_round_finish (data : Persistence.pyval) (w : WriteOutcome)
    (rt : Runtime) : Runtime :=
  clear_pending (save_write data w rt).

(** One round of [_batch_save_worker] with nothing else running in
    between *)
Definition saver_round (rt : Runtime) (now : Z) (w : WriteOutcome) : Runtime :=
  if saver_due rt then saver_round_finish (save_snapshot rt now) w rt else rt.

(** [start]: load if not yet loaded, start the saver if not yet started *)
Definition service_start (rt : Runtime) (disk : dict VideoTask) : Runtime :=
  mkRuntime (ensure_loaded (service rt) disk) (_shutdown rt) true (task_file rt).

(** [shutdown]: stop the saver, save once if something is pending *)
Definition shutdown (rt : Runtime) (now : Z) (w : WriteOutcome) : Runtime :=
  let rt := mkRuntime (service rt) true (saver_started rt) (task_file rt) in
  if _save_pending (service rt) then _save_tasks rt now w else rt.

(* ================================================================== *)
(** ** The HTTP handlers (app/api/v1/videos.py) *)

(** [CreateVideoRequest] of app/models/video_schema.py *)
Module CreateVideoRequest.
Record t : Type := make {
  prompt : string;
  model : string;
  input_reference : option string;
  seconds : option string;
  size : option string;
  user : option string
}.
End CreateVideoRequest.

(** [VideoDeleteResponse] *)
Module VideoDeleteResponse.
Record t : Type := make {
  id : string;
  object : string;
  deleted : bool
}.
End VideoDeleteResponse.

(** [VideoListResponse], over the type of the validated jobs *)
Module VideoListResponse.
Record t (J : Type) : Type := make {
  object : string;
  data : list J;
  has_more : bool;
  first_id : option string;
  last_id : option string
}.
Arguments make {J} _ _ _ _ _.
Arguments object {J} _.
Arguments data {J} _.
Arguments has_more {J} _.
Arguments first_id {J} _.
Arguments last_id {J} _.
End VideoListResponse.

Module VideosAPI.

(** How a handler ends: it returns a value (answered with status 200),
    raises [HTTPException], or returns a redirect or a file response. *)
Inductive Reply (A : Type) : Type :=
| Body (a : A)
| HTTPException (status_code : Z) (detail : Persistence.pyval)
| RedirectResponse (url : string) (status_code : Z)
| FileResponse (path media_type filename : string)
    (headers : list (string * string)).
Arguments Body {A} _.
Arguments HTTPException {A} _ _.
Arguments RedirectResponse {A} _ _.
Arguments FileResponse {A} _ _ _ _.

(** [_build_error_response]; the status code it is given is not used *)
Definition _build_error_response (status_code : Z) (message error_type : string)
    : Persistence.pyval :=
  Persistence.PDict
    [("error",
      Persistence.PDict
        [("message", Persistence.PStr message);
         ("type", Persistence.PStr error_type);
         ("code", Persistence.PStr error_type)])].

(** What a handler can be called with in the place of a parameter.
    Python checks none of the annotations when one handler calls another
    directly: each of the three kinds of object can arrive anywhere. *)
Inductive HandlerArg : Type :=
| ArgRequest                                     (* a fastapi [Request] *)
| ArgCreateVideoRequest (r : CreateVideoRequest.t)
| ArgAuth (token : option string).               (* what [auth_manager.verify] gave *)

(** [request.model_dump()] and the attribute reads that follow it: only a
    [CreateVideoRequest] has them; on anything else the first of them
    raises [AttributeError], with the text Python gives it. *)
Definition as_create_request (request : HandlerArg)
    : Persistence.result CreateVideoRequest.t :=
  match request with
  | ArgCreateVideoRequest r => Persistence.Ok r
  | ArgRequest =>
      Persistence.Raise
        (Persistence.Exception "'Request' object has no attribute 'model_dump'")
  | ArgAuth (Some _) =>
      Persistence.Raise
        (Persistence.Exception "'str' object has no attribute 'model_dump'")
  | ArgAuth None =>
      Persistence.Raise
        (Persistence.Exception "'NoneType' object has no attribute 'model_dump'")
  end.

Section Handlers.

(** [VideoJob] is a pydantic model: [VideoJob_of d] stands for the
    call of the class on the keywords [d], which returns the validated
    job or raises a validation error. *)
Variable VideoJob : Type.
Variable VideoJob_of : dict Persistence.pyval -> Persistence.result VideoJob.

(** The media cache, as in [get_video_content] of the service *)
Variable get_cached : string -> option string.
Variable path_exists : string -> bool.

(** The call of [VideoJob] on the keywords [task.to_openai_response()]
    inside a handler whose [except Exception] clause answers 500 with
    [prefix] and the text of the exception *)
Definition job_reply (prefix : string) (task : VideoTask) : Reply VideoJob :=
  match VideoJob_of (to_openai_response task) with
  | Persistence.Ok job => Body job
  | Persistence.Raise (Persistence.Exception msg) =>
      HTTPException 500 (_build_error_response 500 (prefix ++ msg) "internal_error")
  end.

(** [create_video].  [raw_request] is only read for the log, inside a
    [try] of its own that keeps every exception in. *)
Definition create_video (s : Service VideoTask) (env : CreateEnv)
    (raw_request request : HandlerArg) : Service VideoTask * Reply VideoJob :=
  match as_create_request request with
  | Persistence.Raise (Persistence.Exception msg) =>
      (s, HTTPException 500
            (_build_error_response 500 ("创建视频任务失败: " ++ msg) "internal_error"))
  | Persistence.Ok r =>
      let '(s, task) :=
        create_task s env (CreateVideoRequest.prompt r) (CreateVideoRequest.model r)
          (CreateVideoRequest.input_reference r)
          (str_or (CreateVideoRequest.seconds r) "4")
          (str_or (CreateVideoRequest.size r) "720x1280")
          (CreateVideoRequest.user r) in
      (s, job_reply "创建视频任务失败: " task)
  end.

(** [create_video_generations]: [return await create_video(request, _)],
    the two arguments in the places of [raw_request] and [request] *)
Definition create_video_generations (s : Service VideoTask) (env : CreateEnv)
    (request : CreateVideoRequest.t) (auth : option string)
    : Service VideoTask * Reply VideoJob :=
  create_video s env (ArgCreateVideoRequest request) (ArgAuth auth).

(** The list comprehension of [list_videos]: the first job that fails
    validation ends it *)
Fixpoint validate_all (tasks : list VideoTask) : Persistence.result (list VideoJob) :=
  match tasks with
  | [] => Persistence.Ok []
  | t :: rest =>
      match VideoJob_of (to_openai_response t) with
      | Persistence.Raise e => Persistence.Raise e
      | Persistence.Ok job =>
          match validate_all rest with
          | Persistence.Raise e => Persistence.Raise e
          | Persistence.Ok jobs => Persistence.Ok (job :: jobs)
          end
      end
  end.

(** [list_videos] *)
Definition list_videos (s : Service VideoTask) (disk : dict VideoTask)
    (after : option string) (limit : Z) (order : string)
    : Service VideoTask * Reply (VideoListResponse.t VideoJob) :=
  let '(s, (tasks, has_more, first_id, last_id)) :=
    list_tasks s disk limit after order None in
  (s,
   match validate_all tasks with
   | Persistence.Ok data =>
       Body (VideoListResponse.make "list" data has_more first_id last_id)
   | Persistence.Raise (Persistence.Exception msg) =>
       HTTPException 500
         (_build_error_response 500 ("列出视频任务失败: " ++ msg) "internal_error")
   end).

(** [get_video] *)
Definition get_video (s : Service VideoTask) (disk : dict VideoTask)
    (video_id : string) : Service VideoTask * Reply VideoJob :=
  let '(s, task) := get_task s disk video_id in
  (s,
   match task with
   | None =>
       HTTPException 404
         (_build_error_response 404 ("视频任务不存在: " ++ video_id) "not_found")
   | Some task => job_reply "获取视频任务失败: " task
   end).

(** [delete_video] *)
Definition delete_video (s : Service VideoTask) (disk : dict VideoTask)
    (video_id : string) : Service VideoTask * Reply VideoDeleteResponse.t :=
  let '(s, task) := delete_task s disk video_id in
  (s,
   match task with
   | None =>
       HTTPException 404
         (_build_error_response 404 ("视频任务不存在: " ++ video_id) "not_found")
   | Some _ => Body (VideoDeleteResponse.make video_id "video" true)
   end).

(** [remix_video]; [new_prompt] is [request.prompt] *)
Definition remix_video (s : Service VideoTask) (env : CreateEnv)
    (video_id new_prompt : string) : Service VideoTask * Reply VideoJob :=
  let '(s, source_task) := get_task s (disk env) video_id in
  match source_task with
  | None =>
      (s, HTTPException 404
            (_build_error_response 404 ("视频任务不存在: " ++ video_id) "not_found"))
  | Some source_task =>
      if negb (status source_task =? "completed")%string then
        (s, HTTPException 400
              (_build_error_response 400 "只能混剪已完成的视频" "invalid_request_error"))
      else
        let '(s, task) := remix_task s env video_id new_prompt in
        match task with
        | None =>
            (s, HTTPException 500
                  (_build_error_response 500 "创建混剪任务失败" "internal_error"))
        | Some task => (s, job_reply "混剪视频失败: " task)
        end
  end.

(** [get_video_content] of the API; [variant] is accepted and not used *)
Definition get_video_content (s : Service VideoTask) (disk : dict VideoTask)
    (video_id variant : string) : Service VideoTask * Reply Empty_set :=
  let '(s, task) := get_task s disk video_id in
  match task with
  | None =>
      (s, HTTPException 404
            (_build_error_response 404 ("视频任务不存在: " ++ video_id) "not_found"))
  | Some task =>
      if negb (status task =? "completed")%string then
        (s, HTTPException 400
              (_build_error_response 400 "视频尚未完成生成" "invalid_request_error"))
      else
        let '(s, video_path) :=
          get_video_content get_cached path_exists s disk video_id in
        match video_path with
        | None =>
            match video_url task with
            | Some url =>
                if negb (url =? "")%string then (s, RedirectResponse url 302)
                else
                  (s, HTTPException 404
                        (_build_error_response 404 "视频内容不可用" "not_found"))
            | None =>
                (s, HTTPException 404
                      (_build_error_response 404 "视频内容不可用" "not_found"))
            end
        | Some path =>
            (s, FileResponse path "video/mp4" (video_id ++ ".mp4")
                  [("Cache-Control", "public, max-age=86400");
                   ("Access-Control-Allow-Origin", "*")])
        end
  end.

End Handlers.

End VideosAPI.

(* ================================================================== *)
(** ** Runs of the service *)

(** What the fields of one job have to do with each other, whatever
    happened to it: one of the four statuses, a progress between 0 and
    100, a video URL and progress 100 when completed, an error code when
    failed. *)
Definition job_consistent (t : VideoTask) : Prop :=
  (status t = "queued" \/ status t = "in_progress" \/
   status t = "completed" \/ status t = "failed") /\
  0 <= progress t <= 100 /\
  (status t = "completed" -> progress t = 100 /\ Str.truthy (video_url t) = true) /\
  (status t = "failed" -> Str.truthy (error_code t) = true).

(** The registries the invariants are about: well-formed, every job
    under its own id, every job consistent. *)
Definition registry_sound (d : dict VideoTask) : Prop :=
  registry_ok d /\ Forall (fun kv => job_consistent (snd kv)) d.

(** One public operation or one worker run, from state to state.  The
    mapping a first operation finds on disk is sound (it was written by
    this service).  A worker run may concern any id and come at any time;
    the service itself starts one per created job. *)
Inductive Step : Service VideoTask -> Service VideoTask -> Prop :=
| step_create s env p m r sec sz u :
    registry_sound (disk env) ->
    Step s (fst (create_task s env p m r sec sz u))
| step_worker s tid out now :
    Step s (_process_task s tid out now)
| step_get s disk tid :
    registry_sound disk ->
    Step s (fst (get_task s disk tid))
| step_list s disk limit after order by_user :
    registry_sound disk ->
    Step s (fst (list_tasks s disk limit after order by_user))
| step_delete s disk tid :
    registry_sound disk ->
    Step s (fst (delete_task s disk tid))
| step_remix s env src_id new_prompt :
    registry_sound (disk env) ->
    Step s (fst (remix_task s env src_id new_prompt)).

(** The states the service can be in *)
Inductive Reachable : Service VideoTask -> Prop :=
| reach_init : Reachable init
| reach_step s s' : Reachable s -> Step s s' -> Reachable s'.

(** The registries in which no job has second 0 as its expiry.  The one
    assignment of [expires_at] is in [create_task], the clock plus 86400
    seconds, and nothing changes the field afterwards. *)
Definition no_zero_expiry (d : dict VideoTask) : Prop :=
  Forall (fun kv => expires_at (snd kv) <> Some 0) d.

(** The states the service builds: those of [Reachable] when what a first
    operation finds on disk was written by the service, and no job is
    created at the one clock reading, 86400 seconds before 1970, whose
    expiry would be second 0. *)
Inductive Built : Service VideoTask -> Prop :=
| built_init : Built init
| built_create s env p m r sec sz u :
    Built s ->
    registry_sound (disk env) -> no_zero_expiry (disk env) ->
    time_expiry env <> - 86400 ->
    Built (fst (create_task s env p m r sec sz u))
| built_worker s tid out now :
    Built s -> Built (_process_task s tid out now)
| built_get s disk tid :
    Built s -> registry_sound disk -> no_zero_expiry disk ->
    Built (fst (get_task s disk tid))
| built_list s disk limit after order by_user :
    Built s -> registry_sound disk -> no_zero_expiry disk ->
    Built (fst (list_tasks s disk limit after order by_user))
| built_delete s disk tid :
    Built s -> registry_sound disk -> no_zero_expiry disk ->
    Built (fst (delete_task s disk tid))
| built_remix s env src_id new_prompt :
    Built s ->
    registry_sound (disk env) -> no_zero_expiry (disk env) ->
    time_expiry env <> - 86400 ->
    Built (fst (remix_task s env src_id new_prompt)).

(** A file as the service writes it: [n] queued jobs, job [i] created at
    second [start + i] and expiring 86400 seconds later *)
Definition sample_disk (start : Z) (n : nat) : dict VideoTask :=
  map (fun i =>
         (sample_key i,
          sample_job_at (string_of_list_ascii (repeat "a"%char i))
            (start + Z.of_nat i) None))
    (seq 0 n).

(* ================================================================== *)
(** * Properties *)

(** ** The dictionary *)

Section DictFacts.
Context {V : Type}.
Implicit Types (d : dict V) (k : string) (v : V).

Lemma get_In d k v : Dict.get k d = Some v -> In (k, v) d.
Proof.
  induction d as [|[k' v'] r IH]; simpl; [discriminate|].
  destruct (String.eqb_spec k' k) as [->|_].
  - intros [= ->]. now left.
  - intros H. right. now apply IH.
Qed.

Lemma get_None_keys d k : Dict.get k d = None <-> ~ In k (Dict.keys d).
Proof.
  induction d as [|[k' v'] r IH]; simpl.
  - tauto.
  - destruct (String.eqb_spec k' k) as [->|Hne].
    + split; [discriminate | intros H; exfalso; apply H; now left].
    + rewrite IH. tauto.
Qed.

Lemma In_get d k v : Dict.wf d -> In (k, v) d -> Dict.get k d = Some v.
Proof.
  unfold Dict.wf, Dict.keys.
  induction d as [|[k' v'] r IH]; simpl; [tauto|].
  intros Hnd [[= -> ->]|Hin].
  - now rewrite String.eqb_refl.
  - inversion Hnd as [|? ? Hnotin Hnd']; subst.
    destruct (String.eqb_spec k' k) as [->|_].
    + exfalso. apply Hnotin. apply (in_map fst) in Hin. exact Hin.
    + now apply IH.
Qed.

Lemma get_set d k k' v :
  Dict.get k' (Dict.set k v d) = if (k =? k')%string then Some v else Dict.get k' d.
Proof.
  induction d as [|[a b] r IH]; simpl.
  - reflexivity.
  - destruct (String.eqb_spec a k) as [->|Hak]; simpl.
    + destruct (String.eqb_spec k k'); reflexivity.
    + rewrite IH. destruct (String.eqb_spec a k') as [->|_]; [|reflexivity].
      destruct (String.eqb_spec k k'); congruence.
Qed.

Lemma keys_set d k v :
  Dict.keys (Dict.set k v d) =
  if in_dec string_dec k (Dict.keys d) then Dict.keys d else (Dict.keys d ++ [k])%list.
Proof.
  unfold Dict.keys.
  induction d as [|[a b] r IH]; simpl.
  - reflexivity.
  - destruct (String.eqb_spec a k) as [->|Hak]; simpl.
    + destruct (string_dec k k) as [e|n]; [reflexivity | congruence].
    + rewrite IH. destruct (string_dec a k) as [e|n]; [congruence|].
      destruct (in_dec string_dec k (map fst r)); reflexivity.
Qed.

Lemma wf_set d k v : Dict.wf d -> Dict.wf (Dict.set k v d).
Proof.
  unfold Dict.wf. intros H. rewrite keys_set.
  destruct (in_dec string_dec k (Dict.keys d)) as [|Hn]; [exact H|].
  apply NoDup_app; [exact H | repeat constructor; simpl; tauto |].
  intros x Hx [<-|[]]. exact (Hn Hx).
Qed.

Lemma del_filter d k :
  Dict.wf d -> Dict.del k d = filter (fun kv => negb (fst kv =? k)%string) d.
Proof.
  unfold Dict.wf, Dict.keys.
  induction d as [|[a b] r IH]; simpl; [reflexivity|].
  intros Hnd. inversion Hnd as [|? ? Hnotin Hnd']; subst.
  destruct (String.eqb_spec a k) as [->|_]; simpl.
  - symmetry. apply forallb_filter_id. apply forallb_forall.
    intros [a' b'] Hin. simpl.
    destruct (String.eqb_spec a' k) as [->|_]; [|reflexivity].
    exfalso. apply Hnotin. apply (in_map fst) in Hin. exact Hin.
  - now rewrite IH.
Qed.

Lemma wf_filter d (p : string * V -> bool) : Dict.wf d -> Dict.wf (filter p d).
Proof.
  unfold Dict.wf, Dict.keys.
  induction d as [|[a b] r IH]; simpl; [tauto|].
  intros Hnd. inversion Hnd as [|? ? Hnotin Hnd']; subst.
  destruct (p (a, b)); [|now apply IH].
  simpl. constructor; [|now apply IH].
  intros Hin. apply Hnotin. apply in_map_iff in Hin as [[a' b'] [Heq Hin]].
  apply filter_In in Hin as [Hin _]. simpl in Heq. subst.
  apply (in_map fst) in Hin. exact Hin.
Qed.

Lemma wf_del d k : Dict.wf d -> Dict.wf (Dict.del k d).
Proof. intros H. rewrite del_filter by exact H. now apply wf_filter. Qed.

Lemma get_filter d (p : string * V -> bool) k :
  Dict.wf d ->
  Dict.get k (filter p d) =
  match Dict.get k d with
  | Some v => if p (k, v) then Some v else None
  | None => None
  end.
Proof.
  unfold Dict.wf, Dict.keys.
  induction d as [|[a b] r IH]; simpl; [reflexivity|].
  intros Hnd. inversion Hnd as [|? ? Hnotin Hnd']; subst.
  destruct (String.eqb_spec a k) as [->|Hne].
  - destruct (p (k, b)) eqn:Hp; simpl.
    + now rewrite String.eqb_refl.
    + apply get_None_keys. intros Hin. apply Hnotin.
      apply in_map_iff in Hin as [[a' b'] [Heq Hin]].
      apply filter_In in Hin as [Hin _]. simpl in Heq. subst.
      apply (in_map fst) in Hin. exact Hin.
  - destruct (p (a, b)); simpl.
    + destruct (String.eqb_spec a k); [congruence | now apply IH].
    + now apply IH.
Qed.

Lemma get_del d k k' :
  Dict.wf d ->
  Dict.get k' (Dict.del k d) = if (k =? k')%string then None else Dict.get k' d.
Proof.
  intros H. rewrite del_filter, get_filter by exact H. simpl.
  rewrite String.eqb_sym.
  destruct (String.eqb_spec k k') as [->|Hne]; simpl.
  - now destruct (Dict.get k' d).
  - now destruct (Dict.get k' d).
Qed.

End DictFacts.

(** ** Cleanup of expired tasks *)

Lemma fold_del_head_kept {V : Type} (ks : list string) (d : dict V) k v :
  ~ In k ks ->
  fold_left (fun acc x => Dict.del x acc) ks ((k, v) :: d)
  = (k, v) :: fold_left (fun acc x => Dict.del x acc) ks d.
Proof.
  revert d. induction ks as [|a ks IH]; intros d Hn; simpl.
  - reflexivity.
  - destruct (String.eqb_spec k a) as [->|Hne].
    + exfalso. apply Hn. now left.
    + apply IH. intros Hin. apply Hn. now right.
Qed.

Lemma expired_ids_incl now (d : dict VideoTask) :
  incl (expired_ids now d) (Dict.keys d).
Proof.
  unfold expired_ids, Dict.keys. intros k Hin.
  apply in_map_iff in Hin as [kv [<- Hin]].
  apply filter_In in Hin as [Hin _]. now apply in_map.
Qed.

(** The ids collected by the first loop are distinct keys of the mapping,
    so every [del] of the second loop finds its key. *)
Lemma expired_ids_NoDup now (d : dict VideoTask) :
  Dict.wf d -> NoDup (expired_ids now d).
Proof. intros H. exact (wf_filter d _ H). Qed.

Lemma cleanup_is_filter now (d : dict VideoTask) :
  Dict.wf d ->
  _cleanup_old_tasks now d = filter (fun kv => negb (is_expired now (snd kv))) d.
Proof.
  unfold _cleanup_old_tasks, expired_ids, Dict.wf, Dict.keys.
  induction d as [|[k t] r IH]; simpl; [reflexivity|].
  intros Hnd. inversion Hnd as [|? ? Hnotin Hnd']; subst.
  destruct (is_expired now t) eqn:He; simpl.
  - rewrite String.eqb_refl. now apply IH.
  - rewrite fold_del_head_kept.
    + f_equal. now apply IH.
    + intros Hin. apply Hnotin. exact (expired_ids_incl now r k Hin).
Qed.

Lemma is_expired_iff now t :
  is_expired now t = true <->
  exists e, expires_at t = Some e /\ e <> 0 /\ e < now.
Proof.
  unfold is_expired. destruct (expires_at t) as [e|].
  - rewrite andb_true_iff, negb_true_iff, Z.eqb_neq, Z.ltb_lt.
    split.
    + intros [H1 H2]. exists e. auto.
    + intros [e' [[= <-] H]]. exact H.
  - split; [discriminate | intros [e [[=] _]]].
Qed.

Lemma wf_cleanup now (d : dict VideoTask) :
  Dict.wf d -> Dict.wf (_cleanup_old_tasks now d).
Proof. intros H. rewrite cleanup_is_filter by exact H. now apply wf_filter. Qed.

Lemma wf_insert_and_evict now t (d : dict VideoTask) :
  Dict.wf d -> Dict.wf (insert_and_evict now t d).
Proof.
  intros H. unfold insert_and_evict.
  destruct (_max_tasks <? _); [apply wf_cleanup|]; now apply wf_set.
Qed.

(** The scenario of the specification: the registry holds 1000 jobs, the
    first of which expired at second 3; job 1001 is created at second 5
    and the first job is gone. *)
Example overflow_evicts_expired_job :
  let s := sample_registry (Some 3) 1000 in
  let s' := fst (create_task s (sample_env "new" 5) "p" "sora-2" None "4" "720x1280" None) in
  Dict.get (sample_key 0) (_tasks s) = Some (sample_task (Some 3) 0) /\
  Dict.get (sample_key 0) (_tasks s') = None /\
  List.length (_tasks s') = 1000%nat.
Proof. vm_compute. repeat split. Qed.

(** Below the capacity nothing is evicted, however old. *)
Example no_overflow_no_eviction :
  let s := sample_registry (Some 3) 999 in
  let s' := fst (create_task s (sample_env "new" 5) "p" "sora-2" None "4" "720x1280" None) in
  Dict.get (sample_key 0) (_tasks s') = Some (sample_task (Some 3) 0) /\
  List.length (_tasks s') = 1000%nat.
Proof. vm_compute. repeat split. Qed.

(** What the cleanup does to each entry: it removes the entries whose
    [expires_at] is set, is not 0 and is earlier than [now], keeps every
    other entry as it is, and adds nothing.  [create_task] runs it exactly
    when the mapping has more than 1000 entries after the insertion. *)
Lemma cleanup_lookup :
  forall (d : dict VideoTask) (now : Z),
    Dict.wf d ->
    (forall k t, Dict.get k d = Some t ->
       (exists e, expires_at t = Some e /\ e <> 0 /\ e < now) ->
       Dict.get k (_cleanup_old_tasks now d) = None) /\
    (forall k t, Dict.get k d = Some t ->
       ~ (exists e, expires_at t = Some e /\ e <> 0 /\ e < now) ->
       Dict.get k (_cleanup_old_tasks now d) = Some t) /\
    (forall k t e, Dict.get k d = Some t -> expires_at t = Some e -> now < e ->
       Dict.get k (_cleanup_old_tasks now d) = Some t) /\
    (forall k, Dict.get k d = None ->
       Dict.get k (_cleanup_old_tasks now d) = None) /\
    (forall s env p m r sec sz u,
       _tasks (ensure_loaded s (disk env)) = d -> time_cleanup env = now ->
       let created := create_task s env p m r sec sz u in
       let d1 := Dict.set (id (snd created)) (snd created) d in
       _tasks (fst created)
       = if 1000 <? Z.of_nat (List.length d1)
         then _cleanup_old_tasks now d1 else d1).
Proof.
  intros d now Hwf.
  assert (Hget : forall k,
    Dict.get k (_cleanup_old_tasks now d) =
    match Dict.get k d with
    | Some t => if is_expired now t then None else Some t
    | None => None
    end).
  { intros k. rewrite cleanup_is_filter, get_filter by exact Hwf. simpl.
    destruct (Dict.get k d) as [t|]; [|reflexivity].
    now destruct (is_expired now t). }
  repeat split.
  - intros k t Hk He. rewrite Hget, Hk.
    apply is_expired_iff in He. now rewrite He.
  - intros k t Hk He. rewrite Hget, Hk.
    destruct (is_expired now t) eqn:Hx; [|reflexivity].
    apply is_expired_iff in Hx. contradiction.
  - intros k t e Hk He Hlt. rewrite Hget, Hk.
    destruct (is_expired now t) eqn:Hx; [|reflexivity].
    apply is_expired_iff in Hx as [e' [He' [_ Hlt']]]. rewrite He in He'.
    injection He' as <-. lia.
  - intros k Hk. now rewrite Hget, Hk.
  - intros s env p m r sec sz u Hd Hnow. subst d now. reflexivity.
Qed.

(** ** The video pattern *)

Lemma span_not_group c s :
  let '(run, n, _) := VideoPattern.span_not c s in n = String.length run.
Proof.
  induction s as [|a r IH]; simpl; [reflexivity|].
  destruct (Ascii.eqb a c); [reflexivity|].
  destruct (VideoPattern.span_not c r) as [[run n] rest]. simpl. now f_equal.
Qed.

Lemma match_src_group_nonempty s g n :
  VideoPattern.match_src s = Some (g, n) -> g <> "".
Proof.
  unfold VideoPattern.match_src.
  destruct (Str.startswith _ s); [|discriminate].
  pose proof (span_not_group VideoPattern.dquote (VideoPattern.drop 5 s)) as Hlen.
  destruct (VideoPattern.span_not _ _) as [[run k] rest].
  destruct k as [|k]; [discriminate|].
  destruct rest; [discriminate|].
  intros [= <- _] ->. discriminate.
Qed.

Lemma match_class_group_nonempty s : forall used best g n,
  (forall g' n', best = Some (g', n') -> g' <> "") ->
  VideoPattern.match_class s used best = Some (g, n) -> g <> "".
Proof.
  induction s as [|c r IH]; intros used best g n Hbest; simpl.
  - apply Hbest.
  - set (best' := match VideoPattern.match_src (String c r) with
                  | Some (g0, n0) => Some (g0, (used + n0)%nat)
                  | None => best
                  end).
    assert (Hb' : forall g' n', best' = Some (g', n') -> g' <> "").
    { subst best'. intros g' n'.
      destruct (VideoPattern.match_src (String c r)) as [[g0 n0]|] eqn:Hs.
      - intros [= <- _]. exact (match_src_group_nonempty _ _ _ Hs).
      - apply Hbest. }
    destruct (Ascii.eqb c ">").
    + intros H. exact (Hb' _ _ H).
    + apply IH. exact Hb'.
Qed.

Lemma match_here_group_nonempty s g n :
  VideoPattern.match_here s = Some (g, n) -> g <> "".
Proof.
  unfold VideoPattern.match_here.
  destruct (Str.startswith "<video" s); [|discriminate].
  destruct (VideoPattern.drop 6 s) as [|c r]; [discriminate|].
  destruct (Ascii.eqb c ">"); [discriminate|].
  apply match_class_group_nonempty. discriminate.
Qed.

(** Every group [re.findall] returns for this pattern is non-empty. *)
Lemma findall_groups_nonempty content g :
  In g (VideoPattern.findall content) -> g <> "".
Proof.
  unfold VideoPattern.findall. generalize O as skip.
  induction content as [|c r IH]; intros skip; simpl; [tauto|].
  destruct skip as [|k]; [|apply IH].
  destruct (VideoPattern.match_here (String c r)) as [[g0 n0]|] eqn:Hm.
  - intros [<-|Hin].
    + exact (match_here_group_nonempty _ _ _ Hm).
    + exact (IH _ Hin).
  - apply IH.
Qed.

(** The two sources of the URL, in their order of precedence. *)
Lemma extract_video_url_order content media_urls :
  extract_video_url content media_urls =
  match VideoPattern.findall content with
  | g :: _ => Some g
  | [] => find has_video_ext media_urls
  end.
Proof.
  unfold extract_video_url.
  pose proof (findall_groups_nonempty content) as Hne.
  destruct (VideoPattern.findall content) as [|g rest].
  - destruct media_urls as [|u r]; [reflexivity|].
    cbn [Str.truthy negb andb List.length Nat.eqb].
    now destruct (find has_video_ext (u :: r)).
  - specialize (Hne g (or_introl eq_refl)).
    simpl. apply String.eqb_neq in Hne. now rewrite Hne.
Qed.

Lemma has_video_ext_nonempty url : has_video_ext url = true -> url <> "".
Proof. intros H ->. discriminate. Qed.

(** Whatever is extracted is a non-empty string. *)
Lemma extract_video_url_truthy content media_urls :
  Str.truthy (extract_video_url content media_urls)
  = match extract_video_url content media_urls with
    | Some _ => true
    | None => false
    end.
Proof.
  rewrite extract_video_url_order.
  pose proof (findall_groups_nonempty content) as Hne.
  destruct (VideoPattern.findall content) as [|g rest].
  - destruct (find has_video_ext media_urls) as [u|] eqn:Hf; [|reflexivity].
    apply find_some in Hf as [_ Hu]. apply has_video_ext_nonempty in Hu.
    simpl. apply String.eqb_neq in Hu. now rewrite Hu.
  - specialize (Hne g (or_introl eq_refl)).
    simpl. apply String.eqb_neq in Hne. now rewrite Hne.
Qed.

(** ** The worker on one task *)

Lemma worker_finish_returned content media_urls now t :
  worker_finish (Returned content media_urls) now t =
  match extract_video_url content media_urls with
  | Some u =>
      let t1 :=
        set_video_url (Some u)
          (set_completed_at (Some now)
             (set_progress 100 (set_status Status.COMPLETED (set_progress 80 t)))) in
      if Str.contains "/images/" u
      then set_video_path (Some (Str.split_last "/images/" u)) t1
      else t1
  | None =>
      fail_with "no_video_generated"
        "视频生成失败，未获取到视频URL" (set_progress 80 t)
  end.
Proof.
  unfold worker_finish. rewrite extract_video_url_truthy.
  destruct (extract_video_url content media_urls); reflexivity.
Qed.

(** What the worker leaves untouched *)
Lemma run_worker_frame out now t :
  let t' := run_worker out now t in
  id t' = id t /\ created_at t' = created_at t /\ expires_at t' = expires_at t /\
  model t' = model t /\ prompt t' = prompt t /\ size t' = size t /\
  seconds t' = seconds t /\ user t' = user t /\
  input_reference t' = input_reference t /\
  remixed_from_video_id t' = remixed_from_video_id t.
Proof.
  unfold run_worker. destruct out as [msg|msg|content media_urls].
  - repeat split.
  - repeat split.
  - rewrite worker_finish_returned.
    destruct (extract_video_url content media_urls) as [u|]; simpl.
    + destruct (Str.contains "/images/" u); repeat split.
    + repeat split.
Qed.

Lemma process_task_lookup s tid out now k :
  Dict.get k (_tasks (_process_task s tid out now)) =
  if (tid =? k)%string
  then option_map (run_worker out now) (Dict.get k (_tasks s))
  else Dict.get k (_tasks s).
Proof.
  unfold _process_task.
  destruct (Dict.get tid (_tasks s)) as [t|] eqn:Hg; simpl.
  - rewrite get_set.
    destruct (String.eqb_spec tid k) as [<-|_]; [now rewrite Hg | reflexivity].
  - destruct (String.eqb_spec tid k) as [<-|_]; [now rewrite Hg | reflexivity].
Qed.

Lemma create_task_lookup s env p m r sec sz u :
  Dict.wf (_tasks (ensure_loaded s (disk env))) ->
  let created := create_task s env p m r sec sz u in
  Dict.get (id (snd created)) (_tasks (fst created)) = Some (snd created) \/
  Dict.get (id (snd created)) (_tasks (fst created)) = None.
Proof.
  intros Hwf. simpl. unfold insert_and_evict.
  set (t := new_VideoTask _ _ _ _ _ _ _ _ _).
  destruct (_max_tasks <? _).
  - rewrite cleanup_is_filter, get_filter by (now apply wf_set).
    rewrite get_set, String.eqb_refl. simpl.
    destruct (is_expired (time_cleanup env) t); auto.
  - left. now rewrite get_set, String.eqb_refl.
Qed.

(** C5: when the worker of a created job (stamped by remix or not) has
    finished, the job is completed or failed; completed comes with
    progress 100, a video URL and no error fields; failed comes with one
    of the two error codes, a message, and no video URL; so the error
    fields are set exactly when the job failed. *)
Theorem worker_terminal_fields :
  forall s env p m r sec sz u (remix_source : option string) out now,
    let created := snd (create_task s env p m r sec sz u) in
    let started :=
      match remix_source with
      | Some src => set_remixed_from_video_id (Some src) created
      | None => created
      end in
    let t := run_worker out now started in
    (status t = "completed" \/ status t = "failed") /\
    (status t = "completed" ->
       progress t = 100 /\ (exists url, video_url t = Some url /\ url <> "") /\
       completed_at t = Some now /\
       error_code t = None /\ error_message t = None) /\
    (status t = "failed" ->
       (error_code t = Some "no_video_generated" \/
        error_code t = Some "generation_error") /\
       error_message t <> None /\ video_url t = None /\ progress t <> 100) /\
    (error_code t <> None <-> status t = "failed") /\
    (error_message t <> None <-> status t = "failed").
Proof.
  intros s env p m r sec sz u remix_source out now created started t.
  subst t. unfold run_worker.
  destruct out as [msg|msg|content media_urls].
  1, 2: subst started created; destruct remix_source; simpl;
    (repeat split; intros; auto; try discriminate; try congruence).
  rewrite worker_finish_returned.
  pose proof (extract_video_url_truthy content media_urls) as Htruthy.
  destruct (extract_video_url content media_urls) as [url|].
  - assert (Hurl : url <> "").
    { simpl in Htruthy. apply negb_true_iff, String.eqb_neq in Htruthy. exact Htruthy. }
    subst started created.
    destruct remix_source; destruct (Str.contains "/images/" url); simpl;
      (repeat split; intros; auto; try discriminate; try congruence;
       try (now exists url)).
  - subst started created; destruct remix_source; simpl;
      (repeat split; intros; auto; try discriminate; try congruence).
Qed.

(** C6, as stated, fails: [create_task] reads the clock once for
    [expires_at] and the record's default factory reads it again for
    [created_at]; when the second falls between the two reads,
    [expires_at] is one short of [created_at + 86400]. *)
Lemma expiry_from_earlier_clock_read :
  created_at
    (snd (create_task init (mkCreateEnv [] "0123456789ab" 100 101 101)
            "a dog running" "sora-2" None "4" "720x1280" None)) = 101 /\
  expires_at
    (snd (create_task init (mkCreateEnv [] "0123456789ab" 100 101 101)
            "a dog running" "sora-2" None "4" "720x1280" None)) = Some 86500 /\
  101 + 86400 = 86501 /\ 86500 <> 86501.
Proof. vm_compute. repeat split; discriminate. Qed.

(** C6 (amended): the [expires_at] of a created job (also one created
    through remix) is the clock value [create_task] read on its own plus
    86400 seconds; [created_at] is the clock value read when the record is
    built, so the two differ by exactly 86400 whenever both reads return
    the same second.  No later step on the record (the worker's progress
    updates, completion, failure, the remix stamp) changes [expires_at],
    and the worker changes no other job's record. *)
Theorem expires_at_fixed_at_creation :
  forall s env p m r sec sz u,
    let t := snd (create_task s env p m r sec sz u) in
    expires_at t = Some (time_expiry env + 86400) /\
    created_at t = time_created env /\
    (time_created env = time_expiry env ->
       expires_at t = Some (created_at t + 86400)) /\
    (forall src_id new_prompt src,
       Dict.get src_id (_tasks (ensure_loaded s (disk env))) = Some src ->
       status src = "completed" ->
       option_map expires_at (snd (remix_task s env src_id new_prompt))
       = Some (Some (time_expiry env + 86400))) /\
    (forall (job : VideoTask) out now src_id,
       expires_at (worker_begin job) = expires_at job /\
       expires_at (worker_finish out now job) = expires_at job /\
       expires_at (run_worker out now job) = expires_at job /\
       expires_at (set_remixed_from_video_id (Some src_id) job) = expires_at job) /\
    (forall (srv : Service VideoTask) tid out now k,
       option_map expires_at (Dict.get k (_tasks (_process_task srv tid out now)))
       = option_map expires_at (Dict.get k (_tasks srv))).
Proof.
  intros s env p m r sec sz u t. subst t. simpl.
  repeat split.
  - intros ->. reflexivity.
  - intros src_id new_prompt src Hsrc Hst. unfold remix_task, get_task.
    rewrite Hsrc, Hst. reflexivity.
  - intros. destruct out as [msg|msg|content media_urls]; try reflexivity.
    rewrite worker_finish_returned.
    destruct (extract_video_url content media_urls) as [url|]; [|reflexivity].
    simpl. now destruct (Str.contains "/images/" url).
  - apply (run_worker_frame out now job).
  - intros srv tid out now k. rewrite process_task_lookup.
    destruct (String.eqb_spec tid k) as [_|_]; [|reflexivity].
    destruct (Dict.get k (_tasks srv)) as [job|]; [|reflexivity].
    simpl. f_equal. apply (run_worker_frame out now job).
Qed.

(** ** Extraction of the video URL *)

Example extract_from_video_tag :
  extract_video_url (sample_video_tag "https://h/users/u/generated/v.mp4")
    ["https://h/other.mp4"]
  = Some "https://h/users/u/generated/v.mp4".
Proof. vm_compute. reflexivity. Qed.

Example extract_from_media_list :
  extract_video_url "no tag here" ["https://h/a.png"; "https://h/B.WEBM?sig=1"; "https://h/c.mp4"]
  = Some "https://h/B.WEBM?sig=1".
Proof. vm_compute. reflexivity. Qed.

Example extract_nothing :
  extract_video_url "no tag here" ["https://h/a.png"] = None /\
  status (run_worker (Returned "no tag here" ["https://h/a.png"]) 1700000100 sample_job)
    = "failed" /\
  error_code (run_worker (Returned "no tag here" ["https://h/a.png"]) 1700000100 sample_job)
    = Some "no_video_generated".
Proof. vm_compute. repeat split. Qed.

(** C7, as stated, fails in its second step: the worker takes the first
    media URL that contains one of the three extensions anywhere, here a
    PNG whose name carries [.mp4] in the middle, and not the first URL
    whose extension is one of them. *)
Lemma media_url_taken_by_substring :
  VideoPattern.findall "no tag here" = [] /\
  spec_has_video_extension "https://cdn.example/clip.mp4.png" = false /\
  spec_extract_video_url "no tag here"
    ["https://cdn.example/clip.mp4.png"; "https://cdn.example/clip.mp4"]
    = Some "https://cdn.example/clip.mp4" /\
  extract_video_url "no tag here"
    ["https://cdn.example/clip.mp4.png"; "https://cdn.example/clip.mp4"]
    = Some "https://cdn.example/clip.mp4.png" /\
  video_url
    (run_worker
       (Returned "no tag here"
          ["https://cdn.example/clip.mp4.png"; "https://cdn.example/clip.mp4"])
       1700000100 sample_job)
    = Some "https://cdn.example/clip.mp4.png".
Proof. vm_compute. repeat split. Qed.

(** C7 (amended): the URL is the first group the video-tag pattern
    matches in the response body; if the pattern matches nowhere, it is
    the first URL of the media list whose lower-cased text contains
    [.mp4], [.webm] or [.mov] anywhere; if neither gives a URL, the job is
    marked failed with [no_video_generated], and otherwise it is completed
    with that URL. *)
Theorem video_url_extraction_order :
  forall content media_urls,
    (forall g rest, VideoPattern.findall content = g :: rest ->
       extract_video_url content media_urls = Some g) /\
    (VideoPattern.findall content = [] ->
       extract_video_url content media_urls = find has_video_ext media_urls) /\
    (forall url, has_video_ext url = true <->
       Str.contains ".mp4" (Str.lower url) = true \/
       Str.contains ".webm" (Str.lower url) = true \/
       Str.contains ".mov" (Str.lower url) = true) /\
    (forall url,
       find has_video_ext media_urls = Some url <->
       exists before after,
         media_urls = (before ++ url :: after)%list /\
         has_video_ext url = true /\
         Forall (fun x => has_video_ext x = false) before) /\
    (forall now t,
       match extract_video_url content media_urls with
       | Some url =>
           status (run_worker (Returned content media_urls) now t) = "completed" /\
           video_url (run_worker (Returned content media_urls) now t) = Some url
       | None =>
           status (run_worker (Returned content media_urls) now t) = "failed" /\
           error_code (run_worker (Returned content media_urls) now t)
             = Some "no_video_generated"
       end).
Proof.
  intros content media_urls.
  split; [|split; [|split; [|split; [intros url; split|]]]].
  - intros g rest Hf. now rewrite extract_video_url_order, Hf.
  - intros Hf. now rewrite extract_video_url_order, Hf.
  - intros url. unfold has_video_ext. simpl.
    rewrite orb_false_r, !orb_true_iff. tauto.
  - induction media_urls as [|x l IH]; simpl; [discriminate|].
    destruct (has_video_ext x) eqn:Hx.
    + intros [= ->]. exists [], l. auto.
    + intros Hf. destruct (IH Hf) as [before [after [-> [Hu Hall]]]].
      exists (x :: before), after. auto.
  - intros [before [after [-> [Hu Hall]]]].
    induction Hall as [|x l Hx Hall IH]; simpl.
    + now rewrite Hu.
    + now rewrite Hx.
  - intros now t. unfold run_worker. rewrite worker_finish_returned.
    destruct (extract_video_url content media_urls) as [url|]; simpl.
    + now destruct (Str.contains "/images/" url).
    + split; reflexivity.
Qed.

(** ** Content lookup *)

Lemma ensure_loaded_loaded s d : _loaded (ensure_loaded s d) = true.
Proof. unfold ensure_loaded. destruct (_loaded s) eqn:H; [exact H | reflexivity]. Qed.

Lemma ensure_loaded_idem s d d' :
  ensure_loaded (ensure_loaded s d) d' = ensure_loaded s d.
Proof.
  unfold ensure_loaded at 1. now rewrite ensure_loaded_loaded.
Qed.

Lemma ensure_loaded_when_loaded s d : _loaded s = true -> ensure_loaded s d = s.
Proof. unfold ensure_loaded. now intros ->. Qed.

Lemma create_task_loaded s env p m r sec sz u :
  _loaded (fst (create_task s env p m r sec sz u)) = true.
Proof. simpl. apply ensure_loaded_loaded. Qed.

Lemma process_task_loaded s tid out now :
  _loaded (_process_task s tid out now) = _loaded s.
Proof. unfold _process_task. now destruct (Dict.get tid (_tasks s)). Qed.

(** A job the worker completes with a URL outside [/images/] has no
    [video_path], provided it had none when the worker started. *)
Lemma worker_leaves_video_path_unset out now t url :
  video_path t = None ->
  status (run_worker out now t) = "completed" ->
  video_url (run_worker out now t) = Some url ->
  Str.contains "/images/" url = false ->
  video_path (run_worker out now t) = None.
Proof.
  intros Hp. unfold run_worker.
  destruct out as [msg|msg|content media_urls]; try discriminate.
  rewrite worker_finish_returned.
  destruct (extract_video_url content media_urls) as [found|]; [|discriminate].
  simpl. destruct (Str.contains "/images/" found) eqn:Hc; simpl.
  - intros _ [= ->]. congruence.
  - intros _ _ _. exact Hp.
Qed.

Section ContentFacts.
Variable get_cached : string -> option string.
Variable path_exists : string -> bool.

Lemma get_video_content_result s disk tid :
  snd (get_video_content get_cached path_exists s disk tid) =
  match Dict.get tid (_tasks (ensure_loaded s disk)) with
  | None => None
  | Some job =>
      if (status job =? "completed")%string then
        match video_path job with
        | Some p =>
            if (p =? "")%string then None
            else
              match get_cached ("/" ++ Str.replace_char "-" "/" p) with
              | Some cache_path =>
                  if path_exists cache_path then Some cache_path else None
              | None => None
              end
        | None => None
        end
      else None
  end.
Proof.
  unfold get_video_content, get_task. simpl.
  destruct (Dict.get tid (_tasks (ensure_loaded s disk))) as [job|]; [|reflexivity].
  unfold Status.COMPLETED.
  destruct (status job =? "completed")%string; simpl; [|reflexivity].
  destruct (video_path job) as [p|]; simpl; [|reflexivity].
  now destruct (p =? "")%string.
Qed.

End ContentFacts.

(** With a cache that holds every file: the job whose URL lies under
    [/images/] is served from the cache, the other one is not. *)
Example content_path_depends_on_images_prefix :
  let cache_all := fun p : string => Some p in
  let present := fun _ : string => true in
  let s1 := fst (create_task (sample_registry None 0) (sample_env "0123456789ab" 1700000000)
                   "a dog running" "sora-2" None "4" "720x1280" None) in
  let served :=
    _process_task s1 "video_0123456789ab"
      (Returned (sample_video_tag "https://h/images/users-u-generated-v.mp4") [])
      1700000100 in
  let remote :=
    _process_task s1 "video_0123456789ab"
      (Returned (sample_video_tag "https://h/users/u/generated/v.mp4") [])
      1700000100 in
  option_map status (Dict.get "video_0123456789ab" (_tasks served)) = Some "completed" /\
  option_map status (Dict.get "video_0123456789ab" (_tasks remote)) = Some "completed" /\
  snd (get_video_content cache_all present served [] "video_0123456789ab")
    = Some "/users/u/generated/v.mp4" /\
  snd (get_video_content cache_all present remote [] "video_0123456789ab") = None /\
  snd (get_video_content cache_all present s1 [] "video_0123456789ab") = None.
Proof. vm_compute. repeat split. Qed.

(** C10: a created job that the worker completes with a [video_url]
    not containing [/images/] has no [video_path], and
    [get_video_content] returns nothing for it although it is completed;
    [get_video_content] also returns nothing for a job that is not
    completed (and for an unknown id), whatever the cache holds. *)
Theorem content_unavailable_outside_images :
  forall (get_cached : string -> option string) (path_exists : string -> bool),
    (forall s env p m r sec sz u (remix_source : option string) out now url,
       let created := snd (create_task s env p m r sec sz u) in
       let started :=
         match remix_source with
         | Some src => set_remixed_from_video_id (Some src) created
         | None => created
         end in
       let t := run_worker out now started in
       status t = "completed" -> video_url t = Some url ->
       Str.contains "/images/" url = false ->
       video_path t = None) /\
    (forall s env p m r sec sz u out now disk' url job,
       Dict.wf (_tasks (ensure_loaded s (disk env))) ->
       let created := create_task s env p m r sec sz u in
       let srv := _process_task (fst created) (id (snd created)) out now in
       Dict.get (id (snd created)) (_tasks srv) = Some job ->
       status job = "completed" -> video_url job = Some url ->
       Str.contains "/images/" url = false ->
       video_path job = None /\
       snd (get_video_content get_cached path_exists srv disk' (id (snd created)))
         = None) /\
    (forall srv disk tid job,
       Dict.get tid (_tasks (ensure_loaded srv disk)) = Some job ->
       status job = "completed" -> video_path job = None ->
       snd (get_video_content get_cached path_exists srv disk tid) = None) /\
    (forall srv disk tid job,
       Dict.get tid (_tasks (ensure_loaded srv disk)) = Some job ->
       status job <> "completed" ->
       snd (get_video_content get_cached path_exists srv disk tid) = None) /\
    (forall srv disk tid,
       Dict.get tid (_tasks (ensure_loaded srv disk)) = None ->
       snd (get_video_content get_cached path_exists srv disk tid) = None).
Proof.
  intros get_cached path_exists.
  assert (Hrecord : forall srv disk tid job,
       Dict.get tid (_tasks (ensure_loaded srv disk)) = Some job ->
       status job = "completed" -> video_path job = None ->
       snd (get_video_content get_cached path_exists srv disk tid) = None).
  { intros srv disk tid job Hg Hs Hp.
    rewrite get_video_content_result, Hg, Hs, Hp. reflexivity. }
  split; [|split; [|split; [exact Hrecord|split]]].
  - intros s env p m r sec sz u remix_source out now url created started t.
    apply worker_leaves_video_path_unset.
    subst started created. now destruct remix_source.
  - intros s env p m r sec sz u out now disk' url job Hwf created srv Hg Hs Hu Hc.
    assert (Hjob : job = run_worker out now (snd created)).
    { subst srv. rewrite process_task_lookup, String.eqb_refl in Hg.
      destruct (create_task_lookup s env p m r sec sz u Hwf) as [Hin|Hout];
        fold created in Hin || fold created in Hout.
      - rewrite Hin in Hg. cbn [option_map] in Hg. now injection Hg as <-.
      - rewrite Hout in Hg. discriminate. }
    assert (Hpath : video_path job = None).
    { subst job. now apply (worker_leaves_video_path_unset out now _ url). }
    split; [exact Hpath|].
    apply (Hrecord srv disk' _ job); auto.
    rewrite ensure_loaded_when_loaded; [exact Hg|].
    subst srv. rewrite process_task_loaded. apply create_task_loaded.
  - intros srv disk tid job Hg Hs.
    rewrite get_video_content_result, Hg.
    apply String.eqb_neq in Hs. now rewrite Hs.
  - intros srv disk tid Hg. now rewrite get_video_content_result, Hg.
Qed.

Lemma content_unavailable_outside_images_witness :
  Dict.wf (_tasks (ensure_loaded (sample_registry None 0)
                     (disk (sample_env "0123456789ab" 1700000000)))) /\
  status (sample_completed_job "https://h/users/u/generated/v.mp4") = "completed" /\
  Str.contains "/images/" "https://h/users/u/generated/v.mp4" = false /\
  snd (get_video_content (fun p => Some p) (fun _ => true)
         (sample_completed_registry "https://h/users/u/generated/v.mp4") []
         "video_0123456789ab") = None.
Proof.
  assert (Hwf : Dict.wf (_tasks (ensure_loaded (sample_registry None 0)
                                   (disk (sample_env "0123456789ab" 1700000000)))))
    by constructor.
  assert (Hst : status (sample_completed_job "https://h/users/u/generated/v.mp4")
                = "completed") by (vm_compute; reflexivity).
  assert (Hc : Str.contains "/images/" "https://h/users/u/generated/v.mp4" = false)
    by (vm_compute; reflexivity).
  destruct (content_unavailable_outside_images (fun p => Some p) (fun _ => true))
    as [_ [Hservice _]].
  destruct (Hservice (sample_registry None 0) (sample_env "0123456789ab" 1700000000)
              "a dog running" "sora-2" None "4" "720x1280" None
              (Returned (sample_video_tag "https://h/users/u/generated/v.mp4") [])
              1700000100 [] "https://h/users/u/generated/v.mp4"
              (sample_completed_job "https://h/users/u/generated/v.mp4") Hwf)
    as [_ Hnone].
  - vm_compute. reflexivity.
  - exact Hst.
  - vm_compute. reflexivity.
  - exact Hc.
  - split; [exact Hwf|]. split; [exact Hst|]. split; [exact Hc | exact Hnone].
Defined.

(** ** Sorting and paging *)

Section SortFacts.
Context {A : Type} (key : A -> Z).

Lemma le_key_in_order reverse a b :
  le_key key reverse a b = true <-> in_order key reverse a b.
Proof. unfold le_key, in_order. destruct reverse; apply Z.leb_le. Qed.

Lemma le_key_total reverse a b :
  le_key key reverse a b = false -> in_order key reverse b a.
Proof.
  unfold le_key, in_order. destruct reverse; rewrite Z.leb_gt; lia.
Qed.

Lemma in_order_trans reverse a b c :
  in_order key reverse a b -> in_order key reverse b c -> in_order key reverse a c.
Proof. unfold in_order. destruct reverse; lia. Qed.

Lemma insert_sorted_perm reverse x l :
  Permutation (insert_sorted key reverse x l) (x :: l).
Proof.
  induction l as [|y r IH]; simpl; [apply Permutation_refl|].
  destruct (le_key key reverse x y); [apply Permutation_refl|].
  eapply Permutation_trans; [apply perm_skip, IH | apply perm_swap].
Qed.

Lemma sort_by_perm reverse l : Permutation (sort_by key reverse l) l.
Proof.
  induction l as [|x r IH]; simpl; [constructor|].
  eapply Permutation_trans; [apply insert_sorted_perm | now apply perm_skip].
Qed.

Lemma insert_sorted_sorted reverse x l :
  StronglySorted (in_order key reverse) l ->
  StronglySorted (in_order key reverse) (insert_sorted key reverse x l).
Proof.
  induction 1 as [|y r Hs IH Hall]; simpl.
  - repeat constructor.
  - destruct (le_key key reverse x y) eqn:Hle.
    + apply le_key_in_order in Hle.
      constructor; [now constructor|].
      constructor; [exact Hle|].
      eapply Forall_impl; [|exact Hall].
      intros z Hz. now apply in_order_trans with y.
    + apply le_key_total in Hle.
      constructor; [exact IH|].
      eapply Permutation_Forall; [apply Permutation_sym, insert_sorted_perm|].
      now constructor.
Qed.

Lemma sort_by_sorted reverse l :
  StronglySorted (in_order key reverse) (sort_by key reverse l).
Proof.
  induction l as [|x r IH]; simpl; [constructor | now apply insert_sorted_sorted].
Qed.

(** Stability: [x] passes only elements whose key differs from its own,
    so among equal keys the input order stays. *)
Lemma insert_sorted_stable reverse x l c :
  filter (fun a => key a =? c) (insert_sorted key reverse x l)
  = filter (fun a => key a =? c) (x :: l).
Proof.
  induction l as [|y r IH]; simpl; [reflexivity|].
  destruct (le_key key reverse x y) eqn:Hle; [reflexivity|].
  simpl. rewrite IH. simpl.
  assert (Hne : key x <> key y).
  { unfold le_key in Hle. destruct reverse; apply Z.leb_gt in Hle; lia. }
  destruct (Z.eqb_spec (key x) c), (Z.eqb_spec (key y) c); congruence.
Qed.

Lemma sort_by_stable reverse l c :
  filter (fun a => key a =? c) (sort_by key reverse l)
  = filter (fun a => key a =? c) l.
Proof.
  induction l as [|x r IH]; simpl; [reflexivity|].
  rewrite insert_sorted_stable. simpl. now rewrite IH.
Qed.

End SortFacts.

Lemma StronglySorted_app_inv {A : Type} (R : A -> A -> Prop) l1 l2 :
  StronglySorted R (l1 ++ l2)%list -> StronglySorted R l1 /\ StronglySorted R l2.
Proof.
  induction l1 as [|x r IH]; simpl; intros H.
  - split; [constructor | exact H].
  - inversion H as [|? ? Hs Hall]; subst. destruct (IH Hs) as [H1 H2].
    split; [|exact H2]. constructor; [exact H1|].
    apply Forall_app in Hall. tauto.
Qed.

Lemma StronglySorted_firstn {A : Type} (R : A -> A -> Prop) n l :
  StronglySorted R l -> StronglySorted R (firstn n l).
Proof.
  intros H. rewrite <- (firstn_skipn n l) in H.
  now apply StronglySorted_app_inv in H.
Qed.

Lemma StronglySorted_slice {A : Type} (R : A -> A -> Prop) limit l :
  StronglySorted R l -> StronglySorted R (slice_to limit l).
Proof.
  intros H. unfold slice_to. destruct (limit <? 0); now apply StronglySorted_firstn.
Qed.


(** The cursor: nothing when the id does not occur, else what follows its
    first occurrence *)
Lemma after_cursor_found a l : after_cursor a true l = l.
Proof. induction l as [|t r IH]; simpl; [reflexivity | now rewrite IH]. Qed.

Lemma after_cursor_absent a l :
  ~ In a (map id l) -> after_cursor a false l = [].
Proof.
  induction l as [|t r IH]; simpl; [reflexivity|].
  intros Hn. destruct (String.eqb_spec (id t) a) as [Heq|_].
  - exfalso. apply Hn. now left.
  - apply IH. intros Hin. apply Hn. now right.
Qed.

Lemma after_cursor_split a pre x post :
  id x = a -> ~ In a (map id pre) ->
  after_cursor a false (pre ++ x :: post)%list = post.
Proof.
  intros Hx. induction pre as [|t r IH]; simpl; intros Hn.
  - rewrite Hx, String.eqb_refl. apply after_cursor_found.
  - destruct (String.eqb_spec (id t) a) as [Heq|_].
    + exfalso. apply Hn. now left.
    + apply IH. intros Hin. apply Hn. now right.
Qed.

Lemma first_occurrence a (l : list VideoTask) :
  In a (map id l) ->
  exists pre x post,
    l = (pre ++ x :: post)%list /\ id x = a /\ ~ In a (map id pre).
Proof.
  induction l as [|t r IH]; simpl; [tauto|].
  destruct (string_dec (id t) a) as [Heq|Hne].
  - intros _. exists [], t, r. simpl. tauto.
  - intros [Heq|Hin]; [contradiction|].
    destruct (IH Hin) as [pre [x [post [-> [Hx Hn]]]]].
    exists (t :: pre), x, post. simpl. repeat split; auto.
    intros [H|H]; auto.
Qed.

Lemma after_cursor_suffix a l :
  exists pre, l = (pre ++ after_cursor a false l)%list.
Proof.
  destruct (in_dec string_dec a (map id l)) as [Hin|Hn].
  - destruct (first_occurrence a l Hin) as [pre [x [post [-> [Hx Hp]]]]].
    rewrite after_cursor_split by assumption.
    exists (pre ++ [x])%list. now rewrite <- app_assoc.
  - rewrite after_cursor_absent by assumption. exists l. now rewrite app_nil_r.
Qed.

Lemma NoDup_map_filter {A B : Type} (f : A -> B) (p : A -> bool) l :
  NoDup (map f l) -> NoDup (map f (filter p l)).
Proof.
  induction l as [|x r IH]; simpl; [tauto|].
  intros H. inversion H as [|? ? Hn Hr]; subst.
  destruct (p x); [|now apply IH].
  simpl. constructor; [|now apply IH].
  intros Hin. apply Hn. apply in_map_iff in Hin as [y [Hy Hin]].
  apply filter_In in Hin as [Hin _]. rewrite <- Hy. now apply in_map.
Qed.

Lemma working_set_perm d order by_user :
  Permutation (working_set d order by_user) (filter_user by_user (Dict.values d)).
Proof. apply sort_by_perm. Qed.

Lemma working_set_unique_ids d order by_user :
  NoDup (map id (Dict.values d)) -> NoDup (map id (working_set d order by_user)).
Proof.
  intros H.
  eapply Permutation_NoDup.
  - apply Permutation_map, Permutation_sym, working_set_perm.
  - unfold filter_user. destruct (Str.truthy by_user); [|exact H].
    now apply NoDup_map_filter.
Qed.

(** The page is a run of consecutive elements of the sorted working set. *)
Lemma page_is_segment limit after (tasks : list VideoTask) :
  exists pre post,
    tasks = (pre ++ fst (fst (fst (page_of limit after tasks))) ++ post)%list.
Proof.
  unfold page_of. cbn [fst].
  set (cut := match after with
              | Some a => if Str.truthy after then after_cursor a false tasks else tasks
              | None => tasks
              end).
  assert (Hcut : exists pre, tasks = (pre ++ cut)%list).
  { subst cut. destruct after as [a|]; [|now exists []].
    destruct (Str.truthy (Some a)); [apply after_cursor_suffix | now exists []]. }
  destruct Hcut as [pre Hpre].
  assert (Hslice : exists post, cut = (slice_to limit cut ++ post)%list).
  { unfold slice_to. destruct (limit <? 0);
      eexists; symmetry; apply firstn_skipn. }
  destruct Hslice as [post Hpost].
  exists pre, post. now rewrite <- Hpost.
Qed.

Lemma page_sorted (R : VideoTask -> VideoTask -> Prop) limit after tasks :
  StronglySorted R tasks ->
  StronglySorted R (fst (fst (fst (page_of limit after tasks)))).
Proof.
  intros H. destruct (page_is_segment limit after tasks) as [pre [post Heq]].
  rewrite Heq in H.
  apply StronglySorted_app_inv in H as [_ H].
  now apply StronglySorted_app_inv in H as [H _].
Qed.

(** The scenario of the specification: two jobs of one user, created at
    seconds 0 and 1; the first page of size 1 in descending order holds
    the later job and more is to come. *)
Example list_first_page_descending :
  snd (list_tasks
         (registry_of [sample_job_at "a" 0 (Some "ann"); sample_job_at "b" 1 (Some "ann");
                       sample_job_at "c" 2 (Some "bob")])
         [] 1 None "desc" (Some "ann"))
  = ([sample_job_at "b" 1 (Some "ann")], true, Some "video_b", Some "video_b").
Proof. vm_compute. reflexivity. Qed.

(** Jobs of one second keep their insertion order in both directions. *)
Example list_ties_keep_insertion_order :
  map id (working_set
            (_tasks (registry_of [sample_job_at "a" 5 None; sample_job_at "b" 7 None;
                                  sample_job_at "c" 5 None; sample_job_at "d" 7 None]))
            "DESC" None)
  = ["video_b"; "video_d"; "video_a"; "video_c"] /\
  map id (working_set
            (_tasks (registry_of [sample_job_at "a" 5 None; sample_job_at "b" 7 None;
                                  sample_job_at "c" 5 None; sample_job_at "d" 7 None]))
            "asc" None)
  = ["video_a"; "video_c"; "video_b"; "video_d"].
Proof. vm_compute. split; reflexivity. Qed.

(** C2, as stated, fails: an order that is neither [asc] nor [desc],
    here [descending], gives the ascending order, not the descending one. *)
Lemma list_unknown_order_is_ascending :
  map created_at
    (fst (fst (fst (snd
       (list_tasks (registry_of [sample_job_at "a" 1 None; sample_job_at "b" 2 None])
          [] 20 None "descending" None)))))
  = [1; 2] /\
  ("descending" =? "asc")%string = false /\
  1 < 2.
Proof. vm_compute. repeat split. Qed.

(** C2 (amended): [list_tasks] sorts the working set (the values of the
    mapping, filtered by user) by [created_at], descending exactly when
    the order argument, lower-cased, is [desc], and ascending for every
    other value; jobs with equal [created_at] keep their insertion order.
    The returned page is a run of consecutive elements of that sorted
    list, so its [created_at] values are non-increasing in the first case
    and non-decreasing in the second. *)
Theorem list_sorted_by_created_at :
  forall s disk limit after order by_user,
    let d := _tasks (ensure_loaded s disk) in
    let ws := working_set d order by_user in
    let page := fst (fst (fst (snd (list_tasks s disk limit after order by_user)))) in
    Permutation ws (filter_user by_user (Dict.values d)) /\
    (forall c,
       filter (fun t => created_at t =? c) ws
       = filter (fun t => created_at t =? c) (filter_user by_user (Dict.values d))) /\
    (exists pre post, ws = (pre ++ page ++ post)%list) /\
    (Str.lower order = "desc" ->
       StronglySorted (fun a b => created_at b <= created_at a) ws /\
       StronglySorted (fun a b => created_at b <= created_at a) page) /\
    (Str.lower order <> "desc" ->
       StronglySorted (fun a b => created_at a <= created_at b) ws /\
       StronglySorted (fun a b => created_at a <= created_at b) page).
Proof.
  intros s disk limit after order by_user d ws page.
  assert (Hsorted : StronglySorted
            (in_order created_at (Str.lower order =? "desc")%string) ws).
  { apply sort_by_sorted. }
  split; [apply working_set_perm|].
  split; [intros c; apply sort_by_stable|].
  split; [apply page_is_segment|].
  split.
  - intros Hdesc. rewrite Hdesc in Hsorted. simpl in Hsorted.
    split; [exact Hsorted | now apply page_sorted].
  - intros Hother. apply String.eqb_neq in Hother. rewrite Hother in Hsorted.
    split; [exact Hsorted | now apply page_sorted].
Qed.

Example list_after_cursor :
  let s := registry_of [sample_job_at "a" 1 None; sample_job_at "b" 2 None;
                        sample_job_at "c" 3 None] in
  snd (list_tasks s [] 20 (Some "video_b") "desc" None)
    = ([sample_job_at "a" 1 None], false, Some "video_a", Some "video_a") /\
  snd (list_tasks s [] 20 (Some "video_b") "asc" None)
    = ([sample_job_at "c" 3 None], false, Some "video_c", Some "video_c") /\
  snd (list_tasks s [] 20 (Some "video_x") "desc" None) = ([], false, None, None).
Proof. vm_compute. repeat split. Qed.




(** ** Remix *)

Lemma map_to_grok_model_default m : _map_to_grok_model m = "grok-imagine-0.9".
Proof.
  unfold _map_to_grok_model. simpl.
  repeat match goal with
         | |- context [if ?b then _ else _] => destruct b
         end; reflexivity.
Qed.

Lemma create_task_after_load s env p m r sec sz u :
  create_task (ensure_loaded s (disk env)) env p m r sec sz u
  = create_task s env p m r sec sz u.
Proof. unfold create_task. now rewrite ensure_loaded_idem. Qed.

Lemma created_job_not_expired now env t :
  expires_at t = Some (time_expiry env + 86400) ->
  now <= time_expiry env + 86400 ->
  is_expired now t = false.
Proof.
  intros He Hle. unfold is_expired. rewrite He.
  apply andb_false_iff. right. apply Z.ltb_ge. exact Hle.
Qed.

(** A completed job with a video URL, remixed: the new job refers to that
    URL and to its source, is queued, and sits in the registry. *)
Example remix_of_completed_job :
  let s1 := fst (create_task (sample_registry None 0) (sample_env "0123456789ab" 1700000000)
                   "a dog running" "sora-2" None "4" "1280x720" (Some "ann")) in
  let s2 := _process_task s1 "video_0123456789ab"
              (Returned (sample_video_tag "https://h/v.mp4") []) 1700000100 in
  let r := remix_task s2 (sample_env "ba9876543210" 1700000200)
             "video_0123456789ab" "make it snow" in
  option_map input_reference (snd r) = Some (Some "https://h/v.mp4") /\
  option_map remixed_from_video_id (snd r) = Some (Some "video_0123456789ab") /\
  option_map size (snd r) = Some "1280x720" /\
  option_map user (snd r) = Some (Some "ann") /\
  option_map status (snd r) = Some "queued" /\
  Dict.get "video_ba9876543210" (_tasks (fst r)) = snd r /\
  Dict.keys (_tasks (fst r)) = ["video_0123456789ab"; "video_ba9876543210"] /\
  remix_task s1 (sample_env "ba9876543210" 1700000200) "video_0123456789ab" "make it snow"
    = (s1, None) /\
  remix_task s2 (sample_env "ba9876543210" 1700000200) "video_unknown" "make it snow"
    = (s2, None).
Proof. vm_compute. repeat split. Qed.

(** C4: [remix_task] returns nothing and leaves the registry as it is
    when the source is unknown or not completed.  For a completed source
    it calls [create_task] with the new prompt, the source's model, size,
    seconds and user, and the source's [video_url] as input reference, and
    returns the created job stamped with the source id. *)
Theorem remix_task_spec :
  forall s env src_id new_prompt,
    let s0 := ensure_loaded s (disk env) in
    (Dict.get src_id (_tasks s0) = None ->
       remix_task s env src_id new_prompt = (s0, None)) /\
    (forall src,
       Dict.get src_id (_tasks s0) = Some src -> status src <> "completed" ->
       remix_task s env src_id new_prompt = (s0, None)) /\
    (forall src,
       Dict.get src_id (_tasks s0) = Some src -> status src = "completed" ->
       let created :=
         create_task s env new_prompt (model src) (video_url src)
           (seconds src) (size src) (user src) in
       let t := set_remixed_from_video_id (Some src_id) (snd created) in
       snd (remix_task s env src_id new_prompt) = Some t /\
       _tasks (fst (remix_task s env src_id new_prompt))
         = stamp_remix src_id (snd created) (_tasks (fst created)) /\
       remixed_from_video_id t = Some src_id /\
       input_reference t = video_url src /\
       (forall U, video_url src = Some U -> input_reference t = Some U) /\
       model t = _map_to_grok_model (model src) /\
       (model src = "grok-imagine-0.9" -> model t = model src) /\
       size t = size src /\ seconds t = seconds src /\ user t = user src /\
       prompt t = new_prompt /\ status t = "queued" /\
       (Dict.wf (_tasks s0) -> time_cleanup env <= time_expiry env + 86400 ->
          Dict.get (id t) (_tasks (fst (remix_task s env src_id new_prompt)))
          = Some t)).
Proof.
  intros s env src_id new_prompt s0.
  split; [|split].
  - intros Hg. unfold remix_task, get_task. fold s0. now rewrite Hg.
  - intros src Hg Hs. unfold remix_task, get_task. fold s0. rewrite Hg.
    apply String.eqb_neq in Hs. unfold Status.COMPLETED. now rewrite Hs.
  - intros src Hg Hs created t.
    assert (Hremix : remix_task s env src_id new_prompt =
              (_mark_dirty
                 (mkService (stamp_remix src_id (snd created) (_tasks (fst created)))
                    (_loaded (fst created)) (_save_pending (fst created))),
               Some t)).
    { unfold remix_task, get_task. fold s0. rewrite Hg, Hs.
      cbn [Status.COMPLETED String.eqb Ascii.eqb Bool.eqb negb].
      subst s0. rewrite create_task_after_load. fold created.
      now destruct created. }
    rewrite Hremix. cbn [fst snd _tasks _mark_dirty].
    repeat split.
    + intros U HU. subst t created. simpl. exact HU.
    + intros Hm. subst t created. simpl. now rewrite map_to_grok_model_default.
    + intros Hwf Hclock.
      assert (Hid : id t = id (snd created)) by reflexivity.
      rewrite Hid. unfold stamp_remix.
      assert (Hin : Dict.get (id (snd created)) (_tasks (fst created))
                    = Some (snd created)).
      { subst created. simpl. unfold insert_and_evict.
        set (job := new_VideoTask _ _ _ _ _ _ _ _ _).
        destruct (_max_tasks <? _).
        - rewrite cleanup_is_filter, get_filter by (now apply wf_set).
          rewrite get_set, String.eqb_refl. simpl.
          now rewrite (created_job_not_expired (time_cleanup env) env job).
        - now rewrite get_set, String.eqb_refl. }
      rewrite Hin. now rewrite get_set, String.eqb_refl.
Qed.

Lemma remix_task_spec_witness :
  Dict.get "video_0123456789ab"
    (_tasks (ensure_loaded (sample_completed_registry "https://h/v.mp4") []))
    = Some (sample_completed_job "https://h/v.mp4") /\
  status (sample_completed_job "https://h/v.mp4") = "completed" /\
  option_map input_reference
    (snd (remix_task (sample_completed_registry "https://h/v.mp4")
            (sample_env "ba9876543210" 1700000200) "video_0123456789ab" "make it snow"))
    = Some (Some "https://h/v.mp4") /\
  option_map remixed_from_video_id
    (snd (remix_task (sample_completed_registry "https://h/v.mp4")
            (sample_env "ba9876543210" 1700000200) "video_0123456789ab" "make it snow"))
    = Some (Some "video_0123456789ab").
Proof.
  assert (Hsrc : Dict.get "video_0123456789ab"
            (_tasks (ensure_loaded (sample_completed_registry "https://h/v.mp4")
                       (disk (sample_env "ba9876543210" 1700000200))))
            = Some (sample_completed_job "https://h/v.mp4")) by (vm_compute; reflexivity).
  assert (Hst : status (sample_completed_job "https://h/v.mp4") = "completed")
    by (vm_compute; reflexivity).
  destruct (remix_task_spec (sample_completed_registry "https://h/v.mp4")
              (sample_env "ba9876543210" 1700000200) "video_0123456789ab" "make it snow")
    as [_ [_ Hdone]].
  destruct (Hdone _ Hsrc Hst) as [Hret [_ [Hfrom [Href _]]]].
  split; [exact Hsrc|]. split; [exact Hst|].
  rewrite Hret. cbn [option_map]. rewrite Hfrom, Href.
  split; reflexivity.
Defined.

(** ** Serialisation *)

Import Persistence.

Lemma asdict_inner_id : forall v, asdict_inner v = v.
Proof.
  fix IH 1. intros [ | b | n | f | str | items | entries]; simpl; try reflexivity.
  - f_equal. induction items as [|x r IHr]; simpl; [reflexivity|].
    now rewrite IH, IHr.
  - f_equal. induction entries as [|[k x] r IHr]; simpl; [reflexivity|].
    now rewrite IH, IHr.
Qed.

Lemma asdict_id (o : pyobj) : asdict o = o.
Proof.
  unfold asdict. induction o as [|[k v] r IH]; simpl; [reflexivity|].
  now rewrite asdict_inner_id, IH.
Qed.

Lemma to_dict_instance t : to_dict t = instance_of t.
Proof. apply asdict_id. Qed.

(** The comprehension of [from_dict] passes over the keys that are no
    field. *)
Lemma filter_fields_known_only items :
  filter_fields items = filter_fields (filter (fun kv => is_field (fst kv)) items).
Proof.
  unfold filter_fields. generalize (@nil (string * pyval)) as acc.
  induction items as [|[k v] r IH]; intros acc; simpl; [reflexivity|].
  destruct (is_field k) eqn:Hk; simpl.
  - rewrite Hk. apply IH.
  - apply IH.
Qed.

(** The object built from the dict of a record is the object of that
    record, whatever the default factories would return. *)
Lemma from_dict_instance hex now t :
  from_dict hex now (PDict (instance_of t)) = Ok (instance_of t).
Proof. vm_compute. reflexivity. Qed.

Lemma opt_int_inj a b : opt_int a = opt_int b -> a = b.
Proof. destruct a, b; simpl; congruence. Qed.

Lemma opt_str_inj a b : opt_str a = opt_str b -> a = b.
Proof. destruct a, b; simpl; congruence. Qed.

Lemma cons_eq_inv {A : Type} (x y : A) l l' : x :: l = y :: l' -> x = y /\ l = l'.
Proof. intros H. now injection H. Qed.

Lemma instance_of_injective t t' : instance_of t = instance_of t' -> t = t'.
Proof.
  destruct t, t'. unfold instance_of. cbn [id model status progress created_at
    completed_at expires_at prompt size seconds quality error_code error_message
    remixed_from_video_id video_url video_path thumbnail_url input_reference
    sso_token user].
  intros H.
  repeat match goal with
         | H : _ :: _ = _ :: _ |- _ =>
             apply cons_eq_inv in H; destruct H as [? H]
         end.
  repeat match goal with
         | H : (_, _) = (_, _) |- _ => apply (f_equal snd) in H; cbn [snd] in H
         end.
  repeat match goal with
         | H : PStr _ = PStr _ |- _ => injection H as H
         | H : PInt _ = PInt _ |- _ => injection H as H
         | H : opt_int _ = opt_int _ |- _ => apply opt_int_inj in H
         | H : opt_str _ = opt_str _ |- _ => apply opt_str_inj in H
         end.
  subst. reflexivity.
Qed.

Lemma filter_unknown_nil (extra : list (string * pyval)) :
  forallb (fun kv => negb (is_field (fst kv))) extra = true ->
  filter (fun kv => is_field (fst kv)) extra = [].
Proof.
  induction extra as [|[k v] r IH]; simpl; [reflexivity|].
  intros H. apply andb_true_iff in H as [Hk Hr].
  apply negb_true_iff in Hk. rewrite Hk. now apply IH.
Qed.

Lemma instance_fields_known t :
  filter (fun kv => is_field (fst kv)) (instance_of t) = instance_of t.
Proof. vm_compute. reflexivity. Qed.

Example from_dict_defaults_and_unknown_keys :
  from_dict "0123456789ab" 1700000000
    (PDict [("prompt", PStr "a dog running"); ("colour", PStr "red");
            ("progress", PInt 30)])
  = Ok [("id", PStr "video_0123456789ab"); ("model", PStr "grok-imagine-0.9");
        ("status", PStr "queued"); ("progress", PInt 30);
        ("created_at", PInt 1700000000); ("completed_at", PNone);
        ("expires_at", PNone); ("prompt", PStr "a dog running");
        ("size", PStr "720x1280"); ("seconds", PStr "4");
        ("quality", PStr "standard"); ("error_code", PNone);
        ("error_message", PNone); ("remixed_from_video_id", PNone);
        ("video_url", PNone); ("video_path", PNone); ("thumbnail_url", PNone);
        ("input_reference", PNone); ("sso_token", PNone); ("user", PNone)] /\
  from_dict "0123456789ab" 1700000000 (PList []) =
    Raise (Exception "AttributeError: items").
Proof. vm_compute. split; reflexivity. Qed.

(** C9: [from_dict(t.to_dict())] is the object of [t]: it has the value
    of [t] in every field (and no other record has that object).
    [to_dict] emits exactly the dataclass fields, [from_dict] passes over
    keys that are no field, and neither default factory is consulted. *)
Theorem from_dict_to_dict_roundtrip :
  forall (t : VideoTask) (hex : string) (now : Z),
    from_dict hex now (PDict (to_dict t)) = Ok (instance_of t) /\
    (forall t', from_dict hex now (PDict (to_dict t)) = Ok (instance_of t') -> t' = t) /\
    Dict.keys (to_dict t) = dataclass_fields /\
    (forall data,
       from_dict hex now (PDict data)
       = from_dict hex now (PDict (filter (fun kv => is_field (fst kv)) data))) /\
    (forall extra,
       forallb (fun kv => negb (is_field (fst kv))) extra = true ->
       from_dict hex now (PDict (to_dict t ++ extra)%list) = Ok (instance_of t)).
Proof.
  intros t hex now. rewrite to_dict_instance.
  split; [apply from_dict_instance|].
  split.
  { intros t' H. rewrite from_dict_instance in H.
    apply (f_equal (fun r => match r with Ok o => o | Raise _ => [] end)) in H.
    symmetry. now apply instance_of_injective. }
  split; [reflexivity|].
  split.
  { intros data. unfold from_dict. simpl.
    now rewrite filter_fields_known_only. }
  intros extra Hextra.
  rewrite <- (from_dict_instance hex now t).
  unfold from_dict. cbn [py_items bind]. do 2 f_equal.
  rewrite (filter_fields_known_only (instance_of t ++ extra)).
  rewrite filter_app, (filter_unknown_nil extra Hextra).
  now rewrite app_nil_r, instance_fields_known.
Qed.

(** ** Loading *)

Lemma load_items_bad_entry factory k v : forall items n acc,
  In (k, v) items -> (forall entries, v <> PDict entries) ->
  exists e, load_items factory n items acc = Raise e.
Proof.
  induction items as [|[k' v'] r IH]; intros n acc Hin Hbad; [destruct Hin|].
  destruct Hin as [Heq|Hin].
  - injection Heq as -> ->. simpl.
    destruct v as [ | b | z | f | str | l | entries];
      try (eexists; reflexivity).
    exfalso. now apply (Hbad entries).
  - simpl.
    destruct (from_dict (fst (factory n)) (snd (factory n)) v') as [o|e]; simpl.
    + now apply IH.
    + now exists e.
Qed.

Lemma load_tasks_once factory file (s : Service pyobj) :
  _loaded s = true -> _load_tasks factory file s = s.
Proof. unfold _load_tasks. now intros ->. Qed.

Example load_of_corrupt_entry_drops_everything :
  _load_tasks (fun _ => ("0123456789ab", 1700000000))
    (FileParsed
       (PDict [("tasks",
                PDict [("video_a", PDict [("prompt", PStr "first")]);
                       ("video_b", PStr "not an object")])]))
    init
  = mkService [] true false.
Proof. vm_compute. reflexivity. Qed.

(** C8: [_load_tasks] returns a state in every case (its type has no
    exceptional result).  When the file is missing the mapping is empty;
    when the file cannot be read or parsed, or its content has not the
    expected shape (anything the [try] block raises), the mapping is
    empty as well; in every case the loaded flag is set and nothing else
    of the service changes. *)
Theorem load_fails_soft :
  forall (factory : nat -> string * Z) (file : FileState) (s : Service pyobj),
    _loaded s = false ->
    let s' := _load_tasks factory file s in
    _loaded s' = true /\
    _save_pending s' = _save_pending s /\
    (file = FileMissing -> _tasks s' = []) /\
    (forall e, file = FileUnreadable e \/ file = FileUnparseable e ->
       _tasks s' = []) /\
    (forall e, load_body factory file (_tasks s) = Raise e -> _tasks s' = []) /\
    (forall tasks, load_body factory file (_tasks s) = Ok tasks -> _tasks s' = tasks) /\
    (forall data, file = FileParsed data ->
       (forall entries, data <> PDict entries) -> _tasks s' = []) /\
    (forall entries v, file = FileParsed (PDict entries) ->
       Dict.get "tasks" entries = Some v ->
       (forall items, v <> PDict items) -> _tasks s' = []) /\
    (forall entries items k v, file = FileParsed (PDict entries) ->
       Dict.get "tasks" entries = Some (PDict items) ->
       In (k, v) items -> (forall fields, v <> PDict fields) -> _tasks s' = []).
Proof.
  intros factory file s Hl s'. subst s'. unfold _load_tasks. rewrite Hl.
  assert (Hraise : forall e, load_body factory file (_tasks s) = Raise e ->
            _tasks match load_body factory file (_tasks s) with
                   | Ok tasks => mkService tasks true (_save_pending s)
                   | Raise _ => mkService [] true (_save_pending s)
                   end = []).
  { intros e He. now rewrite He. }
  split; [now destruct (load_body factory file (_tasks s))|].
  split; [now destruct (load_body factory file (_tasks s))|].
  split; [now intros ->|].
  split; [intros e [->| ->]; reflexivity|].
  split; [exact Hraise|].
  split; [intros tasks Hok; now rewrite Hok|].
  split; [|split].
  - intros data -> Hbad.
    apply (Hraise (Exception "AttributeError: get")).
    destruct data; try reflexivity. exfalso. now apply (Hbad entries).
  - intros entries v -> Hg Hbad.
    apply (Hraise (Exception "AttributeError: items")).
    simpl. rewrite Hg. destruct v; try reflexivity.
    exfalso. now apply (Hbad entries0).
  - intros entries items k v -> Hg Hin Hbad.
    destruct (load_items_bad_entry factory k v items O (_tasks s) Hin Hbad) as [e He].
    apply (Hraise e). simpl. rewrite Hg. simpl. exact He.
Qed.

Lemma load_fails_soft_witness :
  _loaded (@init pyobj) = false /\
  _load_tasks (fun _ => ("0123456789ab", 1700000000))
    (FileUnparseable (Exception "JSONDecodeError")) init
  = mkService [] true false.
Proof.
  split; [reflexivity|].
  destruct (load_fails_soft (fun _ => ("0123456789ab", 1700000000))
              (FileUnparseable (Exception "JSONDecodeError")) init eq_refl)
    as [Hl [Hp [_ [Hbad _]]]].
  specialize (Hbad (Exception "JSONDecodeError") (or_intror eq_refl)).
  destruct (_load_tasks _ _ init) as [tasks loaded pending].
  simpl in Hl, Hp, Hbad. now subst.
Defined.

(** ** The registry invariant is kept by every operation *)

Lemma Forall_set {V : Type} (P : string * V -> Prop) (d : dict V) k v :
  Forall P d -> P (k, v) -> Forall P (Dict.set k v d).
Proof.
  intros Hd Hkv. induction Hd as [|[a b] r Hab Hr IH]; simpl.
  - now constructor.
  - destruct (String.eqb_spec a k) as [->|_]; constructor; auto.
Qed.

Lemma Forall_filter_keeps {A : Type} (P : A -> Prop) (p : A -> bool) l :
  Forall P l -> Forall P (filter p l).
Proof.
  rewrite !Forall_forall. intros H x Hx. apply filter_In in Hx. now apply H.
Qed.

Lemma registry_ok_nil : registry_ok [].
Proof. split; constructor. Qed.

Lemma registry_ok_set d t :
  registry_ok d -> registry_ok (Dict.set (id t) t d).
Proof.
  intros [Hwf Hid]. split; [now apply wf_set | now apply Forall_set].
Qed.

Lemma registry_ok_filter d p :
  registry_ok d -> registry_ok (filter p d).
Proof.
  intros [Hwf Hid]. split; [now apply wf_filter | now apply Forall_filter_keeps].
Qed.

Lemma registry_ok_stored d k t :
  registry_ok d -> Dict.get k d = Some t -> id t = k.
Proof.
  intros [_ Hid] Hg. apply get_In in Hg.
  rewrite Forall_forall in Hid. exact (Hid _ Hg).
Qed.

(** Ids are unique among the stored jobs. *)
Lemma registry_ok_unique_ids d :
  registry_ok d -> NoDup (map id (Dict.values d)).
Proof.
  intros [Hwf Hid]. unfold Dict.wf, Dict.keys in Hwf. unfold Dict.values.
  rewrite map_map.
  replace (map (fun kv => id (snd kv)) d) with (map fst d); [exact Hwf|].
  induction Hid as [|kv r Hkv Hr IH]; simpl; [reflexivity|].
  inversion Hwf; subst. now rewrite Hkv, IH.
Qed.

Lemma registry_ok_create s env p m r sec sz u :
  registry_ok (_tasks (ensure_loaded s (disk env))) ->
  registry_ok (_tasks (fst (create_task s env p m r sec sz u))).
Proof.
  intros Hok. simpl. unfold insert_and_evict.
  set (t := new_VideoTask _ _ _ _ _ _ _ _ _).
  pose proof (registry_ok_set _ t Hok) as Hset.
  destruct (_max_tasks <? _); [|exact Hset].
  rewrite cleanup_is_filter by apply Hset. now apply registry_ok_filter.
Qed.

Lemma registry_ok_process s tid out now :
  registry_ok (_tasks s) -> registry_ok (_tasks (_process_task s tid out now)).
Proof.
  intros Hok. unfold _process_task.
  destruct (Dict.get tid (_tasks s)) as [t|] eqn:Hg; [|exact Hok].
  simpl. pose proof (registry_ok_stored _ _ _ Hok Hg) as Hid.
  destruct (run_worker_frame out now t) as [Hid' _].
  rewrite <- Hid, <- Hid'. now apply registry_ok_set.
Qed.

Lemma registry_ok_delete s disk tid :
  registry_ok (_tasks (ensure_loaded s disk)) ->
  registry_ok (_tasks (fst (delete_task s disk tid))).
Proof.
  intros Hok. unfold delete_task.
  destruct (Dict.get tid (_tasks (ensure_loaded s disk))); [|exact Hok].
  simpl. rewrite del_filter by apply Hok. now apply registry_ok_filter.
Qed.

Lemma registry_ok_remix s env src_id new_prompt :
  registry_ok (_tasks (ensure_loaded s (disk env))) ->
  registry_ok (_tasks (fst (remix_task s env src_id new_prompt))).
Proof.
  intros Hok. unfold remix_task, get_task.
  destruct (Dict.get src_id (_tasks (ensure_loaded s (disk env)))) as [src|];
    [|exact Hok].
  destruct (negb (status src =? Status.COMPLETED)%string); [exact Hok|].
  rewrite create_task_after_load.
  pose proof (registry_ok_create s env new_prompt (model src) (video_url src)
                (seconds src) (size src) (user src) Hok) as Hcreated.
  destruct (create_task s env new_prompt (model src) (video_url src)
              (seconds src) (size src) (user src)) as [s1 t]. simpl in *.
  unfold stamp_remix. destruct (Dict.get (id t) (_tasks s1)); [|exact Hcreated].
  exact (registry_ok_set _ (set_remixed_from_video_id (Some src_id) t) Hcreated).
Qed.

(** Deleting a job makes it unknown; deleting an unknown id changes
    nothing. *)
Lemma delete_then_get s disk tid :
  Dict.wf (_tasks (ensure_loaded s disk)) ->
  snd (get_task (fst (delete_task s disk tid)) disk tid) = None /\
  (Dict.get tid (_tasks (ensure_loaded s disk)) = None ->
   delete_task s disk tid = (ensure_loaded s disk, None)).
Proof.
  intros Hwf. unfold delete_task, get_task.
  destruct (Dict.get tid (_tasks (ensure_loaded s disk))) eqn:Hg; simpl.
  - split; [|discriminate].
    unfold ensure_loaded at 1. simpl. rewrite ensure_loaded_loaded.
    cbn [_tasks _mark_dirty].
    now rewrite get_del, String.eqb_refl by exact Hwf.
  - split; [|reflexivity]. now rewrite ensure_loaded_idem, Hg.
Qed.

(** ** Saving and loading again *)

Lemma set_fresh {V : Type} (d : dict V) k v :
  ~ In k (Dict.keys d) -> Dict.set k v d = (d ++ [(k, v)])%list.
Proof.
  induction d as [|[a b] r IH]; simpl; [reflexivity|].
  intros Hn. destruct (String.eqb_spec a k) as [->|_].
  - exfalso. apply Hn. now left.
  - f_equal. apply IH. intros Hin. apply Hn. now right.
Qed.

Lemma fold_set_fresh {V W : Type} (g : V -> W) (d : dict V) : forall acc : dict W,
  NoDup (Dict.keys acc ++ Dict.keys d)%list ->
  fold_left (fun a kv => Dict.set (fst kv) (g (snd kv)) a) d acc
  = (acc ++ map (fun kv => (fst kv, g (snd kv))) d)%list.
Proof.
  induction d as [|[k v] r IH]; intros acc Hnd; simpl.
  - now rewrite app_nil_r.
  - simpl in Hnd. pose proof (NoDup_remove_2 _ _ _ Hnd) as Hk.
    rewrite set_fresh.
    + rewrite IH.
      * now rewrite <- app_assoc.
      * unfold Dict.keys. rewrite map_app. simpl. rewrite <- app_assoc. exact Hnd.
    + intros Hin. apply Hk. apply in_or_app. now left.
Qed.

Lemma load_items_saved factory (d : dict VideoTask) : forall n acc,
  load_items factory n (map (fun kv => (fst kv, PDict (to_dict (snd kv)))) d) acc
  = Ok (fold_left (fun a kv => Dict.set (fst kv) (instance_of (snd kv)) a) d acc).
Proof.
  induction d as [|[k t] r IH]; intros n acc; [reflexivity|].
  cbn [map fst snd load_items fold_left].
  rewrite to_dict_instance, from_dict_instance. cbn [bind]. apply IH.
Qed.

(** What [_save_tasks] writes, read back by [_load_tasks] into a fresh
    service, is the registry again: the same ids in the same order, each
    with the object of its record. *)
Lemma load_after_save factory (d : dict VideoTask) now :
  Dict.wf d ->
  _load_tasks factory (FileParsed (save_data d now)) init
  = mkService (map (fun kv => (fst kv, instance_of (snd kv))) d) true false.
Proof.
  intros Hwf. unfold _load_tasks, load_body, save_data.
  cbn [_loaded init py_get Dict.get String.eqb Ascii.eqb Bool.eqb bind py_items
       _tasks _save_pending].
  rewrite load_items_saved, fold_set_fresh; [reflexivity|exact Hwf].
Qed.

(* ================================================================== *)
(** * Further properties of the service *)

(** ** Creation and lookup *)

Lemma created_job_stored s env p m r sec sz u :
  Dict.wf (_tasks (ensure_loaded s (disk env))) ->
  time_cleanup env <= time_expiry env + 86400 ->
  Dict.get (id (snd (create_task s env p m r sec sz u)))
    (_tasks (fst (create_task s env p m r sec sz u)))
  = Some (snd (create_task s env p m r sec sz u)).
Proof.
  intros Hwf Hclock. simpl. unfold insert_and_evict.
  set (job := new_VideoTask _ _ _ _ _ _ _ _ _).
  destruct (_max_tasks <? _).
  - rewrite cleanup_is_filter, get_filter by (now apply wf_set).
    rewrite get_set, String.eqb_refl. simpl.
    now rewrite (created_job_not_expired (time_cleanup env) env job).
  - now rewrite get_set, String.eqb_refl.
Qed.

Lemma filter_all_kept {A : Type} (p : A -> bool) l :
  forallb p l = true -> filter p l = l.
Proof.
  induction l as [|x r IH]; simpl; [reflexivity|].
  intros H. apply andb_true_iff in H as [Hx Hr]. rewrite Hx. now rewrite IH.
Qed.

Lemma forallb_snoc {A : Type} (p : A -> bool) l x :
  forallb p (l ++ [x])%list = forallb p l && p x.
Proof. rewrite forallb_app. simpl. now rewrite andb_true_r. Qed.

(** X1: right after [create_task] the new job can be fetched under its
    id, as created: queued, progress 0, the internal model, the given
    prompt, size, seconds, user and reference, and nothing of a result.
    The one condition is that the clock did not run more than the 24
    hours of the expiry ahead between the reads of one call. *)
Theorem create_then_get :
  forall s env p m r sec sz u disk',
    Dict.wf (_tasks (ensure_loaded s (disk env))) ->
    time_cleanup env <= time_expiry env + 86400 ->
    let created := create_task s env p m r sec sz u in
    let job := snd created in
    snd (get_task (fst created) disk' (id job)) = Some job /\
    id job = "video_" ++ uuid_hex env /\
    status job = "queued" /\ progress job = 0 /\
    model job = "grok-imagine-0.9" /\
    prompt job = p /\ size job = sz /\ seconds job = sec /\ user job = u /\
    input_reference job = r /\ quality job = "standard" /\
    completed_at job = None /\ video_url job = None /\ video_path job = None /\
    error_code job = None /\ error_message job = None /\
    remixed_from_video_id job = None /\
    _save_pending (fst created) = true.
Proof.
  intros s env p m r sec sz u disk' Hwf Hclock created job.
  split.
  - unfold get_task. cbn [snd].
    rewrite ensure_loaded_when_loaded by apply create_task_loaded.
    now apply created_job_stored.
  - subst job created. cbn [snd create_task new_VideoTask id status progress model
      prompt size seconds user input_reference quality completed_at video_url
      video_path error_code error_message remixed_from_video_id].
    rewrite map_to_grok_model_default. repeat split.
Qed.

Lemma create_then_get_witness :
  snd (get_task
         (fst (create_task init (mkCreateEnv [] "0123456789ab" 100 100 101)
                 "a dog running" "sora-2-pro" None "8" "1280x720" (Some "ann")))
         [] "video_0123456789ab")
  = Some (snd (create_task init (mkCreateEnv [] "0123456789ab" 100 100 101)
                 "a dog running" "sora-2-pro" None "8" "1280x720" (Some "ann"))).
Proof.
  assert (Hwf : Dict.wf (_tasks (ensure_loaded init
                 (disk (mkCreateEnv [] "0123456789ab" 100 100 101)))))
    by constructor.
  assert (Hclock : time_cleanup (mkCreateEnv [] "0123456789ab" 100 100 101)
                   <= time_expiry (mkCreateEnv [] "0123456789ab" 100 100 101) + 86400)
    by (simpl; lia).
  exact (proj1 (create_then_get init (mkCreateEnv [] "0123456789ab" 100 100 101)
                  "a dog running" "sora-2-pro" None "8" "1280x720" (Some "ann") []
                  Hwf Hclock)).
Defined.

(** The registry is not bounded by [_max_tasks]: 1001 live jobs, one more
    created, 1002 jobs. *)
Example registry_exceeds_max_tasks :
  List.length
    (_tasks (fst (create_task (sample_registry (Some 1000000) 1001) (sample_env "new" 5)
                    "p" "sora-2" None "4" "720x1280" None)))
  = 1002%nat.
Proof. vm_compute. reflexivity. Qed.

(** X2: [create_task] never removes a job that has not expired, so the
    capacity is no bound: when no stored job has expired and the new id is
    not in use, the registry afterwards is the old one with the new job
    appended, one longer than before, however many jobs it already held. *)
Theorem create_appends_when_nothing_expired :
  forall s env p m r sec sz u,
    let d := _tasks (ensure_loaded s (disk env)) in
    Dict.wf d ->
    forallb (fun kv => negb (is_expired (time_cleanup env) (snd kv))) d = true ->
    time_cleanup env <= time_expiry env + 86400 ->
    ~ In ("video_" ++ uuid_hex env) (Dict.keys d) ->
    let created := create_task s env p m r sec sz u in
    _tasks (fst created) = (d ++ [(id (snd created), snd created)])%list /\
    List.length (_tasks (fst created)) = S (List.length d).
Proof.
  intros s env p m r sec sz u d Hwf Hlive Hclock Hfresh created.
  assert (Htasks : _tasks (fst created)
                   = (d ++ [(id (snd created), snd created)])%list).
  { subst created. cbn [fst snd create_task _tasks _mark_dirty]. fold d.
    unfold insert_and_evict.
    set (job := new_VideoTask _ _ _ _ _ _ _ _ _).
    assert (Hset : Dict.set (id job) job d = (d ++ [(id job, job)])%list)
      by (apply set_fresh; exact Hfresh).
    rewrite Hset.
    destruct (_max_tasks <? _); [|reflexivity].
    rewrite cleanup_is_filter.
    - apply filter_all_kept. rewrite forallb_snoc, Hlive. cbn [snd andb].
      now rewrite (created_job_not_expired (time_cleanup env) env job).
    - rewrite <- Hset. now apply wf_set. }
  split; [exact Htasks|].
  rewrite Htasks, length_app. simpl. lia.
Qed.

Lemma create_appends_when_nothing_expired_witness :
  Dict.keys
    (_tasks (fst (create_task (sample_registry (Some 1000000) 2) (sample_env "new" 5)
                    "p" "sora-2" None "4" "720x1280" None)))
  = [sample_key 0; sample_key 1; "video_new"].
Proof.
  assert (Hwf : Dict.wf (_tasks (ensure_loaded (sample_registry (Some 1000000) 2)
                                   (disk (sample_env "new" 5))))).
  { repeat constructor; simpl; intuition discriminate. }
  destruct (create_appends_when_nothing_expired
              (sample_registry (Some 1000000) 2) (sample_env "new" 5)
              "p" "sora-2" None "4" "720x1280" None Hwf) as [Htasks _].
  - reflexivity.
  - simpl. lia.
  - simpl. intuition discriminate.
  - rewrite Htasks. reflexivity.
Defined.

(** ** Deletion *)

(** X3: [delete_task] returns the job stored under the id and removes
    exactly that entry: the id is unknown afterwards, every other id
    answers as before, and the change is marked for saving.  For an id
    that is not stored nothing changes and nothing is marked. *)
Theorem delete_removes_exactly_one :
  forall s disk tid,
    let s0 := ensure_loaded s disk in
    Dict.wf (_tasks s0) ->
    let r := delete_task s disk tid in
    snd r = Dict.get tid (_tasks s0) /\
    Dict.get tid (_tasks (fst r)) = None /\
    (forall k, k <> tid -> Dict.get k (_tasks (fst r)) = Dict.get k (_tasks s0)) /\
    (Dict.get tid (_tasks s0) = None -> fst r = s0) /\
    (Dict.get tid (_tasks s0) <> None ->
       _save_pending (fst r) = true /\
       S (List.length (_tasks (fst r))) = List.length (_tasks s0)) /\
    snd (get_task (fst r) disk tid) = None.
Proof.
  intros s disk tid s0 Hwf r. subst r. unfold delete_task. fold s0.
  destruct (Dict.get tid (_tasks s0)) as [t|] eqn:Hg; cbn [fst snd _tasks _mark_dirty].
  - split; [reflexivity|].
    split; [now rewrite get_del, String.eqb_refl by exact Hwf|].
    split.
    { intros k Hk. rewrite get_del by exact Hwf.
      apply not_eq_sym, String.eqb_neq in Hk. now rewrite Hk. }
    split; [discriminate|].
    split.
    { intros _. split; [reflexivity|].
      clear Hwf. revert Hg. generalize (_tasks s0) as d.
      induction d as [|[a b] d IH]; simpl; [discriminate|].
      destruct (a =? tid)%string; [reflexivity|].
      intros Hg. simpl. now rewrite IH. }
    unfold get_task. cbn [snd]. unfold ensure_loaded at 1.
    cbn [_loaded _mark_dirty]. subst s0. rewrite ensure_loaded_loaded.
    cbn [_tasks _mark_dirty]. now rewrite get_del, String.eqb_refl by exact Hwf.
  - split; [reflexivity|]. split; [exact Hg|].
    split; [reflexivity|]. split; [reflexivity|].
    split; [congruence|].
    unfold get_task. cbn [snd]. subst s0. now rewrite ensure_loaded_idem.
Qed.

Lemma delete_removes_exactly_one_witness :
  Dict.keys
    (_tasks (fst (delete_task
       (registry_of [sample_job_at "a" 1 None; sample_job_at "b" 2 None;
                     sample_job_at "c" 3 None]) [] "video_b")))
  = ["video_a"; "video_c"] /\
  Dict.get "video_b"
    (_tasks (fst (delete_task
       (registry_of [sample_job_at "a" 1 None; sample_job_at "b" 2 None;
                     sample_job_at "c" 3 None]) [] "video_b"))) = None.
Proof.
  split; [reflexivity|].
  refine (proj1 (proj2 (delete_removes_exactly_one
    (registry_of [sample_job_at "a" 1 None; sample_job_at "b" 2 None;
                  sample_job_at "c" 3 None]) [] "video_b" _))).
  repeat constructor; simpl; intuition discriminate.
Defined.

(** ** The worker and the registry *)

Lemma keys_set_present {V : Type} (d : dict V) k v v' :
  Dict.get k d = Some v' -> Dict.keys (Dict.set k v d) = Dict.keys d.
Proof.
  intros Hg. rewrite keys_set.
  destruct (in_dec string_dec k (Dict.keys d)) as [_|Hn]; [reflexivity|].
  apply get_None_keys in Hn. congruence.
Qed.

(** X4: a worker run touches one job only.  The ids of the registry and
    their order stay, every job other than the worker's own is as it was,
    the worker's own job keeps its id, creation time, expiry and request
    fields, and a run for an id that is no longer stored changes nothing
    at all (not even the dirty flag). *)
Theorem worker_touches_only_its_job :
  forall s tid out now,
    let s' := _process_task s tid out now in
    Dict.keys (_tasks s') = Dict.keys (_tasks s) /\
    _loaded s' = _loaded s /\
    (forall k, k <> tid -> Dict.get k (_tasks s') = Dict.get k (_tasks s)) /\
    (Dict.get tid (_tasks s) = None -> s' = s) /\
    (forall t, Dict.get tid (_tasks s) = Some t ->
       exists t', Dict.get tid (_tasks s') = Some t' /\
         id t' = id t /\ created_at t' = created_at t /\
         expires_at t' = expires_at t /\ model t' = model t /\
         prompt t' = prompt t /\ size t' = size t /\ seconds t' = seconds t /\
         user t' = user t /\ input_reference t' = input_reference t /\
         remixed_from_video_id t' = remixed_from_video_id t /\
         _save_pending s' = true).
Proof.
  intros s tid out now s'. subst s'.
  split; [|split; [apply process_task_loaded|split; [|split]]].
  - unfold _process_task. destruct (Dict.get tid (_tasks s)) as [t|] eqn:Hg;
      [|reflexivity].
    cbn [_tasks _mark_dirty]. exact (keys_set_present _ _ _ _ Hg).
  - intros k Hk. rewrite process_task_lookup.
    apply not_eq_sym, String.eqb_neq in Hk. now rewrite Hk.
  - intros Hg. unfold _process_task. now rewrite Hg.
  - intros t Hg. exists (run_worker out now t).
    split; [now rewrite process_task_lookup, String.eqb_refl, Hg|].
    pose proof (run_worker_frame out now t) as Hframe. cbv zeta in Hframe.
    unfold _process_task. rewrite Hg. cbn [_save_pending _mark_dirty].
    tauto.
Qed.

(** X5: the states of a created job that a reader can see, in order:
    queued with progress 0 until the worker starts, in progress with 30
    while the provider call is awaited, then completed with 100 or failed.
    The progress never goes down, and a failed job keeps the progress it
    had reached: 30 when the provider call raised, 80 when its result
    could not be used. *)
Theorem worker_progress_never_decreases :
  forall s env p m r sec sz u out now,
    let t0 := snd (create_task s env p m r sec sz u) in
    let t1 := worker_begin t0 in
    let t2 := worker_finish out now t1 in
    status t0 = "queued" /\ progress t0 = 0 /\
    status t1 = "in_progress" /\ progress t1 = 30 /\
    progress t0 <= progress t1 <= progress t2 /\
    (status t2 = "completed" <-> progress t2 = 100) /\
    (status t2 = "failed" <-> progress t2 = 30 \/ progress t2 = 80) /\
    (forall msg, out = CallRaised msg -> status t2 = "failed" /\ progress t2 = 30) /\
    (forall msg, out = ResultRaised msg -> status t2 = "failed" /\ progress t2 = 80) /\
    (forall content media_urls, out = Returned content media_urls ->
       extract_video_url content media_urls = None ->
       status t2 = "failed" /\ progress t2 = 80).
Proof.
  intros s env p m r sec sz u out now t0 t1 t2.
  assert (H0 : progress t0 = 0) by reflexivity.
  assert (H1 : progress t1 = 30) by reflexivity.
  split; [reflexivity|]. split; [reflexivity|].
  split; [reflexivity|]. split; [reflexivity|].
  assert (Hcases :
    (status t2 = "failed" /\ progress t2 = 30 /\ exists msg, out = CallRaised msg) \/
    (status t2 = "failed" /\ progress t2 = 80 /\ forall msg, out <> CallRaised msg) \/
    (status t2 = "completed" /\ progress t2 = 100 /\
     exists c l u', out = Returned c l /\ extract_video_url c l = Some u')).
  { subst t2. destruct out as [msg|msg|content media_urls].
    - left. repeat split. now exists msg.
    - right. left. repeat split. discriminate.
    - rewrite worker_finish_returned.
      destruct (extract_video_url content media_urls) as [url|] eqn:He.
      + right. right. cbv zeta.
        destruct (Str.contains "/images/" url);
          (split; [reflexivity|]; split; [reflexivity|];
           exists content, media_urls, url; auto).
      + right. left. repeat split. discriminate. }
  rewrite H0, H1.
  destruct Hcases as [[Hs [Hp [msg0 Ho]]]|[[Hs [Hp Hnc]]|[Hs [Hp [c [l [u' [Ho He]]]]]]]];
    rewrite Hs, Hp.
  - subst out.
    split; [lia|]. split; [split; intros H; [discriminate | lia]|].
    split; [split; auto|].
    split; [auto|]. split; intros; discriminate.
  - split; [lia|]. split; [split; intros H; [discriminate | lia]|].
    split; [split; auto|].
    split; [intros msg Ho; exfalso; exact (Hnc msg Ho)|].
    split; auto.
  - subst out.
    split; [lia|]. split; [split; auto|].
    split; [split; [discriminate | intros [H|H]; lia]|].
    split; [intros; discriminate|]. split; [intros; discriminate|].
    intros content media_urls Heq Hnone. injection Heq as <- <-. congruence.
Qed.

(** ** What holds in every state the service can reach *)

Lemma new_job_consistent hex now m p r sec sz e u :
  job_consistent (new_VideoTask hex now m p r sec sz e u).
Proof.
  unfold job_consistent. simpl.
  repeat split; auto; try lia; discriminate.
Qed.

Lemma run_worker_consistent out now t : job_consistent (run_worker out now t).
Proof.
  unfold job_consistent, run_worker.
  destruct out as [msg|msg|content media_urls].
  - simpl. repeat split; auto; try lia; discriminate.
  - simpl. repeat split; auto; try lia; discriminate.
  - rewrite worker_finish_returned.
    pose proof (extract_video_url_truthy content media_urls) as Htruthy.
    destruct (extract_video_url content media_urls) as [url|].
    + destruct (Str.contains "/images/" url); simpl;
        repeat split; auto; try lia; try discriminate.
    + simpl. repeat split; auto; try lia; discriminate.
Qed.

Lemma stamp_consistent src t :
  job_consistent t -> job_consistent (set_remixed_from_video_id src t).
Proof. intros H. exact H. Qed.

Lemma registry_sound_nil : registry_sound [].
Proof. split; [apply registry_ok_nil | constructor]. Qed.

Lemma registry_sound_set d t :
  registry_sound d -> job_consistent t -> registry_sound (Dict.set (id t) t d).
Proof.
  intros [Hok Hall] Ht. split; [now apply registry_ok_set | now apply Forall_set].
Qed.

Lemma registry_sound_filter d p :
  registry_sound d -> registry_sound (filter p d).
Proof.
  intros [Hok Hall].
  split; [now apply registry_ok_filter | now apply Forall_filter_keeps].
Qed.

Lemma registry_sound_ensure_loaded s disk :
  registry_sound (_tasks s) -> registry_sound disk ->
  registry_sound (_tasks (ensure_loaded s disk)).
Proof. intros Hs Hd. unfold ensure_loaded. now destruct (_loaded s). Qed.

Lemma registry_sound_create s env p m r sec sz u :
  registry_sound (_tasks (ensure_loaded s (disk env))) ->
  registry_sound (_tasks (fst (create_task s env p m r sec sz u))).
Proof.
  intros Hok. simpl. unfold insert_and_evict.
  set (t := new_VideoTask _ _ _ _ _ _ _ _ _).
  assert (Hset : registry_sound (Dict.set (id t) t (_tasks (ensure_loaded s (disk env)))))
    by (apply registry_sound_set; [exact Hok | apply new_job_consistent]).
  destruct (_max_tasks <? _); [|exact Hset].
  rewrite cleanup_is_filter by apply Hset. now apply registry_sound_filter.
Qed.

Lemma registry_sound_process s tid out now :
  registry_sound (_tasks s) -> registry_sound (_tasks (_process_task s tid out now)).
Proof.
  intros Hok. unfold _process_task.
  destruct (Dict.get tid (_tasks s)) as [t|] eqn:Hg; [|exact Hok].
  simpl. pose proof (registry_ok_stored _ _ _ (proj1 Hok) Hg) as Hid.
  destruct (run_worker_frame out now t) as [Hid' _].
  rewrite <- Hid, <- Hid'.
  apply registry_sound_set; [exact Hok | apply run_worker_consistent].
Qed.

Lemma step_keeps_sound s s' :
  Step s s' ->
  registry_sound (_tasks s) /\ (_loaded s = false -> _tasks s = []) ->
  registry_sound (_tasks s') /\ (_loaded s' = false -> _tasks s' = []).
Proof.
  intros Hstep [Hs Hunloaded].
  destruct Hstep as [s env p m r sec sz u Hd | s tid out now | s disk tid Hd
                    | s disk limit after order by_user Hd | s disk tid Hd
                    | s env src_id new_prompt Hd].
  - split.
    + apply registry_sound_create. now apply registry_sound_ensure_loaded.
    + rewrite create_task_loaded. discriminate.
  - split; [now apply registry_sound_process|].
    rewrite process_task_loaded. intros Hl.
    unfold _process_task. rewrite (Hunloaded Hl). simpl. now apply Hunloaded.
  - split; [now apply registry_sound_ensure_loaded|].
    simpl. rewrite ensure_loaded_loaded. discriminate.
  - split; [now apply registry_sound_ensure_loaded|].
    simpl. rewrite ensure_loaded_loaded. discriminate.
  - pose proof (registry_sound_ensure_loaded s disk Hs Hd) as Hl.
    unfold delete_task.
    destruct (Dict.get tid (_tasks (ensure_loaded s disk))); cbn [fst].
    + split.
      * cbn [_tasks _mark_dirty]. rewrite del_filter by apply Hl.
        now apply registry_sound_filter.
      * cbn [_loaded _mark_dirty]. rewrite ensure_loaded_loaded. discriminate.
    + split; [exact Hl|]. rewrite ensure_loaded_loaded. discriminate.
  - pose proof (registry_sound_ensure_loaded s (disk env) Hs Hd) as Hl.
    unfold remix_task, get_task.
    destruct (Dict.get src_id (_tasks (ensure_loaded s (disk env)))) as [src|].
    2: { split; [exact Hl|]. cbn [fst]. rewrite ensure_loaded_loaded. discriminate. }
    destruct (negb (status src =? Status.COMPLETED)%string).
    { split; [exact Hl|]. cbn [fst]. rewrite ensure_loaded_loaded. discriminate. }
    rewrite create_task_after_load.
    pose proof (registry_sound_create s env new_prompt (model src) (video_url src)
                  (seconds src) (size src) (user src) Hl) as Hcreated.
    pose proof (new_job_consistent (uuid_hex env) (time_created env)
                  (_map_to_grok_model (model src)) new_prompt (video_url src)
                  (seconds src) (size src)
                  (Some (time_expiry env + _task_expire_hours * 3600)) (user src))
      as Hnew.
    pose proof (create_task_loaded s env new_prompt (model src) (video_url src)
                  (seconds src) (size src) (user src)) as Hloaded.
    destruct (create_task s env new_prompt (model src) (video_url src)
                (seconds src) (size src) (user src)) as [s1 t] eqn:Hc.
    assert (Ht : t = new_VideoTask (uuid_hex env) (time_created env)
                  (_map_to_grok_model (model src)) new_prompt (video_url src)
                  (seconds src) (size src)
                  (Some (time_expiry env + _task_expire_hours * 3600)) (user src)).
    { unfold create_task in Hc. now injection Hc as _ <-. }
    cbn [fst snd] in *. split.
    + cbn [_tasks _mark_dirty]. unfold stamp_remix.
      destruct (Dict.get (id t) (_tasks s1)); [|exact Hcreated].
      apply (registry_sound_set _ (set_remixed_from_video_id (Some src_id) t) Hcreated).
      apply stamp_consistent. now rewrite Ht.
    + cbn [_loaded _mark_dirty]. rewrite Hloaded. discriminate.
Qed.

Lemma reachable_sound s :
  Reachable s ->
  registry_sound (_tasks s) /\ (_loaded s = false -> _tasks s = []).
Proof.
  induction 1 as [|s s' _ IH Hstep].
  - split; [apply registry_sound_nil | reflexivity].
  - exact (step_keeps_sound s s' Hstep IH).
Qed.

(** X6: in every state the service can reach from its initial state by
    public operations and worker runs, no id is stored twice, every job
    is stored under its own id (so ids are unique among the jobs), and
    every stored job is consistent: its status is one of the four, its
    progress lies between 0 and 100, a completed job has progress 100 and
    a video URL, a failed job has an error code.  Before the first load
    the registry is empty. *)
Theorem reachable_registry_sound :
  forall s,
    Reachable s ->
    Dict.wf (_tasks s) /\
    NoDup (map id (Dict.values (_tasks s))) /\
    (forall k t, Dict.get k (_tasks s) = Some t -> id t = k /\ job_consistent t) /\
    (_loaded s = false -> _tasks s = []).
Proof.
  intros s Hreach.
  assert (Hinv : registry_sound (_tasks s) /\ (_loaded s = false -> _tasks s = [])).
  { induction Hreach as [|s s' _ IH Hstep].
    - split; [apply registry_sound_nil | reflexivity].
    - exact (step_keeps_sound s s' Hstep IH). }
  destruct Hinv as [[Hok Hall] Hunloaded].
  split; [apply Hok|].
  split; [now apply registry_ok_unique_ids|].
  split; [|exact Hunloaded].
  intros k t Hg. split; [exact (registry_ok_stored _ _ _ Hok Hg)|].
  apply get_In in Hg. rewrite Forall_forall in Hall. exact (Hall _ Hg).
Qed.

Lemma reachable_registry_sound_witness :
  NoDup (map id (Dict.values
    (_tasks (_process_task
       (fst (create_task init (sample_env "0123456789ab" 1700000000)
               "a dog running" "sora-2" None "4" "720x1280" None))
       "video_0123456789ab" (CallRaised "timeout") 1700000100)))).
Proof.
  refine (proj1 (proj2 (reachable_registry_sound _ _))).
  apply (reach_step
           (fst (create_task init (sample_env "0123456789ab" 1700000000)
                   "a dog running" "sora-2" None "4" "720x1280" None))).
  - apply (reach_step init); [apply reach_init|].
    apply step_create. apply registry_sound_nil.
  - apply step_worker.
Defined.

(** ** Eviction in the registries the service builds *)

Lemma built_reachable s : Built s -> Reachable s.
Proof.
  induction 1 as [| s env p m r sec sz u _ IH Hd _ _ | s tid out now _ IH
                  | s disk tid _ IH Hd _
                  | s disk limit after order by_user _ IH Hd _
                  | s disk tid _ IH Hd _
                  | s env src_id new_prompt _ IH Hd _ _].
  - apply reach_init.
  - exact (reach_step _ _ IH (step_create s env p m r sec sz u Hd)).
  - exact (reach_step _ _ IH (step_worker s tid out now)).
  - exact (reach_step _ _ IH (step_get s disk tid Hd)).
  - exact (reach_step _ _ IH (step_list s disk limit after order by_user Hd)).
  - exact (reach_step _ _ IH (step_delete s disk tid Hd)).
  - exact (reach_step _ _ IH (step_remix s env src_id new_prompt Hd)).
Qed.

Lemma no_zero_expiry_stored d k t :
  no_zero_expiry d -> Dict.get k d = Some t -> expires_at t <> Some 0.
Proof.
  intros Hall Hg. unfold no_zero_expiry in Hall. rewrite Forall_forall in Hall.
  exact (Hall _ (get_In _ _ _ Hg)).
Qed.

Lemma no_zero_expiry_ensure_loaded s disk :
  no_zero_expiry (_tasks s) -> no_zero_expiry disk ->
  no_zero_expiry (_tasks (ensure_loaded s disk)).
Proof. intros Hs Hd. unfold ensure_loaded. now destruct (_loaded s). Qed.

Lemma no_zero_expiry_inserted env (d : dict VideoTask) t :
  no_zero_expiry d ->
  expires_at t = Some (time_expiry env + _task_expire_hours * 3600) ->
  time_expiry env <> - 86400 ->
  no_zero_expiry (Dict.set (id t) t d).
Proof.
  intros Hd He Hclock. apply Forall_set; [exact Hd|].
  cbn [snd]. rewrite He. unfold _task_expire_hours. intros [= H]. lia.
Qed.

Lemma no_zero_expiry_create s env p m r sec sz u :
  Dict.wf (_tasks (ensure_loaded s (disk env))) ->
  no_zero_expiry (_tasks (ensure_loaded s (disk env))) ->
  time_expiry env <> - 86400 ->
  no_zero_expiry (_tasks (fst (create_task s env p m r sec sz u))).
Proof.
  intros Hwf Hnz Hclock. simpl. unfold insert_and_evict.
  set (t := new_VideoTask _ _ _ _ _ _ _ _ _).
  assert (Hset : no_zero_expiry (Dict.set (id t) t (_tasks (ensure_loaded s (disk env)))))
    by (apply (no_zero_expiry_inserted env); [exact Hnz | reflexivity | exact Hclock]).
  destruct (_max_tasks <? _); [|exact Hset].
  rewrite cleanup_is_filter by now apply wf_set.
  now apply Forall_filter_keeps.
Qed.

Lemma no_zero_expiry_process s tid out now :
  no_zero_expiry (_tasks s) -> no_zero_expiry (_tasks (_process_task s tid out now)).
Proof.
  intros Hnz. unfold _process_task.
  destruct (Dict.get tid (_tasks s)) as [t|] eqn:Hg; [|exact Hnz].
  cbn [_tasks _mark_dirty]. apply Forall_set; [exact Hnz|]. cbn [snd].
  destruct (run_worker_frame out now t) as [_ [_ [He _]]]. rewrite He.
  exact (no_zero_expiry_stored _ _ _ Hnz Hg).
Qed.

(** What holds in every state the service builds *)
Lemma built_registry s :
  Built s -> registry_sound (_tasks s) /\ no_zero_expiry (_tasks s).
Proof.
  intros Hb. split; [exact (proj1 (reachable_sound s (built_reachable s Hb)))|].
  induction Hb as [| s env p m r sec sz u Hb IH Hd Hz Hclock | s tid out now Hb IH
                   | s disk tid Hb IH Hd Hz
                   | s disk limit after order by_user Hb IH Hd Hz
                   | s disk tid Hb IH Hd Hz
                   | s env src_id new_prompt Hb IH Hd Hz Hclock].
  - constructor.
  - apply no_zero_expiry_create; [|now apply no_zero_expiry_ensure_loaded|exact Hclock].
    apply registry_sound_ensure_loaded; [|exact Hd].
    exact (proj1 (reachable_sound s (built_reachable s Hb))).
  - now apply no_zero_expiry_process.
  - now apply no_zero_expiry_ensure_loaded.
  - now apply no_zero_expiry_ensure_loaded.
  - pose proof (no_zero_expiry_ensure_loaded s disk IH Hz) as Hl.
    assert (Hwf : Dict.wf (_tasks (ensure_loaded s disk))).
    { apply registry_sound_ensure_loaded; [|exact Hd].
      exact (proj1 (reachable_sound s (built_reachable s Hb))). }
    unfold delete_task.
    destruct (Dict.get tid (_tasks (ensure_loaded s disk))); cbn [fst]; [|exact Hl].
    cbn [_tasks _mark_dirty]. rewrite del_filter by exact Hwf.
    now apply Forall_filter_keeps.
  - pose proof (no_zero_expiry_ensure_loaded s (disk env) IH Hz) as Hl.
    assert (Hwf : Dict.wf (_tasks (ensure_loaded s (disk env)))).
    { apply registry_sound_ensure_loaded; [|exact Hd].
      exact (proj1 (reachable_sound s (built_reachable s Hb))). }
    unfold remix_task, get_task.
    destruct (Dict.get src_id (_tasks (ensure_loaded s (disk env)))) as [src|];
      [|exact Hl].
    destruct (negb (status src =? Status.COMPLETED)%string); [exact Hl|].
    rewrite create_task_after_load.
    pose proof (no_zero_expiry_create s env new_prompt (model src) (video_url src)
                  (seconds src) (size src) (user src) Hwf Hl Hclock) as Hcreated.
    destruct (create_task s env new_prompt (model src) (video_url src)
                (seconds src) (size src) (user src)) as [s1 t] eqn:Hc.
    assert (Ht : expires_at t = Some (time_expiry env + _task_expire_hours * 3600)).
    { unfold create_task in Hc. now injection Hc as _ <-. }
    cbn [fst snd] in *. cbn [_tasks _mark_dirty]. unfold stamp_remix.
    destruct (Dict.get (id t) (_tasks s1)); [|exact Hcreated].
    apply Forall_set; [exact Hcreated|]. cbn [snd].
    change (expires_at (set_remixed_from_video_id (Some src_id) t))
      with (expires_at t).
    rewrite Ht. unfold _task_expire_hours. intros [= H]. lia.
Qed.

Lemma sample_key_length i : String.length (sample_key i) = (6 + i)%nat.
Proof.
  unfold sample_key. cbn [append String.length]. do 6 f_equal.
  induction i as [|i IH]; [reflexivity|]. simpl. now f_equal.
Qed.

Lemma sample_disk_keys start n :
  Dict.keys (sample_disk start n) = map sample_key (seq 0 n).
Proof. unfold sample_disk, Dict.keys. rewrite map_map. reflexivity. Qed.

(** The sample file is one the service can have written. *)
Lemma sample_disk_written start n :
  0 <= start ->
  registry_sound (sample_disk start n) /\ no_zero_expiry (sample_disk start n).
Proof.
  intros Hstart.
  assert (Hall : forall P : string * VideoTask -> Prop,
            (forall i, P (sample_key i,
                          sample_job_at (string_of_list_ascii (repeat "a"%char i))
                            (start + Z.of_nat i) None)) ->
            Forall P (sample_disk start n)).
  { intros P HP. unfold sample_disk. apply Forall_forall. intros kv Hin.
    apply in_map_iff in Hin as [i [<- _]]. apply HP. }
  split; [split; [split|]|].
  - unfold Dict.wf. rewrite sample_disk_keys.
    apply Finite.Injective_map_NoDup; [|apply seq_NoDup].
    intros i j Heq. apply (f_equal String.length) in Heq.
    rewrite !sample_key_length in Heq. lia.
  - apply Hall. intros i. reflexivity.
  - apply Hall. intros i. apply new_job_consistent.
  - apply Hall. intros i. cbn. intros [= H]. lia.
Qed.

(** C1: the eviction pass runs inside [create_task] exactly when the
    registry holds more than 1000 jobs after the insertion of the new
    one.  In a registry the service has built it removes exactly the
    stored jobs whose [expires_at] has elapsed: every job with
    [expires_at] earlier than the current time is deleted, every other
    job is kept as it is, in particular every job whose [expires_at] is
    the current time or later, and nothing is added. *)
Theorem eviction_removes_exactly_expired :
  forall s env p m r sec sz u,
    Built s ->
    registry_sound (disk env) -> no_zero_expiry (disk env) ->
    time_expiry env <> - 86400 ->
    let created := create_task s env p m r sec sz u in
    let stored := Dict.set (id (snd created)) (snd created)
                    (_tasks (ensure_loaded s (disk env))) in
    let now := time_cleanup env in
    let kept := _tasks (fst created) in
    (Z.of_nat (List.length stored) <= 1000 -> kept = stored) /\
    (1000 < Z.of_nat (List.length stored) ->
       kept = _cleanup_old_tasks now stored /\
       (forall k t e, Dict.get k stored = Some t -> expires_at t = Some e ->
          e < now -> Dict.get k kept = None) /\
       (forall k t e, Dict.get k stored = Some t -> expires_at t = Some e ->
          now <= e -> Dict.get k kept = Some t) /\
       (forall k t e, Dict.get k stored = Some t -> expires_at t = Some e ->
          now < e -> Dict.get k kept = Some t) /\
       (forall k t, Dict.get k stored = Some t -> expires_at t = None ->
          Dict.get k kept = Some t) /\
       (forall k t, Dict.get k kept = Some t -> Dict.get k stored = Some t) /\
       (forall k, Dict.get k stored = None -> Dict.get k kept = None)).
Proof.
  intros s env p m r sec sz u Hb Hd Hz Hclock created stored now kept.
  destruct (built_registry s Hb) as [Hsound Hnz].
  assert (Hwf0 : Dict.wf (_tasks (ensure_loaded s (disk env))))
    by (apply registry_sound_ensure_loaded; [exact Hsound | exact Hd]).
  assert (Hwf : Dict.wf stored) by now apply wf_set.
  assert (Hzero : no_zero_expiry stored).
  { apply (no_zero_expiry_inserted env);
      [now apply no_zero_expiry_ensure_loaded | reflexivity | exact Hclock]. }
  assert (Hkept : kept = if 1000 <? Z.of_nat (List.length stored)
                         then _cleanup_old_tasks now stored else stored)
    by reflexivity.
  split.
  - intros Hle. rewrite Hkept.
    now destruct (Z.ltb_spec 1000 (Z.of_nat (List.length stored))); [lia|].
  - intros Hlt.
    assert (Hrun : kept = _cleanup_old_tasks now stored).
    { rewrite Hkept.
      now destruct (Z.ltb_spec 1000 (Z.of_nat (List.length stored))); [|lia]. }
    assert (Hget : forall k,
      Dict.get k kept =
      match Dict.get k stored with
      | Some t => if is_expired now t then None else Some t
      | None => None
      end).
    { intros k. rewrite Hrun, cleanup_is_filter, get_filter by exact Hwf.
      cbn [snd]. destruct (Dict.get k stored) as [t|]; [|reflexivity].
      now destruct (is_expired now t). }
    assert (Hexp : forall k t, Dict.get k stored = Some t ->
              is_expired now t = true <->
              exists e, expires_at t = Some e /\ e < now).
    { intros k t Hk. rewrite is_expired_iff.
      pose proof (no_zero_expiry_stored _ _ _ Hzero Hk) as Hne.
      split.
      - intros [e [He [_ Hlt']]]. now exists e.
      - intros [e [He Hlt']]. exists e. split; [exact He|].
        split; [|exact Hlt']. intros ->. now apply Hne. }
    split; [exact Hrun|].
    split; [|split; [|split; [|split; [|split]]]].
    + intros k t e Hk He Hlt'. rewrite Hget, Hk.
      replace (is_expired now t) with true; [reflexivity|].
      symmetry. apply (Hexp k t Hk). now exists e.
    + intros k t e Hk He Hle. rewrite Hget, Hk.
      destruct (is_expired now t) eqn:Hx; [|reflexivity].
      apply (Hexp k t Hk) in Hx as [e' [He' Hlt']]. rewrite He in He'.
      injection He' as <-. lia.
    + intros k t e Hk He Hle. rewrite Hget, Hk.
      destruct (is_expired now t) eqn:Hx; [|reflexivity].
      apply (Hexp k t Hk) in Hx as [e' [He' Hlt']]. rewrite He in He'.
      injection He' as <-. lia.
    + intros k t Hk He. rewrite Hget, Hk.
      destruct (is_expired now t) eqn:Hx; [|reflexivity].
      apply (Hexp k t Hk) in Hx as [e' [He' _]]. rewrite He in He'. discriminate.
    + intros k t. rewrite Hget.
      destruct (Dict.get k stored) as [t'|]; [|discriminate].
      now destruct (is_expired now t').
    + intros k Hk. now rewrite Hget, Hk.
Qed.

Lemma eviction_removes_exactly_expired_witness :
  Dict.get (sample_key 0)
    (_tasks (fst (create_task init
                    (mkCreateEnv (sample_disk 1700000000 1000) "new"
                       1700086401 1700086401 1700086401)
                    "p" "sora-2" None "4" "720x1280" None)))
  = None /\
  Dict.get (sample_key 1)
    (_tasks (fst (create_task init
                    (mkCreateEnv (sample_disk 1700000000 1000) "new"
                       1700086401 1700086401 1700086401)
                    "p" "sora-2" None "4" "720x1280" None)))
  = Some (sample_job_at "a" 1700000001 None).
Proof.
  assert (Hstart : 0 <= 1700000000) by lia.
  destruct (sample_disk_written 1700000000 1000 Hstart) as [Hsound Hzero].
  assert (Hclock : 1700086401 <> - 86400) by lia.
  destruct (eviction_removes_exactly_expired init
              (mkCreateEnv (sample_disk 1700000000 1000) "new"
                 1700086401 1700086401 1700086401)
              "p" "sora-2" None "4" "720x1280" None
              built_init Hsound Hzero Hclock) as [_ Hrun].
  destruct Hrun as [_ [Hgone [Hstays _]]]; [vm_compute; reflexivity|].
  split.
  - apply (Hgone _ (sample_job_at "" 1700000000 None) 1700086400);
      [vm_compute; reflexivity | reflexivity | cbn; lia].
  - apply (Hstays _ _ 1700086401);
      [vm_compute; reflexivity | reflexivity | cbn; lia].
Defined.

(** ** Pages *)

Lemma last_of_rev {A : Type} (l : list A) x :
  hd_error (rev l) = Some x -> exists front, l = (front ++ [x])%list.
Proof.
  intros H. destruct (rev l) as [|y r] eqn:Hr; [discriminate|].
  injection H as ->. exists (rev r).
  rewrite <- (rev_involutive l), Hr. reflexivity.
Qed.

(** What [page_of] cuts the page from: the whole list, or what follows
    the cursor *)
Lemma page_of_cut limit after (tasks : list VideoTask) :
  exists front cut,
    tasks = (front ++ cut)%list /\
    (Str.truthy after = false -> front = []) /\
    (forall X, after = Some X -> X <> "" -> cut = after_cursor X false tasks) /\
    page_of limit after tasks
    = (slice_to limit cut, limit <? Z.of_nat (List.length cut),
       option_map id (hd_error (slice_to limit cut)),
       option_map id (hd_error (rev (slice_to limit cut)))).
Proof.
  unfold page_of. destruct after as [a|].
  - destruct (Str.truthy (Some a)) eqn:Ht.
    + destruct (after_cursor_suffix a tasks) as [front Hfront].
      exists front, (after_cursor a false tasks).
      repeat split; auto; try discriminate. now intros X [= ->] _.
    + exists [], tasks. repeat split; auto.
      intros X [= ->] HX. simpl in Ht. apply negb_false_iff, String.eqb_eq in Ht.
      contradiction.
  - exists [], tasks. repeat split; auto. discriminate.
Qed.

Lemma slice_to_nonneg {A : Type} limit (l : list A) :
  0 <= limit -> slice_to limit l = firstn (Z.to_nat limit) l.
Proof.
  intros H. unfold slice_to. destruct (Z.ltb_spec limit 0); [lia | reflexivity].
Qed.

(** X7: paging with the cursor leaves no gap and repeats nothing.  When
    ids are unique and a call with a positive limit returned a page whose
    last id is [X], the call with [after = X] (same limit, order and user,
    registry unchanged) returns the jobs that directly follow that page in
    the sorted working set, at most [limit] of them; and [has_more] of
    the first call told whether there are any. *)
Theorem list_next_page_continues :
  forall s disk limit after order by_user X,
    let s0 := ensure_loaded s disk in
    NoDup (map id (Dict.values (_tasks s0))) ->
    0 < limit -> X <> "" ->
    let ws := working_set (_tasks s0) order by_user in
    let first_call := list_tasks s disk limit after order by_user in
    snd (snd first_call) = Some X ->
    let second_call := list_tasks (fst first_call) disk limit (Some X) order by_user in
    let page1 := fst (fst (fst (snd first_call))) in
    let page2 := fst (fst (fst (snd second_call))) in
    exists before rest,
      ws = (before ++ page1 ++ rest)%list /\
      page2 = firstn (Z.to_nat limit) rest /\
      (snd (fst (fst (snd first_call))) = true <-> rest <> []) /\
      (forall t, In t page1 -> ~ In t page2).
Proof.
  intros s disk limit after order by_user X s0 Hunique Hlimit HX ws first_call Hlast
    second_call page1 page2.
  assert (Hnd : NoDup (map id ws)) by now apply working_set_unique_ids.
  destruct (page_of_cut limit after ws) as [front [cut [Hws [_ [_ Hpage]]]]].
  assert (Hfirst : snd first_call
            = (slice_to limit cut, limit <? Z.of_nat (List.length cut),
               option_map id (hd_error (slice_to limit cut)),
               option_map id (hd_error (rev (slice_to limit cut)))))
    by exact Hpage.
  assert (Hp1 : page1 = firstn (Z.to_nat limit) cut).
  { subst page1. rewrite Hfirst. cbn [fst]. apply slice_to_nonneg. lia. }
  assert (Hlast' : option_map id (hd_error (rev page1)) = Some X).
  { rewrite Hp1, <- (slice_to_nonneg limit cut) by lia.
    rewrite Hfirst in Hlast. exact Hlast. }
  destruct (hd_error (rev page1)) as [x|] eqn:Hx; [|discriminate].
  injection Hlast' as Hidx.
  destruct (last_of_rev page1 x Hx) as [init Hinit].
  set (rest := skipn (Z.to_nat limit) cut).
  assert (Hcut : cut = (page1 ++ rest)%list)
    by (rewrite Hp1; symmetry; apply firstn_skipn).
  assert (Hws' : ws = ((front ++ init) ++ x :: rest)%list).
  { rewrite Hws, Hcut, Hinit, <- !app_assoc. reflexivity. }
  assert (Hbefore : ~ In X (map id (front ++ init))).
  { rewrite Hws', map_app in Hnd. simpl in Hnd. rewrite Hidx in Hnd.
    intros Hin. apply NoDup_remove_2 in Hnd. apply Hnd.
    apply in_or_app. now left. }
  assert (Hp2 : page2 = firstn (Z.to_nat limit) rest).
  { subst page2 second_call first_call. unfold list_tasks. cbn [fst snd].
    rewrite ensure_loaded_idem. fold s0. fold ws.
    unfold page_of. cbn [fst]. unfold Str.truthy.
    apply String.eqb_neq in HX. rewrite HX. cbn [negb].
    rewrite Hws', (after_cursor_split X (front ++ init) x rest Hidx Hbefore).
    apply slice_to_nonneg. lia. }
  exists front, rest. split; [now rewrite Hws, Hcut|]. split; [exact Hp2|].
  split.
  - rewrite Hfirst. cbn [fst snd]. rewrite Z.ltb_lt.
    assert (Hlen : List.length rest = (List.length cut - Z.to_nat limit)%nat)
      by apply length_skipn.
    destruct rest as [|y rest'] eqn:Hrest.
    + split; [intros H; simpl in Hlen; lia | congruence].
    + split; [discriminate | intros _; simpl in Hlen; lia].
  - intros t Ht1 Ht2.
    rewrite Hws, Hcut, !map_app in Hnd.
    apply NoDup_app_remove_l in Hnd.
    assert (Ht2' : In t rest).
    { rewrite Hp2 in Ht2. rewrite <- (firstn_skipn (Z.to_nat limit) rest).
      apply in_or_app. now left. }
    clear - Hnd Ht1 Ht2'.
    induction page1 as [|y l IH]; [destruct Ht1|].
    simpl in Hnd. inversion Hnd as [|? ? Hn Hnd']; subst.
    destruct Ht1 as [->|Ht1]; [|now apply IH].
    apply Hn. apply in_or_app. right. now apply in_map.
Qed.

Lemma list_next_page_continues_witness :
  fst (fst (fst (snd
    (list_tasks
       (fst (list_tasks
               (registry_of [sample_job_at "a" 1 None; sample_job_at "b" 2 None;
                             sample_job_at "c" 3 None; sample_job_at "d" 4 None])
               [] 2 None "desc" None))
       [] 2 (Some "video_c") "desc" None))))
  = [sample_job_at "b" 2 None; sample_job_at "a" 1 None].
Proof.
  destruct (list_next_page_continues
              (registry_of [sample_job_at "a" 1 None; sample_job_at "b" 2 None;
                            sample_job_at "c" 3 None; sample_job_at "d" 4 None])
              [] 2 None "desc" None "video_c")
    as [before [rest [Hws [Hp2 _]]]].
  - repeat constructor; simpl; intuition discriminate.
  - lia.
  - discriminate.
  - reflexivity.
  - reflexivity.
Defined.

Lemma page_of_unfold limit after (tasks : list VideoTask) :
  let cut := match after with
             | Some a => if Str.truthy after then after_cursor a false tasks else tasks
             | None => tasks
             end in
  page_of limit after tasks
  = (slice_to limit cut, limit <? Z.of_nat (List.length cut),
     option_map id (hd_error (slice_to limit cut)),
     option_map id (hd_error (rev (slice_to limit cut)))) /\
  (List.length cut <= List.length tasks)%nat.
Proof.
  cbv zeta. split; [reflexivity|].
  destruct after as [a|]; [|lia].
  destruct (Str.truthy (Some a)); [|lia].
  destruct (after_cursor_suffix a tasks) as [front Hfront].
  rewrite Hfront at 2. rewrite length_app. lia.
Qed.

Lemma working_set_length d order by_user :
  (List.length (working_set d order by_user) <= List.length d)%nat.
Proof.
  rewrite (Permutation_length (working_set_perm d order by_user)).
  unfold filter_user, Dict.values.
  destruct (Str.truthy by_user).
  - eapply Nat.le_trans; [apply filter_length_le|]. now rewrite length_map.
  - now rewrite length_map.
Qed.

(** X8: the limit cuts a prefix.  With the number of stored jobs as limit
    a call returns everything the cursor leaves, and [has_more] is false;
    with a limit from 0 on, the page is the first [limit] jobs of that
    list (all of it when it is shorter) and [has_more] tells whether it
    was longer; a negative limit drops that many jobs from the end
    instead and always reports [has_more].  [first_id] and [last_id] are
    the ids of the first and last job of the page, absent exactly when
    the page is empty. *)
Theorem list_limit_cuts_prefix :
  forall s disk limit after order by_user,
    let unlimited := Z.of_nat (List.length (_tasks (ensure_loaded s disk))) in
    let all := snd (list_tasks s disk unlimited after order by_user) in
    let full := fst (fst (fst all)) in
    let r := snd (list_tasks s disk limit after order by_user) in
    let page := fst (fst (fst r)) in
    let has_more := snd (fst (fst r)) in
    snd (fst (fst all)) = false /\
    (0 <= limit ->
       page = firstn (Z.to_nat limit) full /\
       Z.of_nat (List.length page) = Z.min limit (Z.of_nat (List.length full)) /\
       (has_more = true <-> limit < Z.of_nat (List.length full))) /\
    (limit < 0 ->
       has_more = true /\
       page = firstn (List.length full - Z.to_nat (- limit)) full) /\
    snd (fst r) = option_map id (hd_error page) /\
    snd r = option_map id (hd_error (rev page)) /\
    (page = [] <-> snd (fst r) = None) /\
    (page = [] <-> snd r = None).
Proof.
  intros s disk limit after order by_user unlimited all full r page has_more.
  set (ws := working_set (_tasks (ensure_loaded s disk)) order by_user).
  destruct (page_of_unfold unlimited after ws) as [Hall Hlen].
  destruct (page_of_unfold limit after ws) as [Hr _].
  set (cut := match after with
              | Some a => if Str.truthy after then after_cursor a false ws else ws
              | None => ws
              end) in *.
  assert (Hbig : (List.length cut <= Z.to_nat unlimited)%nat).
  { subst unlimited. rewrite Nat2Z.id.
    eapply Nat.le_trans; [exact Hlen | apply working_set_length]. }
  assert (Hfull : full = cut).
  { subst full all. unfold list_tasks. cbn [snd]. fold ws. rewrite Hall. cbn [fst].
    rewrite slice_to_nonneg by (subst unlimited; lia).
    now apply firstn_all2. }
  assert (Hrr : r = (slice_to limit cut, limit <? Z.of_nat (List.length cut),
                     option_map id (hd_error (slice_to limit cut)),
                     option_map id (hd_error (rev (slice_to limit cut)))))
    by exact Hr.
  assert (Hpage : page = slice_to limit cut) by (subst page; now rewrite Hrr).
  assert (Hmore : has_more = (limit <? Z.of_nat (List.length cut)))
    by (subst has_more; now rewrite Hrr).
  split.
  { subst all. unfold list_tasks. cbn [snd]. fold ws. rewrite Hall. cbn [fst snd].
    apply Z.ltb_ge. lia. }
  rewrite Hfull.
  split.
  { intros Hpos. rewrite Hpage, Hmore, slice_to_nonneg by exact Hpos.
    split; [reflexivity|]. split; [|apply Z.ltb_lt].
    rewrite length_firstn. lia. }
  split.
  { intros Hneg. rewrite Hpage, Hmore. split; [apply Z.ltb_lt; lia|].
    unfold slice_to. apply Z.ltb_lt in Hneg. rewrite Hneg. f_equal. lia. }
  rewrite Hrr. cbn [fst snd]. rewrite Hpage.
  split; [reflexivity|]. split; [reflexivity|].
  split.
  - destruct (slice_to limit cut); simpl; split; congruence.
  - destruct (slice_to limit cut) as [|x l] eqn:Hs; [split; reflexivity|].
    split; [discriminate|].
    destruct (rev (x :: l)) as [|y l'] eqn:Hrev; [|discriminate].
    apply (f_equal (@rev _)) in Hrev. rewrite rev_involutive in Hrev. discriminate.
Qed.

Lemma filter_user_In by_user tasks t :
  In t (filter_user by_user tasks) <->
  In t tasks /\
  (Str.truthy by_user = true -> exists u, by_user = Some u /\ user t = Some u).
Proof.
  unfold filter_user. destruct by_user as [u|]; simpl.
  - destruct (u =? "")%string eqn:Hu; simpl.
    + split; [intros H; split; [exact H | discriminate] | tauto].
    + rewrite filter_In. split.
      * intros [Hin Hm]. split; [exact Hin|]. intros _. exists u. split; [reflexivity|].
        destruct (user t) as [a|]; [|discriminate].
        apply String.eqb_eq in Hm. now subst.
      * intros [Hin Hm]. split; [exact Hin|].
        destruct (Hm eq_refl) as [u' [[= <-] ->]]. apply String.eqb_refl.
  - split; [intros H; split; [exact H | discriminate] | tauto].
Qed.

(** X9: with a non-empty user the working set is exactly the stored jobs
    of that user, and so every job of the page belongs to that user;
    without a user, and also with the empty string as user, it is every
    stored job, whoever owns it. *)
Theorem list_user_filter :
  forall s disk limit after order by_user,
    let stored := Dict.values (_tasks (ensure_loaded s disk)) in
    let ws := working_set (_tasks (ensure_loaded s disk)) order by_user in
    let page := fst (fst (fst (snd (list_tasks s disk limit after order by_user)))) in
    (forall u, by_user = Some u -> u <> "" ->
       (forall t, In t ws <-> In t stored /\ user t = Some u) /\
       (forall t, In t page -> user t = Some u)) /\
    (by_user = None \/ by_user = Some "" ->
       forall t, In t ws <-> In t stored).
Proof.
  intros s disk limit after order by_user stored ws page.
  assert (Hws : forall t, In t ws <-> In t (filter_user by_user stored)).
  { intros t. split; apply Permutation_in;
      [apply working_set_perm | apply Permutation_sym, working_set_perm]. }
  assert (Hpage : forall t, In t page -> In t ws).
  { intros t Ht. destruct (page_is_segment limit after ws) as [pre [post Heq]].
    rewrite Heq. apply in_or_app. right. apply in_or_app. now left. }
  split.
  - intros u -> Hu.
    assert (Htruthy : Str.truthy (Some u) = true)
      by (simpl; now apply negb_true_iff, String.eqb_neq).
    assert (Hiff : forall t, In t ws <-> In t stored /\ user t = Some u).
    { intros t. rewrite Hws, filter_user_In. split.
      - intros [Hin Hm]. destruct (Hm Htruthy) as [u' [[= <-] Hu']]. auto.
      - intros [Hin Hm]. split; [exact Hin|]. intros _. now exists u. }
    split; [exact Hiff|]. intros t Ht. now apply Hiff, Hpage.
  - intros Hnone t. rewrite Hws, filter_user_In.
    assert (Htruthy : Str.truthy by_user = false)
      by (destruct Hnone as [->| ->]; reflexivity).
    rewrite Htruthy. split; [tauto | intros H; split; [exact H | discriminate]].
Qed.

(** ** The public view of a job *)

Lemma get_cond_set {V : Type} (b : bool) k k' (v : V) d :
  Dict.get k' (if b then Dict.set k v d else d)
  = if b && (k =? k')%string then Some v else Dict.get k' d.
Proof.
  destruct b; [|reflexivity]. rewrite get_set. reflexivity.
Qed.

Lemma keys_cond_set_incl {V : Type} (b : bool) k (v : V) d allowed :
  incl (Dict.keys d) allowed -> In k allowed ->
  incl (Dict.keys (if b then Dict.set k v d else d)) allowed.
Proof.
  intros Hd Hk. destruct b; [|exact Hd].
  rewrite keys_set. destruct (in_dec string_dec k (Dict.keys d)); [exact Hd|].
  apply incl_app; [exact Hd|]. intros x [<-|[]]. exact Hk.
Qed.

Ltac response_lookup :=
  unfold to_openai_response; cbv zeta;
  rewrite !get_cond_set;
  cbn [String.eqb Ascii.eqb Bool.eqb Dict.get];
  rewrite ?andb_false_r, ?andb_true_r.

(** X10: what [to_openai_response] shows of a job.  The nine base keys
    are always there, the model under its public name; [prompt],
    [completed_at], [expires_at], [remixed_from_video_id], [video_url] and
    [thumbnail_url] are there exactly when the field is set and neither
    empty nor 0; [error] is there exactly when a code or a message is,
    the missing one replaced by a default.  No other key occurs: the
    credential, the user, the input reference and the cache path of a job
    are never shown. *)
Theorem to_openai_response_keys :
  forall t,
    let r := to_openai_response t in
    Dict.get "id" r = Some (PStr (id t)) /\
    Dict.get "object" r = Some (PStr "video") /\
    Dict.get "model" r
      = Some (PStr (if (model t =? "grok-imagine-0.9")%string then "sora-2" else model t)) /\
    Dict.get "status" r = Some (PStr (status t)) /\
    Dict.get "progress" r = Some (PInt (progress t)) /\
    Dict.get "created_at" r = Some (PInt (created_at t)) /\
    Dict.get "size" r = Some (PStr (size t)) /\
    Dict.get "seconds" r = Some (PStr (seconds t)) /\
    Dict.get "quality" r = Some (PStr (quality t)) /\
    Dict.get "prompt" r
      = (if (prompt t =? "")%string then None else Some (PStr (prompt t))) /\
    Dict.get "completed_at" r
      = (if truthy_int (completed_at t) then Some (opt_int (completed_at t)) else None) /\
    Dict.get "expires_at" r
      = (if truthy_int (expires_at t) then Some (opt_int (expires_at t)) else None) /\
    Dict.get "error" r
      = (if Str.truthy (error_code t) || Str.truthy (error_message t)
         then Some (PDict
                [("code", PStr (str_or (error_code t) "unknown_error"));
                 ("message", PStr (str_or (error_message t) "Unknown error occurred"))])
         else None) /\
    Dict.get "remixed_from_video_id" r
      = (if Str.truthy (remixed_from_video_id t)
         then Some (opt_str (remixed_from_video_id t)) else None) /\
    Dict.get "video_url" r
      = (if Str.truthy (video_url t) then Some (opt_str (video_url t)) else None) /\
    Dict.get "thumbnail_url" r
      = (if Str.truthy (thumbnail_url t) then Some (opt_str (thumbnail_url t)) else None) /\
    incl (Dict.keys r)
      ["id"; "object"; "model"; "status"; "progress"; "created_at"; "size";
       "seconds"; "quality"; "prompt"; "completed_at"; "expires_at"; "error";
       "remixed_from_video_id"; "video_url"; "thumbnail_url"] /\
    Dict.get "sso_token" r = None /\ Dict.get "user" r = None /\
    Dict.get "input_reference" r = None /\ Dict.get "video_path" r = None.
Proof.
  intros t r. subst r.
  repeat match goal with
         | |- _ /\ _ => split
         end.
  17: { unfold to_openai_response. cbv zeta.
        repeat (apply keys_cond_set_incl; [|simpl; tauto]).
        intros x Hx. simpl in Hx. simpl. tauto. }
  all: response_lookup; try reflexivity.
  - unfold _map_model_name. cbn [Dict.get]. rewrite (String.eqb_sym (model t)).
    now destruct ("grok-imagine-0.9" =? model t)%string.
  - now destruct (prompt t =? "")%string.
Qed.

Lemma response_error t :
  Dict.get "error" (to_openai_response t)
  = if Str.truthy (error_code t) || Str.truthy (error_message t)
    then Some (PDict
           [("code", PStr (str_or (error_code t) "unknown_error"));
            ("message", PStr (str_or (error_message t) "Unknown error occurred"))])
    else None.
Proof. response_lookup. reflexivity. Qed.

Lemma response_video_url t :
  Dict.get "video_url" (to_openai_response t)
  = if Str.truthy (video_url t) then Some (opt_str (video_url t)) else None.
Proof. response_lookup. reflexivity. Qed.

Lemma response_status t :
  Dict.get "status" (to_openai_response t) = Some (PStr (status t)).
Proof. response_lookup. reflexivity. Qed.

Lemma response_progress t :
  Dict.get "progress" (to_openai_response t) = Some (PInt (progress t)).
Proof. response_lookup. reflexivity. Qed.

Lemma response_completed_at t :
  Dict.get "completed_at" (to_openai_response t)
  = if truthy_int (completed_at t) then Some (opt_int (completed_at t)) else None.
Proof. response_lookup. reflexivity. Qed.

Lemma response_model_internal t :
  model t = "grok-imagine-0.9" ->
  Dict.get "model" (to_openai_response t) = Some (PStr "sora-2").
Proof.
  intros Hm. response_lookup. unfold _map_model_name. now rewrite Hm.
Qed.

Example response_of_failed_job :
  to_openai_response (run_worker (CallRaised "") 1700000100 sample_job)
  = [("id", PStr "video_0123456789ab"); ("object", PStr "video");
     ("model", PStr "sora-2"); ("status", PStr "failed"); ("progress", PInt 30);
     ("created_at", PInt 1700000000); ("size", PStr "720x1280");
     ("seconds", PStr "4"); ("quality", PStr "standard");
     ("prompt", PStr "a dog running"); ("expires_at", PInt 1700086400);
     ("error", PDict [("code", PStr "generation_error");
                      ("message", PStr "Unknown error occurred")])].
Proof. vm_compute. reflexivity. Qed.

(** X11: what a client sees of a job made by [create_task].  The model
    is always shown as [sora-2], whatever model was asked for.  Fresh, the
    job shows as queued with progress 0 and neither error nor video URL.
    After the worker, a completed job shows progress 100 and its video
    URL and no error; a failed job shows an error with one of the two
    codes and a non-empty message, the text [Unknown error occurred] when
    the exception had none, and shows no video URL. *)
Theorem created_job_response :
  forall s env p m r sec sz u out now,
    let created := snd (create_task s env p m r sec sz u) in
    let t := run_worker out now created in
    let fresh_view := to_openai_response created in
    let view := to_openai_response t in
    Dict.get "model" fresh_view = Some (PStr "sora-2") /\
    Dict.get "status" fresh_view = Some (PStr "queued") /\
    Dict.get "progress" fresh_view = Some (PInt 0) /\
    Dict.get "error" fresh_view = None /\
    Dict.get "video_url" fresh_view = None /\
    Dict.get "completed_at" fresh_view = None /\
    Dict.get "model" view = Some (PStr "sora-2") /\
    (Dict.get "status" view = Some (PStr "completed") \/
     Dict.get "status" view = Some (PStr "failed")) /\
    (Dict.get "status" view = Some (PStr "completed") ->
       Dict.get "progress" view = Some (PInt 100) /\
       (exists url, url <> "" /\ Dict.get "video_url" view = Some (PStr url)) /\
       Dict.get "error" view = None /\
       (now <> 0 -> Dict.get "completed_at" view = Some (PInt now))) /\
    (Dict.get "status" view = Some (PStr "failed") ->
       (exists code message,
          Dict.get "error" view
          = Some (PDict [("code", PStr code); ("message", PStr message)]) /\
          (code = "no_video_generated" \/ code = "generation_error") /\
          message <> "") /\
       Dict.get "video_url" view = None /\
       Dict.get "completed_at" view = None) /\
    (out = CallRaised "" \/ out = ResultRaised "" ->
       Dict.get "error" view
       = Some (PDict [("code", PStr "generation_error");
                      ("message", PStr "Unknown error occurred")])).
Proof.
  intros s env p m r sec sz u out now created t fresh_view view.
  assert (Hmodel : model created = "grok-imagine-0.9")
    by apply map_to_grok_model_default.
  assert (Hmodel' : model t = "grok-imagine-0.9").
  { subst t. destruct (run_worker_frame out now created) as [_ [_ [_ [Hm _]]]].
    now rewrite Hm. }
  subst fresh_view view.
  rewrite !response_model_internal by assumption.
  rewrite !response_status, !response_progress, !response_error,
    !response_video_url, !response_completed_at.
  split; [reflexivity|]. split; [reflexivity|]. split; [reflexivity|].
  split; [reflexivity|]. split; [reflexivity|]. split; [reflexivity|].
  split; [reflexivity|].
  subst t. unfold run_worker.
  destruct out as [msg|msg|content media_urls].
  - cbn [worker_finish fail_with worker_begin status progress error_code
         error_message video_url completed_at set_status set_progress
         set_error_code set_error_message created create_task snd new_VideoTask
         Status.FAILED Str.truthy orb negb String.eqb Ascii.eqb Bool.eqb str_or
         truthy_int].
    split; [now right|]. split; [discriminate|].
    split.
    + intros _. split; [|split; reflexivity].
      exists "generation_error", (if (msg =? "")%string then "Unknown error occurred" else msg).
      split; [reflexivity|]. split; [now right|].
      destruct (msg =? "")%string eqn:Hm; [discriminate | now apply String.eqb_neq].
    + intros [[= ->]|[=]]. reflexivity.
  - cbn [worker_finish fail_with worker_begin status progress error_code
         error_message video_url completed_at set_status set_progress
         set_error_code set_error_message created create_task snd new_VideoTask
         Status.FAILED Str.truthy orb negb String.eqb Ascii.eqb Bool.eqb str_or
         truthy_int].
    split; [now right|]. split; [discriminate|].
    split.
    + intros _. split; [|split; reflexivity].
      exists "generation_error", (if (msg =? "")%string then "Unknown error occurred" else msg).
      split; [reflexivity|]. split; [now right|].
      destruct (msg =? "")%string eqn:Hm; [discriminate | now apply String.eqb_neq].
    + intros [[=]|[= ->]]. reflexivity.
  - rewrite worker_finish_returned.
    pose proof (extract_video_url_truthy content media_urls) as Htruthy.
    destruct (extract_video_url content media_urls) as [url|].
    + assert (Hurl : (url =? "")%string = false)
        by (simpl in Htruthy; now apply negb_true_iff in Htruthy).
      destruct (Str.contains "/images/" url);
        cbn [worker_begin status progress error_code error_message video_url
             completed_at set_status set_progress set_video_url set_video_path
             set_completed_at created create_task snd new_VideoTask
             Status.COMPLETED Str.truthy orb negb truthy_int opt_str opt_int];
        rewrite Hurl; cbn [negb];
        (split; [now left|]);
        (split; [|split; [discriminate | intros [H|H]; discriminate]]);
        intros _; (split; [reflexivity|]);
        (split; [exists url; split; [now apply String.eqb_neq | reflexivity]|]);
        (split; [reflexivity|]);
        intros Hnow; apply Z.eqb_neq in Hnow; now rewrite Hnow.
    + cbn [fail_with worker_begin status progress error_code
           error_message video_url completed_at set_status set_progress
           set_error_code set_error_message created create_task snd new_VideoTask
           Status.FAILED Str.truthy orb negb String.eqb Ascii.eqb Bool.eqb str_or
           truthy_int].
      split; [now right|]. split; [discriminate|].
      split; [|intros [H|H]; discriminate].
      intros _. split; [|split; reflexivity].
      eexists _, _. split; [reflexivity|]. split; [now left | discriminate].
Qed.

(** ** Saving *)

Example saved_data_of_one_job :
  save_snapshot (mkRuntime (registry_of [sample_job_at "a" 1 (Some "ann")]) false true
                   FileMissing) 1700000300
  = PDict
      [("tasks",
        PDict [("video_a", PDict (instance_of (sample_job_at "a" 1 (Some "ann"))))]);
       ("meta", PDict [("total_count", PInt 1); ("last_save", PInt 1700000300)])].
Proof. vm_compute. reflexivity. Qed.

(** X12: what [_save_tasks] writes is read back by [_load_tasks], in a
    fresh process, as the registry it was taken from: the same ids in the
    same order, each with an object that has the saved job's value in
    every field.  The file also records the number of jobs and the time
    of the save, and saving does not change the service. *)
Theorem save_then_load_roundtrip :
  forall rt now factory,
    Dict.wf (_tasks (service rt)) ->
    let rt' := _save_tasks rt now Written in
    service rt' = service rt /\
    _load_tasks factory (task_file rt') init
    = mkService (map (fun kv => (fst kv, instance_of (snd kv))) (_tasks (service rt)))
        true false /\
    (forall data, task_file rt' = FileParsed data ->
       py_get data "meta" PNone
       = Ok (PDict [("total_count", PInt (Z.of_nat (List.length (_tasks (service rt)))));
                    ("last_save", PInt now)])).
Proof.
  intros rt now factory Hwf rt'. subst rt'.
  split; [reflexivity|]. split.
  - unfold _save_tasks, save_write, save_snapshot. cbn [task_file].
    now apply load_after_save.
  - intros data [= <-]. reflexivity.
Qed.

Lemma save_then_load_roundtrip_witness :
  _load_tasks (fun _ => ("ffffffffffff", 0))
    (task_file
       (_save_tasks
          (mkRuntime (registry_of [sample_job_at "a" 1 (Some "ann");
                                   sample_job_at "b" 2 None]) false true FileMissing)
          1700000300 Written))
    init
  = mkService
      [("video_a", instance_of (sample_job_at "a" 1 (Some "ann")));
       ("video_b", instance_of (sample_job_at "b" 2 None))]
      true false.
Proof.
  refine (proj1 (proj2 (save_then_load_roundtrip
    (mkRuntime (registry_of [sample_job_at "a" 1 (Some "ann");
                             sample_job_at "b" 2 None]) false true FileMissing)
    1700000300 (fun _ => ("ffffffffffff", 0)) _))).
  repeat constructor; simpl; intuition discriminate.
Defined.

Lemma saver_round_settled rt now w :
  saver_due rt = false -> saver_round rt now w = rt.
Proof. unfold saver_round. now intros ->. Qed.

Lemma saver_due_after_finish data w rt :
  saver_due (saver_round_finish data w rt) = false.
Proof. unfold saver_round_finish, saver_due. now destruct w. Qed.

(** X13: one round of the saver.  When nothing is pending, or the
    service is shutting down, the round does nothing.  Otherwise it
    writes the registry and clears the pending flag, also when the write
    failed and the file is as it was or is left unreadable.  So a failed
    save is not repeated: the rounds that follow do nothing until an
    operation marks the registry dirty again.  A round never changes the
    registry. *)
Theorem saver_round_clears_flag :
  forall rt now w,
    let rt' := saver_round rt now w in
    _tasks (service rt') = _tasks (service rt) /\
    _loaded (service rt') = _loaded (service rt) /\
    _shutdown rt' = _shutdown rt /\
    (_save_pending (service rt) = false \/ _shutdown rt = true -> rt' = rt) /\
    (_save_pending (service rt) = true -> _shutdown rt = false ->
       _save_pending (service rt') = false /\
       (w = Written ->
          task_file rt' = FileParsed (save_data (_tasks (service rt)) now)) /\
       (forall e, w = NotWritten e -> task_file rt' = task_file rt) /\
       (forall e, w = Truncated e -> task_file rt' = FileUnparseable e)) /\
    (forall now' w', saver_round rt' now' w' = rt').
Proof.
  intros rt now w rt'. subst rt'. unfold saver_round.
  destruct (saver_due rt) eqn:Hdue.
  - apply andb_true_iff in Hdue as [Hp Hs]. apply negb_true_iff in Hs.
    split; [now destruct w|]. split; [now destruct w|]. split; [now destruct w|].
    split; [intros [H|H]; congruence|].
    split.
    + intros _ _. split; [now destruct w|].
      split; [now intros ->|]. split; now intros e ->.
    + intros now' w'. apply saver_round_settled, saver_due_after_finish.
  - split; [reflexivity|]. split; [reflexivity|]. split; [reflexivity|].
    split; [reflexivity|]. split.
    + intros Hp Hs. unfold saver_due in Hdue. rewrite Hp, Hs in Hdue. discriminate.
    + intros now' w'. now apply saver_round_settled.
Qed.

Lemma with_service_due s rt :
  saver_due (with_service s rt) = _save_pending s && negb (_shutdown rt).
Proof. reflexivity. Qed.

(** X14: a worker that finishes while a save is being written loses its
    result for the file.  The data of the save was taken before, so the
    file holds the job as it was; the saver then clears the pending flag
    that the worker had set, so no later round writes anything, and
    neither does [shutdown]: until some other operation marks the
    registry dirty, the finished job exists in memory only. *)
Theorem update_during_save_is_lost :
  forall rt now tid out done t,
    saver_due rt = true ->
    Dict.get tid (_tasks (service rt)) = Some t ->
    let data := save_snapshot rt now in
    let during := with_service (_process_task (service rt) tid out done) rt in
    let after := saver_round_finish data Written during in
    Dict.get tid (_tasks (service after)) = Some (run_worker out done t) /\
    status (run_worker out done t) <> status (worker_begin t) /\
    task_file after = FileParsed (save_data (_tasks (service rt)) now) /\
    _save_pending (service during) = true /\
    _save_pending (service after) = false /\
    (forall now' w', saver_round after now' w' = after) /\
    (forall now' w', task_file (shutdown after now' w') = task_file after).
Proof.
  intros rt now tid out done t Hdue Hg data during after.
  subst after during data.
  split.
  { cbn [saver_round_finish save_write clear_pending with_service service _tasks].
    now rewrite process_task_lookup, String.eqb_refl, Hg. }
  split.
  { destruct (run_worker_consistent out done t) as [_ _].
    unfold run_worker. destruct out as [msg|msg|content media_urls];
      try discriminate.
    rewrite worker_finish_returned.
    destruct (extract_video_url content media_urls) as [url|]; [|discriminate].
    cbv zeta. destruct (Str.contains "/images/" url); discriminate. }
  split; [reflexivity|].
  split.
  { cbn [with_service service]. unfold _process_task. now rewrite Hg. }
  split; [reflexivity|].
  split.
  { intros now' w'. apply saver_round_settled, saver_due_after_finish. }
  intros now' w'. reflexivity.
Qed.

Lemma update_during_save_is_lost_witness :
  task_file
    (saver_round_finish
       (save_snapshot
          (mkRuntime (mkService [("video_a", worker_begin (sample_job_at "a" 1 None))]
                        true true) false true FileMissing) 1700000300)
       Written
       (with_service
          (_process_task
             (mkService [("video_a", worker_begin (sample_job_at "a" 1 None))] true true)
             "video_a" (Returned (sample_video_tag "https://h/v.mp4") []) 1700000301)
          (mkRuntime (mkService [("video_a", worker_begin (sample_job_at "a" 1 None))]
                        true true) false true FileMissing)))
  = FileParsed
      (save_data [("video_a", worker_begin (sample_job_at "a" 1 None))] 1700000300).
Proof.
  exact (proj1 (proj2 (proj2 (update_during_save_is_lost
    (mkRuntime (mkService [("video_a", worker_begin (sample_job_at "a" 1 None))]
                  true true) false true FileMissing)
    1700000300 "video_a" (Returned (sample_video_tag "https://h/v.mp4") []) 1700000301
    (worker_begin (sample_job_at "a" 1 None)) eq_refl eq_refl)))).
Defined.

(** X15: [shutdown] sets the shutdown flag and writes the registry once
    if, and only if, something is pending; it changes nothing of the
    registry and leaves the pending flag as it was.  From then on the
    saver writes nothing: whatever a worker still changes after the
    shutdown stays in memory. *)
Theorem shutdown_saves_pending_only :
  forall rt now w,
    let rt' := shutdown rt now w in
    _shutdown rt' = true /\
    service rt' = service rt /\
    (_save_pending (service rt) = false -> task_file rt' = task_file rt) /\
    (_save_pending (service rt) = true -> w = Written ->
       task_file rt' = FileParsed (save_data (_tasks (service rt)) now)) /\
    (forall now' w', saver_round rt' now' w' = rt') /\
    (forall tid out done now' w',
       let later := with_service (_process_task (service rt') tid out done) rt' in
       saver_round later now' w' = later).
Proof.
  intros rt now w rt'. subst rt'. unfold shutdown. cbv zeta. cbn [service].
  destruct (_save_pending (service rt)) eqn:Hp.
  - split; [now destruct w|]. split; [now destruct w|].
    split; [discriminate|]. split; [now intros _ ->|].
    split.
    + intros now' w'. apply saver_round_settled. unfold saver_due.
      destruct w; cbn; apply andb_false_r.
    + intros tid out done now' w'. apply saver_round_settled.
      rewrite with_service_due.
      destruct w; cbn; apply andb_false_r.
  - split; [reflexivity|]. split; [reflexivity|]. split; [reflexivity|].
    split; [discriminate|]. split.
    + intros now' w'. apply saver_round_settled. unfold saver_due. cbn.
      apply andb_false_r.
    + intros tid out done now' w'. apply saver_round_settled.
      rewrite with_service_due. cbn. apply andb_false_r.
Qed.

Lemma get_video_content_unfold get_cached path_exists s disk task_id :
  get_video_content get_cached path_exists s disk task_id
  = (ensure_loaded s disk,
     match Dict.get task_id (_tasks (ensure_loaded s disk)) with
     | None => None
     | Some task =>
         if negb (status task =? "completed")%string then None
         else if Str.truthy (video_path task) then
           match video_path task with
           | Some p =>
               match get_cached ("/" ++ Str.replace_char "-" "/" p) with
               | Some cache_path =>
                   if path_exists cache_path then Some cache_path else None
               | None => None
               end
           | None => None
           end
         else None
     end).
Proof. reflexivity. Qed.

(* ================================================================== *)
(** * The HTTP handlers *)

Import VideosAPI.

Lemma delete_removes_exactly_one_helper s disk tid :
  let s0 := ensure_loaded s disk in
  Dict.wf (_tasks s0) ->
  let r := delete_task s disk tid in
  snd r = Dict.get tid (_tasks s0) /\
  Dict.get tid (_tasks (fst r)) = None /\
  (forall k, k <> tid -> Dict.get k (_tasks (fst r)) = Dict.get k (_tasks s0)) /\
  (Dict.get tid (_tasks s0) = None -> fst r = s0) /\
  _loaded (fst r) = true.
Proof.
  intros s0 Hwf r. subst r. unfold delete_task. fold s0.
  destruct (Dict.get tid (_tasks s0)) as [t|] eqn:Hg; cbn [fst snd _tasks _mark_dirty].
  - split; [reflexivity|].
    split; [now rewrite get_del, String.eqb_refl by exact Hwf|].
    split.
    { intros k Hk. rewrite get_del by exact Hwf.
      apply not_eq_sym, String.eqb_neq in Hk. now rewrite Hk. }
    split; [discriminate|]. cbn [_loaded]. apply ensure_loaded_loaded.
  - split; [reflexivity|]. split; [exact Hg|].
    split; [reflexivity|]. split; [reflexivity|]. apply ensure_loaded_loaded.
Qed.

Lemma remix_task_after_load s env src_id new_prompt :
  remix_task (ensure_loaded s (disk env)) env src_id new_prompt
  = remix_task s env src_id new_prompt.
Proof. unfold remix_task, get_task. now rewrite ensure_loaded_idem. Qed.

Lemma job_reply_not_found (J : Type) (V : dict pyval -> result J) prefix t code detail :
  code <> 500 -> job_reply J V prefix t <> HTTPException code detail.
Proof.
  intros Hc. unfold job_reply.
  destruct (V (to_openai_response t)) as [job|[msg]]; [discriminate|].
  intros [= H _]. now apply Hc.
Qed.

(** X16: the [/generations] route never creates anything.  It hands its
    two arguments to [create_video] in the places of the raw request and
    of the parsed request, so [create_video] meets the authentication
    result where it expects the request, fails on its first use and
    answers 500; the service is left exactly as it was.  The same request
    given to [create_video] itself reaches [create_task]. *)
Theorem generations_route_always_fails :
  forall (J : Type) (V : dict pyval -> result J) s env request auth,
    (exists msg,
       create_video_generations J V s env request auth
       = (s, HTTPException 500
               (_build_error_response 500 ("创建视频任务失败: " ++ msg)
                  "internal_error"))) /\
    fst (create_video_generations J V s env request auth) = s /\
    (forall raw,
       fst (create_video J V s env raw (ArgCreateVideoRequest request))
       = fst (create_task s env (CreateVideoRequest.prompt request)
                (CreateVideoRequest.model request)
                (CreateVideoRequest.input_reference request)
                (str_or (CreateVideoRequest.seconds request) "4")
                (str_or (CreateVideoRequest.size request) "720x1280")
                (CreateVideoRequest.user request))).
Proof.
  intros J V s env request auth.
  split; [|split].
  - destruct auth as [token|]; eexists; reflexivity.
  - now destruct auth.
  - intros raw. reflexivity.
Qed.

Lemma delete_video_state s disk video_id :
  fst (delete_video s disk video_id) = fst (delete_task s disk video_id).
Proof. unfold delete_video. now destruct (delete_task s disk video_id). Qed.

Lemma delete_video_reply s disk video_id :
  snd (delete_video s disk video_id)
  = match snd (delete_task s disk video_id) with
    | None => HTTPException 404
                (_build_error_response 404 ("视频任务不存在: " ++ video_id) "not_found")
    | Some _ => Body (VideoDeleteResponse.make video_id "video" true)
    end.
Proof. unfold delete_video. now destruct (delete_task s disk video_id). Qed.

Lemma get_video_reply (J : Type) (V : dict pyval -> result J) s disk video_id :
  snd (get_video J V s disk video_id)
  = match Dict.get video_id (_tasks (ensure_loaded s disk)) with
    | None => HTTPException 404
                (_build_error_response 404 ("视频任务不存在: " ++ video_id) "not_found")
    | Some t => job_reply J V "获取视频任务失败: " t
    end.
Proof. reflexivity. Qed.

(** X17: [delete_video] and [get_video] answer 404 exactly for an id
    that is not stored.  Deleting a stored job answers with its id and
    [deleted = true]; after that [get_video] and a second [delete_video]
    answer 404 for this id, and [get_video] answers for every other id as
    it did before. *)
Theorem delete_video_then_get_video :
  forall (J : Type) (V : dict pyval -> result J) s disk video_id,
    let s0 := ensure_loaded s disk in
    Dict.wf (_tasks s0) ->
    let not_found :=
      _build_error_response 404 ("视频任务不存在: " ++ video_id) "not_found" in
    let deleted := delete_video s disk video_id in
    (Dict.get video_id (_tasks s0) = None <->
     snd (get_video J V s disk video_id) = HTTPException 404 not_found) /\
    (Dict.get video_id (_tasks s0) = None <->
     snd deleted = HTTPException 404 not_found) /\
    (Dict.get video_id (_tasks s0) = None -> fst deleted = s0) /\
    (Dict.get video_id (_tasks s0) <> None ->
       snd deleted = Body (VideoDeleteResponse.make video_id "video" true)) /\
    snd (get_video J V (fst deleted) disk video_id) = HTTPException 404 not_found /\
    snd (delete_video (fst deleted) disk video_id) = HTTPException 404 not_found /\
    (forall other, other <> video_id ->
       snd (get_video J V (fst deleted) disk other)
       = snd (get_video J V s disk other)).
Proof.
  intros J V s disk video_id s0 Hwf not_found deleted.
  pose proof (delete_removes_exactly_one_helper s disk video_id Hwf) as Hdel.
  cbv zeta in Hdel. fold s0 in Hdel.
  destruct Hdel as [Hret [Hgone [Hother [Hmissing Hl]]]].
  assert (Hstate : fst deleted = fst (delete_task s disk video_id))
    by apply delete_video_state.
  assert (Hreply : snd deleted
            = match Dict.get video_id (_tasks s0) with
              | None => HTTPException 404 not_found
              | Some _ => Body (VideoDeleteResponse.make video_id "video" true)
              end).
  { subst deleted. rewrite delete_video_reply, Hret. reflexivity. }
  assert (Hloaded : ensure_loaded (fst deleted) disk = fst (delete_task s disk video_id)).
  { rewrite Hstate. now apply ensure_loaded_when_loaded. }
  split.
  { rewrite get_video_reply. fold s0. destruct (Dict.get video_id (_tasks s0)) as [t|].
    - split; [discriminate|]. intros H. exfalso.
      revert H. apply job_reply_not_found. lia.
    - split; reflexivity. }
  split.
  { rewrite Hreply. destruct (Dict.get video_id (_tasks s0)); split;
      try reflexivity; discriminate. }
  split; [intros Hnone; rewrite Hstate; now apply Hmissing|].
  split.
  { intros Hsome. rewrite Hreply.
    destruct (Dict.get video_id (_tasks s0)); [reflexivity | contradiction]. }
  split; [now rewrite get_video_reply, Hloaded, Hgone|].
  split.
  { rewrite delete_video_reply. unfold delete_task. now rewrite Hloaded, Hgone. }
  intros other Hne. rewrite !get_video_reply, Hloaded. fold s0. now rewrite Hother.
Qed.

Lemma delete_video_then_get_video_witness :
  snd (get_video (dict pyval) (fun d => Ok d)
         (fst (delete_video (sample_completed_registry "https://x/v.mp4") []
                 "video_0123456789ab"))
         [] "video_0123456789ab")
  = HTTPException 404
      (_build_error_response 404 "视频任务不存在: video_0123456789ab" "not_found").
Proof.
  refine (proj1 (proj2 (proj2 (proj2 (proj2
    (delete_video_then_get_video (dict pyval) (fun d => Ok d)
       (sample_completed_registry "https://x/v.mp4") [] "video_0123456789ab" _)))))).
  vm_compute. repeat constructor; intros [].
Defined.

Lemma get_task_result s disk tid :
  get_task s disk tid
  = (ensure_loaded s disk, Dict.get tid (_tasks (ensure_loaded s disk))).
Proof. reflexivity. Qed.

(** X18: what [remix_video] answers.  An unknown source gives 404 and a
    source that is not completed gives 400, both without any change of
    the registry; for a completed source the handler registers the job
    [remix_task] creates (queued, stamped with the source id) and answers
    with its public view.  The 500 answer written for a remix that
    returns nothing is never given. *)
Theorem remix_video_replies :
  forall (J : Type) (V : dict pyval -> result J) s env video_id new_prompt,
    let s0 := ensure_loaded s (disk env) in
    let r := remix_video J V s env video_id new_prompt in
    (Dict.get video_id (_tasks s0) = None ->
       r = (s0, HTTPException 404
                  (_build_error_response 404 ("视频任务不存在: " ++ video_id)
                     "not_found"))) /\
    (forall src, Dict.get video_id (_tasks s0) = Some src ->
       status src <> "completed" ->
       r = (s0, HTTPException 400
                  (_build_error_response 400 "只能混剪已完成的视频"
                     "invalid_request_error"))) /\
    (forall src, Dict.get video_id (_tasks s0) = Some src ->
       status src = "completed" ->
       exists task,
         remix_task s env video_id new_prompt = (fst r, Some task) /\
         snd r = job_reply J V "混剪视频失败: " task /\
         remixed_from_video_id task = Some video_id /\
         status task = "queued" /\
         prompt task = new_prompt) /\
    snd r <> HTTPException 500
               (_build_error_response 500 "创建混剪任务失败" "internal_error").
Proof.
  intros J V s env video_id new_prompt s0 r.
  assert (Hr : r = remix_video J V s env video_id new_prompt) by reflexivity.
  unfold remix_video in Hr. rewrite get_task_result in Hr. fold s0 in Hr.
  assert (Hremix : remix_task s0 env video_id new_prompt
                   = remix_task s env video_id new_prompt)
    by apply remix_task_after_load.
  destruct (Dict.get video_id (_tasks s0)) as [src|] eqn:Hg.
  - destruct (String.eqb_spec (status src) "completed") as [Hc|Hc];
      cbn [negb] in Hr.
    + assert (Hsome : exists task,
                remix_task s0 env video_id new_prompt
                = (fst (remix_task s0 env video_id new_prompt), Some task) /\
                remixed_from_video_id task = Some video_id /\
                status task = "queued" /\ prompt task = new_prompt).
      { unfold remix_task. rewrite get_task_result.
        assert (Hl : ensure_loaded s0 (disk env) = s0)
          by (unfold s0; apply ensure_loaded_idem).
        rewrite Hl, Hg.
        replace (negb (status src =? Status.COMPLETED)%string) with false
          by (symmetry; apply negb_false_iff; now apply String.eqb_eq).
        destruct (create_task s0 env new_prompt (model src) (video_url src)
                    (seconds src) (size src) (user src)) as [s1 t1] eqn:Hct.
        exists (set_remixed_from_video_id (Some video_id) t1).
        split; [reflexivity|]. split; [reflexivity|].
        assert (Ht1 : t1 = snd (create_task s0 env new_prompt (model src)
                                  (video_url src) (seconds src) (size src)
                                  (user src))) by now rewrite Hct.
        rewrite Ht1. split; reflexivity. }
      destruct Hsome as [task [Heq [Hfrom [Hst Hp]]]].
      rewrite Heq in Hr. rewrite Hr. cbn [fst snd].
      split; [discriminate|]. split; [intros src' [= <-] Hne; contradiction|].
      split.
      * intros src' _ _. exists task.
        split; [now rewrite <- Hremix|]. now repeat split.
      * unfold job_reply.
        destruct (V (to_openai_response task)) as [job|[msg]]; [discriminate|].
        intros H. inversion H.
    + rewrite Hr. cbn [fst snd].
      split; [discriminate|]. split; [reflexivity|].
      split; [intros src' [= <-] Heq; contradiction | discriminate].
  - rewrite Hr. cbn [fst snd].
    split; [reflexivity|]. split; [discriminate|].
    split; [discriminate|discriminate].
Qed.

(** X19: what the content route answers in a state the service can
    reach.  An unknown id gives 404 and a job that is not completed gives
    400.  For a completed job the answer is the cached file, when the
    job has a video path that the media cache knows and whose file
    exists, and otherwise a 302 redirect to the job's video URL: the 404
    answer written for a completed job without content is never given.
    The route never changes the registry and does not read [variant]. *)
Theorem completed_content_is_served :
  forall get_cached path_exists s disk video_id variant,
    Reachable s ->
    registry_sound disk ->
    let s0 := ensure_loaded s disk in
    let r := get_video_content get_cached path_exists s disk video_id variant in
    fst r = s0 /\
    (Dict.get video_id (_tasks s0) = None ->
       snd r = HTTPException 404
                 (_build_error_response 404 ("视频任务不存在: " ++ video_id)
                    "not_found")) /\
    (forall t, Dict.get video_id (_tasks s0) = Some t ->
       status t <> "completed" ->
       snd r = HTTPException 400
                 (_build_error_response 400 "视频尚未完成生成"
                    "invalid_request_error")) /\
    (forall t, Dict.get video_id (_tasks s0) = Some t ->
       status t = "completed" ->
       (exists p vp,
          video_path t = Some vp /\
          get_cached ("/" ++ Str.replace_char "-" "/" vp) = Some p /\
          path_exists p = true /\
          snd r = FileResponse p "video/mp4" (video_id ++ ".mp4")
                    [("Cache-Control", "public, max-age=86400");
                     ("Access-Control-Allow-Origin", "*")]) \/
       (exists url,
          video_url t = Some url /\ url <> "" /\
          snd r = RedirectResponse url 302)) /\
    snd r <> HTTPException 404
               (_build_error_response 404 "视频内容不可用" "not_found") /\
    (forall variant',
       get_video_content get_cached path_exists s disk video_id variant' = r).
Proof.
  intros get_cached path_exists s disk video_id variant Hreach Hdisk s0 r.
  assert (Hsound : registry_sound (_tasks s0)).
  { apply registry_sound_ensure_loaded; [|exact Hdisk].
    exact (proj1 (reachable_sound s Hreach)). }
  assert (Hr : r = get_video_content get_cached path_exists s disk video_id variant)
    by reflexivity.
  cbv beta iota zeta delta [get_video_content get_task] in Hr.
  rewrite get_video_content_unfold, ensure_loaded_idem in Hr.
  cbv beta iota in Hr. fold s0 in Hr.
  split; [|split; [|split; [|split; [|split]]]].
  6: { intros variant'. reflexivity. }
  all: destruct (Dict.get video_id (_tasks s0)) as [t|] eqn:Hg.
  all: try (rewrite Hr; cbn [fst snd]; first [reflexivity | discriminate]).
  all: try (destruct (String.eqb_spec (status t) "completed") as [Hc|Hc];
            cbn [negb] in Hr).
  all: try (assert (Hurl : exists url, video_url t = Some url /\ url <> "");
    [ destruct Hsound as [_ Hall]; rewrite Forall_forall in Hall;
      pose proof (Hall _ (get_In _ _ _ Hg)) as [_ [_ [Hdone _]]];
      cbn [snd] in Hdone; destruct (Hdone Hc) as [_ Htruthy];
      destruct (video_url t) as [url|]; [|discriminate];
      exists url; split; [reflexivity|]; intros ->; discriminate
    | destruct Hurl as [url [Hurl Hne]] ]).
  - (* the state *)
    rewrite Hr. rewrite Hurl.
    replace (negb (url =? "")%string) with true
      by (symmetry; apply negb_true_iff; now apply String.eqb_neq).
    destruct (Str.truthy (video_path t)); [|reflexivity].
    destruct (video_path t) as [vp|]; [|reflexivity].
    destruct (get_cached _) as [p|]; [|reflexivity].
    now destruct (path_exists p).
  - now rewrite Hr.
  - intros t' [= <-] Hne'. contradiction.
  - intros t' [= <-] _. now rewrite Hr.
  - (* completed *)
    intros t' [= <-] _. rewrite Hr, Hurl.
    replace (negb (url =? "")%string) with true
      by (symmetry; apply negb_true_iff; now apply String.eqb_neq).
    destruct (Str.truthy (video_path t)) eqn:Hvp;
      [|right; exists url; now repeat split].
    destruct (video_path t) as [vp|]; [|discriminate].
    destruct (get_cached _) as [p|] eqn:Hc';
      [|right; exists url; now repeat split].
    destruct (path_exists p) eqn:Hp;
      [|right; exists url; now repeat split].
    left. exists p, vp. now repeat split.
  - intros t' [= <-] Hc'. contradiction.
  - (* never unavailable *)
    rewrite Hr, Hurl.
    replace (negb (url =? "")%string) with true
      by (symmetry; apply negb_true_iff; now apply String.eqb_neq).
    destruct (Str.truthy (video_path t)); [|discriminate].
    destruct (video_path t) as [vp|]; [|discriminate].
    destruct (get_cached _) as [p|]; [|discriminate].
    destruct (path_exists p); discriminate.
  - rewrite Hr. discriminate.
Qed.

Lemma completed_content_is_served_witness :
  snd (get_video_content (fun _ => None) (fun _ => false)
         (_process_task
            (fst (create_task init (sample_env "0123456789ab" 1700000000)
                    "a dog running" "sora-2" None "4" "720x1280" None))
            "video_0123456789ab"
            (Returned (sample_video_tag "https://x/v.mp4") []) 1700000100)
         [] "video_0123456789ab" "mp4")
  <> HTTPException 404 (_build_error_response 404 "视频内容不可用" "not_found").
Proof.
  refine (proj1 (proj2 (proj2 (proj2 (proj2
    (completed_content_is_served (fun _ => None) (fun _ => false) _ [] _ _ _ _)))))).
  - apply (reach_step
             (fst (create_task init (sample_env "0123456789ab" 1700000000)
                     "a dog running" "sora-2" None "4" "720x1280" None))).
    + apply (reach_step init); [apply reach_init|].
      apply step_create. apply registry_sound_nil.
    + apply step_worker.
  - apply registry_sound_nil.
Defined.

Lemma validate_all_ok (J : Type) (V : dict pyval -> result J) tasks data :
  validate_all J V tasks = Ok data <->
  Forall2 (fun t job => V (to_openai_response t) = Ok job) tasks data.
Proof.
  revert data. induction tasks as [|t rest IH]; intros data; simpl.
  - split.
    + intros [= <-]. constructor.
    + intros H. now inversion H.
  - destruct (V (to_openai_response t)) as [job|e] eqn:Hv.
    + destruct (validate_all J V rest) as [jobs|e] eqn:Hrest.
      * split.
        -- intros [= <-]. constructor; [exact Hv | now apply IH].
        -- intros H. inversion H as [|t' job' rest' jobs' Hj Hr]; subst.
           apply IH in Hr. congruence.
      * split; [discriminate|].
        intros H. inversion H as [|t' job' rest' jobs' Hj Hr]; subst.
        apply IH in Hr. discriminate.
    + split; [discriminate|].
      intros H. inversion H as [|t' job' rest' jobs' Hj Hr]; subst. congruence.
Qed.

Lemma validate_all_raise (J : Type) (V : dict pyval -> result J) tasks e :
  validate_all J V tasks = Raise e <->
  exists front t rest,
    tasks = (front ++ t :: rest)%list /\
    V (to_openai_response t) = Raise e /\
    Forall (fun t' => exists job, V (to_openai_response t') = Ok job) front.
Proof.
  induction tasks as [|t rest IH]; simpl.
  - split; [discriminate|]. intros [[|a front] [t [rest [H _]]]]; discriminate.
  - destruct (V (to_openai_response t)) as [job|e'] eqn:Hv.
    + destruct (validate_all J V rest) as [jobs|e'] eqn:Hrest.
      * split; [discriminate|].
        intros [[|a front] [t' [rest' [Heq [Hbad Hfront]]]]];
          injection Heq as <- Heq.
        -- congruence.
        -- inversion Hfront; subst.
           assert (Ok jobs = Raise e); [|discriminate].
           apply IH. now exists front, t', rest'.
      * split.
        -- intros [= <-]. destruct (proj1 IH eq_refl) as [front [t' [rest' [-> [Hbad Hf]]]]].
           exists (t :: front), t', rest'. split; [reflexivity|].
           split; [exact Hbad|]. constructor; [now exists job | exact Hf].
        -- intros [[|a front] [t' [rest' [Heq [Hbad Hfront]]]]];
             injection Heq as <- Heq.
           ++ congruence.
           ++ inversion Hfront; subst. f_equal.
              assert (Raise e' = Raise e :> result (list J)) as [= ->]; [|reflexivity].
              apply IH. now exists front, t', rest'.
    + split.
      * intros [= <-]. exists [], t, rest. now repeat split.
      * intros [[|a front] [t' [rest' [Heq [Hbad Hfront]]]]];
          injection Heq as <- Heq.
        -- congruence.
        -- inversion Hfront as [|? ? [job Hj] ?]; subst. congruence.
Qed.

(** X20: [list_videos] lists the page [list_tasks] gives without a user
    filter, and it is all or nothing: when every job of the page passes
    the validation of [VideoJob] the answer carries one entry per job, in
    the order of the page, with the page's [has_more], [first_id] and
    [last_id]; when one does not, the whole listing is answered with 500
    and the text of the first failure.  Jobs outside the page are not
    validated, and the registry is not changed. *)
Theorem list_videos_all_or_nothing :
  forall (J : Type) (V : dict pyval -> result J) s disk after limit order,
    let listed := snd (list_tasks s disk limit after order None) in
    let page := fst (fst (fst listed)) in
    let reply := list_videos J V s disk after limit order in
    fst reply = ensure_loaded s disk /\
    (forall resp,
       snd reply = Body resp <->
       Forall2 (fun t job => V (to_openai_response t) = Ok job) page
         (VideoListResponse.data resp) /\
       VideoListResponse.object resp = "list" /\
       VideoListResponse.has_more resp = snd (fst (fst listed)) /\
       VideoListResponse.first_id resp = snd (fst listed) /\
       VideoListResponse.last_id resp = snd listed) /\
    (forall detail code,
       snd reply = HTTPException code detail <->
       exists front t rest msg,
         page = (front ++ t :: rest)%list /\
         Forall (fun t' => exists job, V (to_openai_response t') = Ok job) front /\
         V (to_openai_response t) = Raise (Exception msg) /\
         code = 500 /\
         detail = _build_error_response 500 ("列出视频任务失败: " ++ msg)
                    "internal_error") /\
    (forall resp, snd reply = Body resp ->
       List.length (VideoListResponse.data resp) = List.length page /\
       (0 <= limit -> Z.of_nat (List.length (VideoListResponse.data resp)) <= limit)).
Proof.
  intros J V s disk after limit order listed page reply.
  assert (Hreply : reply
            = (ensure_loaded s disk,
               match validate_all J V page with
               | Ok data =>
                   Body (VideoListResponse.make "list" data (snd (fst (fst listed)))
                           (snd (fst listed)) (snd listed))
               | Raise (Exception msg) =>
                   HTTPException 500
                     (_build_error_response 500 ("列出视频任务失败: " ++ msg)
                        "internal_error")
               end)).
  { subst reply page listed. unfold list_videos, list_tasks. cbv zeta.
    cbn [snd].
    now destruct (page_of limit after
                    (working_set (_tasks (ensure_loaded s disk)) order None))
      as [[[tasks has_more] first_id] last_id]. }
  assert (Hbody : forall resp,
       snd reply = Body resp <->
       Forall2 (fun t job => V (to_openai_response t) = Ok job) page
         (VideoListResponse.data resp) /\
       VideoListResponse.object resp = "list" /\
       VideoListResponse.has_more resp = snd (fst (fst listed)) /\
       VideoListResponse.first_id resp = snd (fst listed) /\
       VideoListResponse.last_id resp = snd listed).
  { intros resp. rewrite Hreply. cbn [snd].
    destruct (validate_all J V page) as [data|[msg]] eqn:Hv.
    - split.
      + intros [= <-]. cbn. split; [now apply validate_all_ok|]. now repeat split.
      + intros [Hall [Ho [Hm [Hf Hl]]]]. apply validate_all_ok in Hall.
        assert (data = VideoListResponse.data resp) as -> by congruence.
        destruct resp as [o d m f l]. cbn in *. now subst.
    - split; [discriminate|]. intros [Hall _].
      apply validate_all_ok in Hall. congruence. }
  split; [now rewrite Hreply|]. split; [exact Hbody|]. split.
  - intros detail code. rewrite Hreply. cbn [snd].
    destruct (validate_all J V page) as [data|[msg]] eqn:Hv.
    + split; [discriminate|].
      intros [front [t [rest [msg [Hp [Hf [Hbad _]]]]]]].
      assert (Ok data = Raise (Exception msg)); [|discriminate].
      rewrite <- Hv. apply validate_all_raise. now exists front, t, rest.
    + destruct (proj1 (validate_all_raise J V page (Exception msg)) Hv)
        as [front [t [rest [Hp [Hbad Hf]]]]].
      split.
      * intros [= <- <-]. exists front, t, rest, msg. now repeat split.
      * intros [front' [t' [rest' [msg' [Hp' [Hf' [Hbad' [-> ->]]]]]]]].
        assert (Raise (Exception msg) = Raise (Exception msg') :> result (list J))
          as [= ->];
          [|reflexivity].
        rewrite <- Hv. apply validate_all_raise. now exists front', t', rest'.
  - intros resp Hb. apply Hbody in Hb. destruct Hb as [Hall _].
    assert (Hlen : List.length (VideoListResponse.data resp) = List.length page)
      by (symmetry; exact (Forall2_length Hall)).
    split; [exact Hlen|]. intros Hlimit. rewrite Hlen.
    subst page listed. unfold list_tasks. cbv zeta. cbn [snd].
    destruct (page_of_unfold limit after
                (working_set (_tasks (ensure_loaded s disk)) order None))
      as [Hpage _].
    rewrite Hpage. cbn [fst]. rewrite slice_to_nonneg by exact Hlimit.
    rewrite length_firstn. lia.
Qed.

(* ================================================================== *)
(** * What the video pattern captures *)

Lemma startswith_split p : forall s,
  Str.startswith p s = true ->
  exists r, s = p ++ r /\ VideoPattern.drop (String.length p) s = r.
Proof.
  induction p as [|a p IH]; intros s; simpl.
  - intros _. exists s. split; [reflexivity | now destruct s].
  - destruct s as [|b s]; [discriminate|].
    intros H. apply andb_true_iff in H as [Hab Hrest].
    apply Ascii.eqb_eq in Hab as ->.
    destruct (IH s Hrest) as [r [-> Hd]]. exists r. now split.
Qed.

Lemma span_not_spec c s :
  let '(run, _, rest) := VideoPattern.span_not c s in
  s = run ++ rest /\
  ~ In c (list_ascii_of_string run) /\
  (rest = "" \/ exists r, rest = String c r).
Proof.
  induction s as [|a r IH]; simpl.
  - split; [reflexivity|]. split; [tauto | now left].
  - destruct (Ascii.eqb_spec a c) as [->|Hne].
    + split; [reflexivity|]. split; [simpl; tauto|]. right. now exists r.
    + destruct (VideoPattern.span_not c r) as [[run n] rest].
      destruct IH as [-> [Hfree Hrest]].
      split; [reflexivity|]. split; [|exact Hrest].
      simpl. intros [H|H]; [now apply Hne | now apply Hfree].
Qed.

Lemma match_src_shape s g n :
  VideoPattern.match_src s = Some (g, n) -> src_attribute g s.
Proof.
  unfold VideoPattern.match_src.
  destruct (Str.startswith VideoPattern.src_eq_quote s) eqn:Hs; [|discriminate].
  apply startswith_split in Hs as [r [-> Hd]].
  change (String.length VideoPattern.src_eq_quote) with 5%nat in Hd.
  rewrite Hd.
  pose proof (span_not_spec VideoPattern.dquote r) as Hspan.
  pose proof (span_not_group VideoPattern.dquote r) as Hlen.
  destruct (VideoPattern.span_not VideoPattern.dquote r) as [[run k] rest].
  destruct Hspan as [-> [Hfree Hrest]].
  destruct k as [|k]; [discriminate|].
  destruct rest as [|q rest]; [discriminate|].
  intros [= <- _].
  destruct Hrest as [Hrest|[r' [= -> ->]]]; [discriminate|].
  exists r'. split; [reflexivity|]. split; [|exact Hfree].
  intros ->. discriminate.
Qed.

Lemma match_class_shape s : forall used best g n,
  VideoPattern.match_class s used best = Some (g, n) ->
  (exists n', best = Some (g, n')) \/
  exists mid rest,
    s = mid ++ rest /\ ~ In ">"%char (list_ascii_of_string mid) /\
    src_attribute g rest.
Proof.
  induction s as [|c r IH]; intros used best g n.
  - simpl. intros H. left. now exists n.
  - cbn [VideoPattern.match_class].
    set (best' := match VideoPattern.match_src (String c r) with
                  | Some (g0, n0) => Some (g0, (used + n0)%nat)
                  | None => best
                  end).
    assert (Hb' : forall g' n', best' = Some (g', n') ->
              (exists n'', best = Some (g', n'')) \/
              src_attribute g' (String c r)).
    { subst best'. intros g' n'.
      destruct (VideoPattern.match_src (String c r)) as [[g0 n0]|] eqn:Hs.
      - intros [= <- _]. right. exact (match_src_shape _ _ _ Hs).
      - intros H. left. now exists n'. }
    assert (Hhere : forall g' n', best' = Some (g', n') ->
              (exists n'', best = Some (g', n'')) \/
              exists mid rest,
                String c r = mid ++ rest /\
                ~ In ">"%char (list_ascii_of_string mid) /\
                src_attribute g' rest).
    { intros g' n' H. destruct (Hb' _ _ H) as [Hold|Hnew]; [now left|].
      right. exists "", (String c r). split; [reflexivity|].
      split; [simpl; tauto | exact Hnew]. }
    destruct (Ascii.eqb_spec c ">") as [->|Hne].
    + apply Hhere.
    + intros H. destruct (IH _ _ _ _ H) as [[n' Hbest]|[mid [rest [-> [Hfree Hsrc]]]]].
      * exact (Hhere _ _ Hbest).
      * right. exists (String c mid), rest. split; [reflexivity|].
        split; [|exact Hsrc].
        simpl. intros [Hc|Hc]; [now apply Hne | now apply Hfree].
Qed.

Lemma match_here_shape s g n :
  VideoPattern.match_here s = Some (g, n) -> video_tag g s.
Proof.
  unfold VideoPattern.match_here.
  destruct (Str.startswith "<video" s) eqn:Hs; [|discriminate].
  apply startswith_split in Hs as [r0 [-> Hd]].
  change (String.length "<video") with 6%nat in Hd. rewrite Hd.
  destruct r0 as [|c r]; [discriminate|].
  destruct (Ascii.eqb_spec c ">") as [->|Hne]; [discriminate|].
  intros H. apply match_class_shape in H as [[n' H]|[mid [rest [-> [Hfree Hsrc]]]]];
    [discriminate|].
  exists (String c mid), rest. split; [reflexivity|]. split; [discriminate|].
  split; [|exact Hsrc].
  simpl. intros [Hc|Hc]; [now apply Hne | now apply Hfree].
Qed.

Lemma findall_from_shape content : forall skip,
  Forall (fun g => exists pre tag, content = pre ++ tag /\ video_tag g tag)
    (VideoPattern.findall_from skip content).
Proof.
  induction content as [|c r IH]; intros skip; simpl; [constructor|].
  assert (Hlift : forall k,
    Forall (fun g => exists pre tag, String c r = pre ++ tag /\ video_tag g tag)
      (VideoPattern.findall_from k r)).
  { intros k. eapply Forall_impl; [|apply (IH k)].
    intros g [pre [tag [-> Htag]]]. now exists (String c pre), tag. }
  destruct skip as [|k]; [|apply Hlift].
  destruct (VideoPattern.match_here (String c r)) as [[g0 n0]|] eqn:Hm;
    [|apply Hlift].
  constructor; [|apply Hlift].
  exists "", (String c r). split; [reflexivity|].
  exact (match_here_shape _ _ _ Hm).
Qed.

Lemma findall_from_no_tag content : forall skip,
  Str.contains "<video" content = false ->
  VideoPattern.findall_from skip content = [].
Proof.
  induction content as [|c r IH]; intros skip; [reflexivity|].
  cbn [Str.contains]. intros H. apply orb_false_iff in H as [Hhere Hrest].
  cbn [VideoPattern.findall_from].
  destruct skip as [|k]; [|now apply IH].
  unfold VideoPattern.match_here. rewrite Hhere. now apply IH.
Qed.

(** X21: what the worker can take from the response text.  Every URL the
    video pattern finds stands in the text inside a video tag: after the
    literal [<video] and at least one more character, with no closing
    bracket in between, comes the source attribute holding it between two
    double quotes.  The URL is not empty and holds no double quote.  A
    text without the literal [<video] gives no URL, so the worker then
    falls back to the media URL list. *)
Theorem video_pattern_captures_src :
  forall content,
    Forall
      (fun url =>
         exists pre mid post,
           content
           = pre ++ "<video" ++ mid ++ VideoPattern.src_eq_quote ++ url
                 ++ String VideoPattern.dquote post /\
           mid <> "" /\
           ~ In ">"%char (list_ascii_of_string mid) /\
           url <> "" /\
           ~ In VideoPattern.dquote (list_ascii_of_string url))
      (VideoPattern.findall content) /\
    (Str.contains "<video" content = false ->
       VideoPattern.findall content = [] /\
       forall media_urls,
         extract_video_url content media_urls = find has_video_ext media_urls).
Proof.
  intros content. split.
  - eapply Forall_impl; [|apply (findall_from_shape content O)].
    intros url [pre [tag [-> [mid [rest [-> [Hmid [Hfree [post [-> [Hne Hq]]]]]]]]]]].
    exists pre, mid, post. now repeat split.
  - intros Hno.
    assert (Hnone : VideoPattern.findall content = [])
      by now apply findall_from_no_tag.
    split; [exact Hnone|].
    intros media_urls. now rewrite extract_video_url_order, Hnone.
Qed.
